(** * dds_cli / code_api: the local file transfer pipeline

    A shallow embedding of

    - [dds_cli/file_handler_local.py] (class [LocalFileHandler]): the
      catalogue of local files, the naming of processed files and remote
      keys, the status dictionary and the streaming generator, and
    - [code_api/data_deliverer.py] (class [DataDeliverer]): the list of
      paths to deliver, the temporary directory tree and the S3 [put] and
      [get] operations,

    together with the properties of these functions that the specification
    of the repository states. *)

From stdpp Require Import gmap strings list fin_maps pretty.
From Stdlib Require Import ZArith Strings.Byte Ascii Lia.

Open Scope string_scope.
Open Scope list_scope.

(** * Bytes and hexadecimal text *)

Definition bytes := list byte.

Definition byte_to_Z (b : byte) : Z := Z.of_N (Byte.to_N b).

Definition bytes_of_string (s : string) : bytes := String.list_byte_of_string s.

(** One lower-case hexadecimal digit, as [format(x, 'x')] prints it. *)
Definition hex_digit (d : Z) : ascii :=
  match d with
  | 0 => "0" | 1 => "1" | 2 => "2" | 3 => "3" | 4 => "4" | 5 => "5"
  | 6 => "6" | 7 => "7" | 8 => "8" | 9 => "9" | 10 => "a" | 11 => "b"
  | 12 => "c" | 13 => "d" | 14 => "e" | _ => "f"
  end%Z%char.

Definition is_hex_digit (c : ascii) : bool :=
  bool_decide (c ∈ map hex_digit [0; 1; 2; 3; 4; 5; 6; 7; 8; 9; 10; 11; 12; 13; 14; 15]%Z).

(** The [n] least significant hexadecimal digits of [x], most significant
    first: ['%0nx' % x] for [0 <= x < 16^n]. *)
Fixpoint hex_fixed (n : nat) (x : Z) : string :=
  match n with
  | O => ""
  | S k => hex_fixed k (x / 16) +:+ String (hex_digit (x mod 16)) ""
  end.

(** * hashlib.sha256

    SHA-256 as FIPS 180-4 defines it, on 32-bit words held in [Z], and the
    hash object of [hashlib] on top of it: [update] absorbs the blocks that
    have become whole and keeps the rest, [hexdigest] pads what is kept and
    absorbs it. *)

Module SHA256.

Definition wrap32 (x : Z) : Z := x mod 2 ^ 32.
Definition add32 (x y : Z) : Z := wrap32 (x + y).
Definition not32 (x : Z) : Z := Z.lxor x 4294967295.
Definition rotr (n x : Z) : Z :=
  Z.lor (Z.shiftr x n) (wrap32 (Z.shiftl x (32 - n))).

Definition Ch (x y z : Z) : Z := Z.lxor (Z.land x y) (Z.land (not32 x) z).
Definition Maj (x y z : Z) : Z :=
  Z.lxor (Z.lxor (Z.land x y) (Z.land x z)) (Z.land y z).
Definition Sigma0 (x : Z) : Z := Z.lxor (Z.lxor (rotr 2 x) (rotr 13 x)) (rotr 22 x).
Definition Sigma1 (x : Z) : Z := Z.lxor (Z.lxor (rotr 6 x) (rotr 11 x)) (rotr 25 x).
Definition sigma0 (x : Z) : Z := Z.lxor (Z.lxor (rotr 7 x) (rotr 18 x)) (Z.shiftr x 3).
Definition sigma1 (x : Z) : Z := Z.lxor (Z.lxor (rotr 17 x) (rotr 19 x)) (Z.shiftr x 10).

(** The constants are the first 32 bits of the fractional parts of the
    cube roots (for [K]) and of the square roots (for [H0]) of the first
    primes. *)
Definition is_prime (n : nat) : bool :=
  forallb (fun d => negb (Nat.eqb (n mod d) 0)) (seq 2 (n - 2)).

Definition primes_below (n : nat) : list Z :=
  map Z.of_nat (List.filter is_prime (seq 2 (n - 2))).

(** The integer cube root of [n] below [2 ^ bits], one bit at a time. *)
Fixpoint cube_root (bits : nat) (acc n : Z) : Z :=
  match bits with
  | O => acc
  | S b =>
      let c := (acc + 2 ^ Z.of_nat b)%Z in
      if (c * c * c <=? n)%Z then cube_root b c n else cube_root b acc n
  end.

Definition K : list Z :=
  map (fun p => wrap32 (cube_root 40 0 (p * 2 ^ 96))) (primes_below 312).

Definition H0 : list Z :=
  map (fun p => wrap32 (Z.sqrt (p * 2 ^ 64))) (primes_below 20).

(** Big-endian bytes of an unsigned integer, [n] of them. *)
Fixpoint be_bytes (n : nat) (x : Z) : list Z :=
  match n with
  | O => []
  | S k => be_bytes k (x / 256) ++ [x mod 256]
  end%Z.

Definition be_word (bs : list Z) : Z :=
  fold_left (fun acc b => acc * 256 + b)%Z bs 0%Z.

Fixpoint words (n : nat) (bs : list Z) : list Z :=
  match n with
  | O => []
  | S k => be_word (firstn 4 bs) :: words k (skipn 4 bs)
  end.

(** The padding of a message of [len] bytes: the bit, zeros and the 64-bit
    length in bits. *)
Definition padding (len : nat) : list Z :=
  [128%Z] ++ repeat 0%Z ((119 - len mod 64) mod 64) ++ be_bytes 8 (8 * Z.of_nat len).

Definition pad (msg : list Z) : list Z := msg ++ padding (length msg).

Definition w_at (w : list Z) (i : nat) : Z := nth i w 0%Z.

(** The message schedule: 16 words of the block extended to 64. *)
Fixpoint schedule (n : nat) (w : list Z) : list Z :=
  match n with
  | O => w
  | S k =>
      let i := length w in
      schedule k
        (w ++ [add32 (add32 (sigma1 (w_at w (i - 2))) (w_at w (i - 7)))
                     (add32 (sigma0 (w_at w (i - 15))) (w_at w (i - 16)))])
  end.

Definition round (st : list Z) (kw : Z * Z) : list Z :=
  match st with
  | [a; b; c; d; e; f; g; h] =>
      let t1 := add32 (add32 (add32 h (Sigma1 e)) (add32 (Ch e f g) kw.1)) kw.2 in
      let t2 := add32 (Sigma0 a) (Maj a b c) in
      [add32 t1 t2; a; b; c; add32 d t1; e; f; g]
  | _ => st
  end.

Definition compress (h : list Z) (block : list Z) : list Z :=
  let w := schedule 48 (words 16 block) in
  let st := fold_left round (combine K w) h in
  map (fun p => add32 p.1 p.2) (combine h st).

Fixpoint blocks (n : nat) (h : list Z) (bs : list Z) : list Z :=
  match n with
  | O => h
  | S k => blocks k (compress h (firstn 64 bs)) (skipn 64 bs)
  end.

(** The digest of a whole message, in one pass. *)
Definition digest_words (msg : bytes) : list Z :=
  let p := pad (map byte_to_Z msg) in
  blocks (length p / 64) H0 p.

Definition hex_of_words (ws : list Z) : string :=
  String.concat "" (map (hex_fixed 8) ws).

Definition hexdigest_of (msg : bytes) : string := hex_of_words (digest_words msg).

End SHA256.

(** The object [hashlib.sha256()]: the chaining value after the whole
    blocks fed so far, the bytes of the block not yet whole, and the number
    of bytes fed. *)
Record sha256_obj : Type := { chaining : list Z; pending : list Z; fed : nat }.

Definition hashlib_sha256 : sha256_obj :=
  {| chaining := SHA256.H0; pending := []; fed := 0 |}.

(** [h.update(chunk)]. *)
Definition sha_update (h : sha256_obj) (chunk : bytes) : sha256_obj :=
  let all := pending h ++ map byte_to_Z chunk in
  let k := length all / 64 in
  {| chaining := SHA256.blocks k (chaining h) all;
     pending := skipn (64 * k) all;
     fed := fed h + length chunk |}.

(** [h.hexdigest()]. *)
Definition hexdigest (h : sha256_obj) : string :=
  let last := pending h ++ SHA256.padding (fed h) in
  SHA256.hex_of_words (SHA256.blocks (length last / 64) (chaining h) last).

(** * Python strings

    The [str] methods the two modules use, on [string]. Indices are [Z] as
    in Python, where [rfind] answers [-1] for "not found". *)

Module PyStr.

Definition len (s : string) : Z := Z.of_nat (String.length s).

(** [s.rfind(c)] for a one-character [c]. *)
Fixpoint rfind (c : ascii) (s : string) : Z :=
  match s with
  | "" => -1
  | String a r =>
      let i := rfind c r in
      if (0 <=? i)%Z then (i + 1)%Z
      else if Ascii.eqb a c then 0%Z else (-1)%Z
  end.

(** [s[i:]] and [s[:i]] for [0 <= i]. *)
Definition slice_from (i : Z) (s : string) : string :=
  String.substring (Z.to_nat i) (String.length s - Z.to_nat i) s.
Definition slice_to (i : Z) (s : string) : string :=
  String.substring 0 (Z.to_nat i) s.

Definition startswith (p s : string) : bool := String.prefix p s.

Fixpoint endswith_char (c : ascii) (s : string) : bool :=
  match s with
  | "" => false
  | String a "" => Ascii.eqb a c
  | String _ r => endswith_char c r
  end.

(** [s.lstrip(c)] for a one-character [c]. *)
Fixpoint lstrip (c : ascii) (s : string) : string :=
  match s with
  | "" => ""
  | String a r => if Ascii.eqb a c then lstrip c r else s
  end.

(** [c in s] for a one-character [c]. *)
Fixpoint contains_char (c : ascii) (s : string) : bool :=
  match s with
  | "" => false
  | String a r => Ascii.eqb a c || contains_char c r
  end.

(** [s.split(c)] for a one-character separator. *)
Fixpoint split_char (c : ascii) (s : string) : list string :=
  match s with
  | "" => [""]
  | String a r =>
      if Ascii.eqb a c then "" :: split_char c r
      else match split_char c r with
           | h :: t => String a h :: t
           | [] => [String a ""]
           end
  end.

(** [s.split(sep)] for a separator of any positive length: matches are
    taken left to right and do not overlap; [skip] counts the characters
    of a matched separator still to be passed over. *)
Fixpoint split_from (sep : string) (skip : nat) (s : string) : list string :=
  match s with
  | "" => [""]
  | String a r =>
      match skip with
      | S k => split_from sep k r
      | O =>
          if String.prefix sep s
          then "" :: split_from sep (String.length sep - 1) r
          else match split_from sep 0 r with
               | h :: t => String a h :: t
               | [] => [String a ""]
               end
      end
  end.

(** [s.split(sep)]: [None] stands for [ValueError: empty separator]. *)
Definition split (sep s : string) : option (list string) :=
  if String.eqb sep "" then None else Some (split_from sep 0 s).

Definition join (sep : string) (l : list string) : string := String.concat sep l.

Definition is_space (a : ascii) : bool :=
  bool_decide (a ∈ [" "; "009"; "010"; "011"; "012"; "013"]%char).

Fixpoint lstrip_space (s : string) : string :=
  match s with
  | "" => ""
  | String a r => if is_space a then lstrip_space r else s
  end.

Fixpoint rstrip_space (s : string) : string :=
  match s with
  | "" => ""
  | String a r =>
      match rstrip_space r with
      | "" => if is_space a then "" else String a ""
      | r' => String a r'
      end
  end.

(** [s.strip()]. *)
Definition strip (s : string) : string := rstrip_space (lstrip_space s).

End PyStr.

(** * pathlib

    A pure POSIX path is its anchor and its parts; this is [PurePosixPath]
    of Python 3.6 to 3.11, the versions the package ran on. *)

Record Path : Type := { is_abs : bool; parts : list string }.

#[global] Instance Path_eq_dec : EqDecision Path.
Proof. solve_decision. Defined.

Module pathlib.

(** [Path(s)]: empty components and ["."] are dropped. *)
Definition of_string (s : string) : Path :=
  {| is_abs := PyStr.startswith "/" s;
     parts := filter (fun x => x ≠ "" ∧ x ≠ ".") (PyStr.split_char "/" s) |}.

(** [p / q]. *)
Definition join (p q : Path) : Path :=
  if is_abs q then q else {| is_abs := is_abs p; parts := parts p ++ parts q |}.

(** [str(p)]. *)
Definition str (p : Path) : string :=
  if is_abs p then "/" +:+ PyStr.join "/" (parts p)
  else match parts p with
       | [] => "."
       | _ => PyStr.join "/" (parts p)
       end.

(** [p.name]. *)
Definition name (p : Path) : string := List.last (parts p) "".

(** [p.parent]. *)
Definition parent (p : Path) : Path :=
  {| is_abs := is_abs p; parts := removelast (parts p) |}.

(** [p.suffix], on the name. *)
Definition suffix (name : string) : string :=
  let i := PyStr.rfind "." name in
  if (0 <? i)%Z && (i <? PyStr.len name - 1)%Z then PyStr.slice_from i name else "".

(** [p.stem], on the name. *)
Definition stem (name : string) : string :=
  let i := PyStr.rfind "." name in
  if (0 <? i)%Z && (i <? PyStr.len name - 1)%Z then PyStr.slice_to i name else name.

(** [p.suffixes], on the name. *)
Definition suffixes (name : string) : list string :=
  if PyStr.endswith_char "." name then []
  else map (fun x => "." +:+ x) (tail (PyStr.split_char "." (PyStr.lstrip "." name))).

(** [p.with_suffix(suffix).name]: only the last suffix of the name is
    replaced. [None] stands for [ValueError]. *)
Definition with_suffix_name (name suffix : string) : option string :=
  if PyStr.contains_char "/" suffix then None
  else if (negb (String.eqb suffix "") && negb (PyStr.startswith "." suffix))
          || String.eqb suffix "." then None
  else if String.eqb name "" then None
  else
    let old_suffix := pathlib.suffix name in
    if String.eqb old_suffix "" then Some (name +:+ suffix)
    else Some (PyStr.slice_to (PyStr.len name - PyStr.len old_suffix) name +:+ suffix).

Definition with_suffix (p : Path) (suffix : string) : option Path :=
  match with_suffix_name (name p) suffix with
  | Some n => Some {| is_abs := is_abs p; parts := removelast (parts p) ++ [n] |}
  | None => None
  end.

End pathlib.

Notation "p // q" := (pathlib.join p q) (at level 40, left associativity).

(** [pathlib.Path("")]. *)
Definition Path_empty : Path := {| is_abs := false; parts := [] |}.

(** * Outcomes

    A call returns, leaves the interpreter through [os._exit], or raises. *)

Inductive exn : Type :=
  | ValueError
  | KeyError
  | IOError
  | SystemExit (msg : string)
  | IndexError
  | DeliveryOptionException
  | S3Error.

#[global] Instance exn_eq_dec : EqDecision exn.
Proof. solve_decision. Defined.

Inductive outcome (A : Type) : Type :=
  | Ok (a : A)
  | OsExit (code : Z)
  | Raise (e : exn).

Arguments Ok {A} a.
Arguments OsExit {A} code.
Arguments Raise {A} e.

#[global] Instance outcome_ret : MRet outcome := fun A a => Ok a.

#[global] Instance outcome_bind : MBind outcome := fun A B k o =>
  match o with
  | Ok a => k a
  | OsExit c => OsExit c
  | Raise e => Raise e
  end.

(** * The local file system

    A file has its bytes and, possibly, a fault: [fault = Some k] makes the
    call number [k] of [read] on the open file (counted from 0) raise
    [OSError]. A directory lists its entries in the order [glob] gives
    them. [Special] is anything that is neither a regular file nor a
    directory. *)

Record file : Type := { content : bytes; fault : option nat }.

Inductive node : Type :=
  | File (f : file)
  | Dir (ch : entries)
  | Special
with entries : Type :=
  | no_entries
  | entry (name : string) (n : node) (rest : entries).

Scheme node_entries_ind := Induction for node Sort Prop
  with entries_node_ind := Induction for entries Sort Prop.

Combined Scheme node_mutind from node_entries_ind, entries_node_ind.

Fixpoint assoc (k : string) (l : entries) : option node :=
  match l with
  | no_entries => None
  | entry k' v r => if String.eqb k k' then Some v else assoc k r
  end.

(** The node at the parts of an absolute path, from the root. *)
Fixpoint node_at (root : node) (ps : list string) : option node :=
  match ps with
  | [] => Some root
  | p :: r =>
      match root with
      | Dir ch => match assoc p ch with
                  | Some c => node_at c r
                  | None => None
                  end
      | _ => None
      end
  end.

(** * dds_cli.file_handler_local.LocalFileHandler *)

(** One value of [self.data]. *)
Record FileEntry : Type := {
  path_raw : Path;
  subpath : Path;
  size_raw : Z;
  compressed : bool;
  path_processed : Path;
  size_processed : Z;
  path_remote : string;
  overwrite : bool;
  checksum : string
}.

(** One value of [self.failed]: the entry with its ["message"]. *)
Record FailedEntry : Type := { failed_info : FileEntry; failed_message : string }.

(** ["put"] and ["add_file_db"] of a status entry. *)
Record OpStatus : Type := { op_started : bool; op_done : bool }.

(** One value of the status dictionary. *)
Record UploadStatus : Type := {
  cancel : bool;
  started : bool;
  status_message : string;
  failed_op : option string;
  put_status : OpStatus;
  add_file_db : OpStatus
}.

Record LocalFileHandler : Type := {
  local_destination : Path;
  data : gmap string FileEntry;
  failed : gmap string FailedEntry
}.

Definition set_data (d : gmap string FileEntry) (h : LocalFileHandler) : LocalFileHandler :=
  {| local_destination := local_destination h; data := d; failed := failed h |}.

Definition set_failed (f : gmap string FailedEntry) (h : LocalFileHandler) : LocalFileHandler :=
  {| local_destination := local_destination h; data := data h; failed := f |}.

(** [uuid.uuid4().hex[:6]] for the UUID with integer value [u]. *)
Definition uuid_hex (u : Z) : string := hex_fixed 32 u.

Definition hex6 (u : Z) : string := String.substring 0 6 (uuid_hex u).

(** [generate_bucket_filepath], with the UUID that [uuid4] draws. *)
Definition generate_bucket_filepath (u : Z) (filename : string) (folder : Path) : string :=
  let new_name := PyStr.join "" [hex6 u; "_"; filename] in
  pathlib.str (folder // pathlib.of_string new_name).

(** [create_encrypted_name]. *)
Definition create_encrypted_name (dest raw_file subpath : Path) (no_compression : bool)
  : outcome Path :=
  let old_suffix := PyStr.join "" (pathlib.suffixes (pathlib.name raw_file)) in
  let new_suffix := if no_compression then old_suffix else old_suffix +:+ ".zst" in
  match pathlib.with_suffix raw_file (new_suffix +:+ ".ccp") with
  | Some p => Ok (dest // subpath // pathlib.of_string (pathlib.name p))
  | None => Raise ValueError
  end.

Definition with_checksum (c : string) (e : FileEntry) : FileEntry :=
  {| path_raw := path_raw e; subpath := subpath e; size_raw := size_raw e;
     compressed := compressed e; path_processed := path_processed e;
     size_processed := size_processed e; path_remote := path_remote e;
     overwrite := overwrite e; checksum := c |}.

(** [entry.update({"overwrite": True, "path_remote": r})]. *)
Definition with_overwrite (r : string) (e : FileEntry) : FileEntry :=
  {| path_raw := path_raw e; subpath := subpath e; size_raw := size_raw e;
     compressed := compressed e; path_processed := path_processed e;
     size_processed := size_processed e; path_remote := r;
     overwrite := true; checksum := checksum e |}.

Section Catalogue.

(** [fc.Compressor.is_compressed(file=path)] of the module
    [file_compressor], which answers the flag and an error text. *)
Variable is_compressed : Path -> file -> bool * string.

(** The UUIDs that [uuid.uuid4()] draws, in the order of the calls. *)
Variable uuid4 : nat -> Z.

(** The root of the file system. *)
Variable fs : node.

(** [Path(x).resolve()] where [Path(x).exists()], else [None]. *)
Variable resolve : string -> option Path.

(** The file branch of the loop of [__collect_file_info_local]. *)
Definition collect_file (dest folder path : Path) (f : file)
    (file_info : gmap string FileEntry) (rng : nat)
  : outcome (gmap string FileEntry * nat) :=
  let '(is_c, error) := is_compressed path f in
  if negb (String.eqb error "") then OsExit 0
  else
    path_processed ← create_encrypted_name dest path folder is_c;
    Ok (<[ pathlib.str (folder // pathlib.of_string (pathlib.name path)) :=
             {| path_raw := path;
                subpath := folder;
                size_raw := Z.of_nat (length (content f));
                compressed := is_c;
                path_processed := path_processed;
                size_processed := 0;
                path_remote :=
                  generate_bucket_filepath (uuid4 rng)
                    (pathlib.name path_processed) folder;
                overwrite := false;
                checksum := "" |} ]> file_info,
        S rng).

(** [__collect_file_info_local]: [collect_path] is the body of the loop
    for one path, [collect_glob] the loop over [path.glob("*")] of a
    directory. [rng] counts the UUIDs drawn so far. *)
Fixpoint collect_path (dest folder path : Path) (n : node)
    (file_info : gmap string FileEntry) (rng : nat) {struct n}
  : outcome (gmap string FileEntry * nat) :=
  match n with
  | File f => collect_file dest folder path f file_info rng
  | Dir ch =>
      r ← collect_glob dest (folder // pathlib.of_string (pathlib.name path)) path ch ∅ rng;
      Ok (r.1 ∪ file_info, r.2)
  | Special => Ok (file_info, rng)
  end
with collect_glob (dest folder parent : Path) (l : entries)
    (file_info : gmap string FileEntry) (rng : nat) {struct l}
  : outcome (gmap string FileEntry * nat) :=
  match l with
  | no_entries => Ok (file_info, rng)
  | entry nm n rest =>
      r ← collect_path dest folder (parent // pathlib.of_string nm) n file_info rng;
      collect_glob dest folder parent rest r.1 r.2
  end.

(** The loop of the outermost call, over the resolved paths. A path with
    no node is neither a file nor a directory. *)
Fixpoint collect_file_info_local (dest : Path) (all_paths : list Path)
    (file_info : gmap string FileEntry) (rng : nat)
  : outcome (gmap string FileEntry * nat) :=
  match all_paths with
  | [] => Ok (file_info, rng)
  | path :: rest =>
      r ← match node_at fs (parts path) with
          | Some n => collect_path dest Path_empty path n file_info rng
          | None => Ok (file_info, rng)
          end;
      collect_file_info_local dest rest r.1 r.2
  end.

(** [LocalFileHandler.__init__]. The base class leaves the paths the user
    gave in [self.data_list], an empty [self.failed] and the destination.
    [list(set(...))] keeps one copy of each resolved path; the order of a
    Python set is not specified and is taken to be that of the list with
    the earlier copies left out. *)
Definition init (data_list : list string) (temporary_destination : Path)
  : outcome LocalFileHandler :=
  let data_list := remove_dups (omap resolve data_list) in
  match data_list with
  | [] => OsExit 0
  | _ =>
      r ← collect_file_info_local temporary_destination data_list ∅ 0;
      Ok {| local_destination := temporary_destination; data := r.1; failed := ∅ |}
  end.

End Catalogue.

(** ** create_upload_status_dict *)

Definition initial_status : UploadStatus :=
  {| cancel := false; started := false; status_message := ""; failed_op := None;
     put_status := {| op_started := false; op_done := false |};
     add_file_db := {| op_started := false; op_done := false |} |}.

(** The body of the loop for the key [x]. *)
Definition status_step (existing_files : gmap string string) (overwrite_ok : bool)
    (x : string) (st : LocalFileHandler * gmap string UploadStatus)
  : outcome (LocalFileHandler * gmap string UploadStatus) :=
  let '(h, status_dict) := st in
  let in_db := bool_decide (is_Some (existing_files !! x)) in
  if in_db && negb overwrite_ok then
    match data h !! x with
    | Some e =>
        Ok (set_failed
              (<[x := {| failed_info := e; failed_message := "File already uploaded" |}]>
                 (failed h))
              (set_data (delete x (data h)) h),
            status_dict)
    | None => Raise KeyError
    end
  else
    h' ← (if in_db then
            if overwrite_ok then
              match data h !! x, existing_files !! x with
              | Some e, Some r => Ok (set_data (<[x := with_overwrite r e]> (data h)) h)
              | _, _ => Raise KeyError
              end
            else Ok h
          else Ok h);
    Ok (h', <[x := initial_status]> status_dict).

Fixpoint status_loop (existing_files : gmap string string) (overwrite_ok : bool)
    (keys : list string) (st : LocalFileHandler * gmap string UploadStatus)
  : outcome (LocalFileHandler * gmap string UploadStatus) :=
  match keys with
  | [] => Ok st
  | x :: rest =>
      st' ← status_step existing_files overwrite_ok x st;
      status_loop existing_files overwrite_ok rest st'
  end.

(** [create_upload_status_dict]: the handler afterwards and the dictionary
    returned. [list(self.data)] is the list of the keys. *)
Definition create_upload_status_dict (h : LocalFileHandler)
    (existing_files : gmap string string) (overwrite_ok : bool)
  : outcome (LocalFileHandler * gmap string UploadStatus) :=
  status_loop existing_files overwrite_ok (map_to_list (data h)).*1 (h, ∅).

(** ** stream_from_file

    Python generators are advanced one [next] at a time; each is a state
    and a step function. *)

Inductive io_event : Type :=
  | EvReadFile (p : Path)
  | EvCompressFile (p : Path)
  | EvWarning.

Section Streaming.

(** [FileSegment.SEGMENT_SIZE_RAW], the chunk size of [read_file]. *)
Variable SEGMENT_SIZE_RAW : nat.

(** [fc.Compressor.compress_file(file=path)] of the module
    [file_compressor]: the chunks it yields for the file at [path]. *)
Variable compress_file : node -> Path -> list bytes.

Variable fs : node.

(** The generator [read_file(file)]: not started, inside the loop with
    the bytes not yet read, the number of [read] calls made and the fault
    of the file, or finished. *)
Inductive read_gen : Type :=
  | R_new (p : Path)
  | R_open (rest : bytes) (k : nat) (flt : option nat)
  | R_closed.

(** One [infile.read(chunk_size)] inside [iter(..., b"")]: an [OSError]
    is logged as a warning and ends the generator. The two calls of
    [os.umask] around the loop leave the files as they are. *)
Definition read_step (rest : bytes) (k : nat) (flt : option nat)
  : option bytes * read_gen * list io_event :=
  if bool_decide (flt = Some k) then (None, R_closed, [EvWarning])
  else
    match firstn SEGMENT_SIZE_RAW rest with
    | [] => (None, R_closed, [])
    | chunk => (Some chunk, R_open (skipn SEGMENT_SIZE_RAW rest) (S k) flt, [])
    end.

(** [next] on [read_file(file)]; [None] is [StopIteration]. A path that
    is not a regular file makes [open] raise [OSError]. *)
Definition read_next (r : read_gen) : option bytes * read_gen * list io_event :=
  match r with
  | R_new p =>
      match node_at fs (parts p) with
      | Some (File f) =>
          let '(c, r', ev) := read_step (content f) 0 (fault f) in
          (c, r', EvReadFile p :: ev)
      | _ => (None, R_closed, [EvReadFile p; EvWarning])
      end
  | R_open rest k flt => read_step rest k flt
  | R_closed => (None, R_closed, [])
  end.

(** A [for] loop over [read_file(file)] run to its end: the chunks, in
    order, and the events. *)
Fixpoint read_loop (fuel : nat) (r : read_gen) : list bytes * list io_event :=
  match fuel with
  | O => ([], [])
  | S fuel' =>
      match read_next r with
      | (Some c, r', ev) =>
          let '(cs, ev') := read_loop fuel' r' in (c :: cs, ev ++ ev')
      | (None, _, ev) => ([], ev)
      end
  end.

(** Fuel that lets [read_loop] reach the end of the generator: each chunk
    has at least one byte. *)
Definition read_fuel (r : read_gen) : nat :=
  match r with
  | R_new p =>
      match node_at fs (parts p) with
      | Some (File f) => S (length (content f))
      | _ => 1
      end
  | R_open rest _ _ => S (length rest)
  | R_closed => 1
  end.

Definition read_all (r : read_gen) : list bytes * list io_event :=
  read_loop (read_fuel r) r.

(** The generator [stream_from_file(file)]:
    - [G_new]: created, not started;
    - [G_read]: suspended at the [yield] of the branch for compressed
      files, with the reader and the running checksum;
    - [G_compress]: suspended at the [yield] of the loop over
      [compress_file], with the chunks still to come;
    - [G_finished]: returned or raised. *)
Inductive stream_gen : Type :=
  | G_new (file : string)
  | G_read (file : string) (r : read_gen) (cs : sha256_obj)
  | G_compress (file : string) (rest : list bytes) (cs : sha256_obj)
  | G_finished.

Inductive signal : Type :=
  | Yield (chunk : bytes)
  | StopIteration
  | Raised (e : exn).

Record stepped : Type := {
  sig : signal;
  handler_after : LocalFileHandler;
  gen_after : stream_gen;
  events : list io_event
}.

(** The last statement: [self.data[file]["checksum"] = checksum.hexdigest()]. *)
Definition finish (h : LocalFileHandler) (file : string) (cs : sha256_obj)
    (ev : list io_event) : stepped :=
  match data h !! file with
  | Some e =>
      {| sig := StopIteration;
         handler_after := set_data (<[file := with_checksum (hexdigest cs) e]> (data h)) h;
         gen_after := G_finished; events := ev |}
  | None =>
      {| sig := Raised KeyError; handler_after := h; gen_after := G_finished;
         events := ev |}
  end.

(** The loop of the branch for compressed files, from its head. *)
Definition read_branch (h : LocalFileHandler) (file : string) (r : read_gen)
    (cs : sha256_obj) : stepped :=
  match read_next r with
  | (Some chunk, r', ev) =>
      {| sig := Yield chunk; handler_after := h;
         gen_after := G_read file r' (sha_update cs chunk); events := ev |}
  | (None, _, ev) => finish h file cs ev
  end.

(** The loop over the chunks of [compress_file], from its head. *)
Definition compress_branch (h : LocalFileHandler) (file : string)
    (chunks : list bytes) (cs : sha256_obj) (ev : list io_event) : stepped :=
  match chunks with
  | chunk :: rest =>
      {| sig := Yield chunk; handler_after := h;
         gen_after := G_compress file rest cs; events := ev |}
  | [] => finish h file cs ev
  end.

(** [next] on [stream_from_file(file)], with the handler as it is at the
    call. *)
Definition stream_next (h : LocalFileHandler) (g : stream_gen) : stepped :=
  match g with
  | G_new file =>
      match data h !! file with
      | None =>
          {| sig := Raised KeyError; handler_after := h; gen_after := G_finished;
             events := [] |}
      | Some file_info =>
          if compressed file_info then
            read_branch h file (R_new (path_raw file_info)) hashlib_sha256
          else
            let '(raw, ev) := read_all (R_new (path_raw file_info)) in
            let cs := fold_left sha_update raw hashlib_sha256 in
            compress_branch h file (compress_file fs (path_raw file_info)) cs
              (ev ++ [EvCompressFile (path_raw file_info)])
      end
  | G_read file r cs => read_branch h file r cs
  | G_compress file rest cs => compress_branch h file rest cs []
  | G_finished =>
      {| sig := StopIteration; handler_after := h; gen_after := G_finished;
         events := [] |}
  end.

(** [n] calls of [next] in a row, nothing else touching the handler in
    between: the signals and the events in order, the handler and the
    generator afterwards. *)
Record run : Type := {
  signals : list signal;
  run_events : list io_event;
  final_handler : LocalFileHandler;
  final_gen : stream_gen
}.

Fixpoint stream_nexts (n : nat) (h : LocalFileHandler) (g : stream_gen) : run :=
  match n with
  | O => {| signals := []; run_events := []; final_handler := h; final_gen := g |}
  | S k =>
      let s := stream_next h g in
      let r := stream_nexts k (handler_after s) (gen_after s) in
      {| signals := sig s :: signals r; run_events := events s ++ run_events r;
         final_handler := final_handler r; final_gen := final_gen r |}
  end.

End Streaming.

(** * code_api.data_deliverer.DataDeliverer *)

(** An element of the list [data_to_deliver] builds: a resolved path, the
    marker [[None, d]] of a path that does not exist (upload), or the name
    as it was given (download). *)
Inductive delivery_item : Type :=
  | Resolved (p : Path)
  | Unresolved (d : string)
  | Named (d : string).

#[global] Instance delivery_item_eq_dec : EqDecision delivery_item.
Proof. solve_decision. Defined.

Section PathsToDeliver.

(** [Path(d).resolve()] where [Path(d).exists()], else [None]. *)
Variable resolve : string -> option Path.

(** The lines of the file at a path, [None] where it does not exist. *)
Variable pathfile_lines : string -> option (list string).

Definition put_item (d : string) : delivery_item :=
  match resolve d with
  | Some p => Resolved p
  | None => Unresolved d
  end.

(** [all_files.count(element)]. *)
Definition count (element : delivery_item) (all_files : list delivery_item) : nat :=
  length (filter (fun x => x = element) all_files).

(** [data_to_deliver], for the method the deliverer was created from. *)
Definition data_to_deliver (method : string) (data : option (list string))
    (pathfile : option string) : outcome (list delivery_item) :=
  let all_files :=
    match data with
    | Some data =>
        if String.eqb method "put" then map put_item data
        else if String.eqb method "get" then map Named data
        else []
    | None => []
    end in
  all_files ←
    match pathfile with
    | Some pathfile =>
        match pathfile_lines pathfile with
        | Some lines =>
            if String.eqb method "put"
            then Ok (all_files ++ map (fun line => put_item (PyStr.strip line)) lines)
            else if String.eqb method "get"
            then Ok (all_files ++ map (fun line => Named (PyStr.strip line)) lines)
            else Raise DeliveryOptionException
        | None => Raise IOError
        end
    | None => Ok all_files
    end;
  if forallb (fun element => Nat.eqb (count element all_files) 1) all_files
  then Ok all_files
  else Raise DeliveryOptionException.

End PathsToDeliver.

(** ** The world the deliverer acts on

    The local disk maps the parts of an absolute path to [true] for a
    directory and [false] for a file; the object store has its buckets and
    the keys of the bucket of the project; the log keeps the calls made and
    the lines printed, oldest first. *)

Inductive event : Type :=
  | EvPrint (msg : string)
  | EvBucketsAll
  | EvListObjects
  | EvPutObject (key : string)
  | EvFileExists (key : string)
  | EvUpload (file key : string)
  | EvDownload (key dest : string)
  | EvMkdir (p : list string)
  | EvRmtree (p : list string).

#[global] Instance event_eq_dec : EqDecision event.
Proof. solve_decision. Defined.

Record World : Type := {
  disk : gmap (list string) bool;
  buckets : list string;
  objects : list string;
  log : list event
}.

Definition set_disk (d : gmap (list string) bool) (w : World) : World :=
  {| disk := d; buckets := buckets w; objects := objects w; log := log w |}.

Definition set_objects (o : list string) (w : World) : World :=
  {| disk := disk w; buckets := buckets w; objects := o; log := log w |}.

Definition emit (e : event) (w : World) : World :=
  {| disk := disk w; buckets := buckets w; objects := objects w; log := log w ++ [e] |}.

Definition exists_ (w : World) (p : list string) : bool :=
  bool_decide (is_Some (disk w !! p)).

Definition is_dir (w : World) (p : list string) : bool :=
  bool_decide (disk w !! p = Some true).

(** The prefixes of [p], shortest first, [p] itself included. *)
Definition ancestors (p : list string) : list (list string) :=
  map (fun n => firstn n p) (seq 0 (S (length p))).

Record DataDeliverer : Type := {
  method : string;
  s3_bucket : string;
  tempdir : list Path
}.

Definition nl : string := String "010" "".

Section Delivery.

(** What the operating system and the network refuse: [mkdir] of a path,
    [shutil.rmtree] of a tree, the upload of a file to a key and the
    download of a key. *)
Variable mkdir_refused : list string -> bool.
Variable rmtree_refused : list string -> bool.
Variable upload_refused : string -> string -> bool.
Variable download_refused : string -> bool.

(** [S3Object.file_exists_in_bucket(key)] of the module [datadel_s3]:
    whether the key is there and the keys that match it, from the keys of
    the bucket. *)
Variable file_exists_in_bucket : list string -> string -> bool * list string.

(** [Path.mkdir()]: [false] is [OSError] (refused, already there, or no
    parent directory). *)
Definition mkdir (w : World) (p : list string) : World * bool :=
  let w := emit (EvMkdir p) w in
  if mkdir_refused p || exists_ w p || negb (is_dir w (removelast p))
  then (w, false)
  else (set_disk (<[p := true]> (disk w)) w, true).

(** [Path.mkdir(parents=True)]: the missing ancestors are made too. *)
Definition mkdir_parents (w : World) (p : list string) : World * bool :=
  let w := emit (EvMkdir p) w in
  if mkdir_refused p || exists_ w p
     || existsb (fun a => bool_decide (disk w !! a = Some false)) (ancestors p)
  then (w, false)
  else (set_disk (foldr (fun a d => <[a := true]> d) (disk w) (ancestors p)) w, true).

(** [shutil.rmtree(p)]: the directory and all below it go; a failure
    leaves the disk as it was. *)
Definition rmtree (w : World) (p : list string) : World * bool :=
  let w := emit (EvRmtree p) w in
  if rmtree_refused p || negb (is_dir w p) then (w, false)
  else (set_disk (filter (fun kv => ¬ p `prefix_of` kv.1) (disk w)) w, true).

(** [client.download_file(bucket, key, dest)]. *)
Definition download_file (w : World) (key : string) (dest : Path) : World * bool :=
  let w := emit (EvDownload key (pathlib.str dest)) w in
  if download_refused key || negb (is_dir w (parts (pathlib.parent dest)))
     || is_dir w (parts dest)
  then (w, false)
  else (set_disk (<[parts dest := false]> (disk w)) w, true).

(** [client.upload_file(file, bucket, key)]. *)
Definition upload_file (w : World) (file key : string) : World * bool :=
  let w := emit (EvUpload file key) w in
  if upload_refused file key then (w, false)
  else (set_objects (objects w ++ [key]) w, true).

(** *** timestamp *)

Definition fmt_int (t : Z) : string :=
  if Nat.eqb (String.length (pretty t)) 1 then "0" +:+ pretty t else pretty t.

Fixpoint replace_char (a b : ascii) (s : string) : string :=
  match s with
  | "" => ""
  | String c r => String (if Ascii.eqb c a then b else c) (replace_char a b r)
  end.

(** [timestamp], for the [datetime.now()] given by its six fields. *)
Definition timestamp (year month day hour minute second : Z) : string :=
  replace_char ":" "-"
    (replace_char " " "_"
       (fmt_int year +:+ "-" +:+ fmt_int month +:+ "-" +:+ fmt_int day +:+ " "
        +:+ fmt_int hour +:+ ":" +:+ fmt_int minute +:+ ":" +:+ fmt_int second)).

(** *** create_directories *)

Definition temp_dir_of (cwd : Path) (timestamp_ : string) : Path :=
  cwd // pathlib.of_string ("DataDelivery_" +:+ timestamp_).

Definition dirs_of (temp_dir : Path) : list Path :=
  map (fun sf => temp_dir // pathlib.of_string sf) [""; "files/"; "keys/"; "meta/"; "logs/"].

Definition msg_not_created (d_ : Path) : string :=
  "The directory '" +:+ pathlib.str d_ +:+ "' could not be created: "
  +:+ "Cancelling delivery. Deleting temporary directory.".

Definition msg_deleted : string :=
  "Temporary directory deleted. " +:+ nl +:+ nl +:+ "----DELIVERY CANCELLED---" +:+ nl.

Definition msg_not_deleted (temp_dir : Path) : string :=
  "Could not delete directory " +:+ pathlib.str temp_dir +:+ ": " +:+ nl +:+ nl
  +:+ " ----DELIVERY CANCELLED---" +:+ nl.

(** The loop over [dirs]. The text of the caught exception is left out of
    the messages. *)
Fixpoint create_loop (temp_dir : Path) (dirs : list Path) (w : World)
  : World * outcome unit :=
  match dirs with
  | [] => (w, Ok ())
  | d_ :: rest =>
      match mkdir w (parts d_) with
      | (w, true) => create_loop temp_dir rest w
      | (w, false) =>
          let w := emit (EvPrint (msg_not_created d_)) w in
          if exists_ w (parts temp_dir) then
            match rmtree w (parts temp_dir) with
            | (w, true) => (w, Raise (SystemExit msg_deleted))
            | (w, false) => (w, Raise (SystemExit (msg_not_deleted temp_dir)))
            end
          else create_loop temp_dir rest w
      end
  end.

(** [create_directories], with [Path.cwd()] and the timestamp. *)
Definition create_directories (cwd : Path) (timestamp_ : string) (w : World)
  : World * outcome (bool * list Path) :=
  let temp_dir := temp_dir_of cwd timestamp_ in
  let dirs := dirs_of temp_dir in
  match create_loop temp_dir dirs w with
  | (w, Ok _) => (w, Ok (true, dirs))
  | (w, OsExit c) => (w, OsExit c)
  | (w, Raise e) => (w, Raise e)
  end.

(** The end of [DataDeliverer.__init__], once the paths to deliver are
    known: the directories are made and [self.tempdir] is set, or the
    session ends with [OSError] ([IOError] is the same class). *)
Definition init_tempdir (cwd : Path) (timestamp_ : string) (w : World)
  : World * outcome (list Path) :=
  match create_directories cwd timestamp_ w with
  | (w, Ok (dirs_created, tempdir)) =>
      if negb dirs_created then (w, Raise IOError) else (w, Ok tempdir)
  | (w, OsExit c) => (w, OsExit c)
  | (w, Raise e) => (w, Raise e)
  end.

(** *** put and get *)

Definition msg_exists (file : Path) : string :=
  "File exists: " +:+ pathlib.name file +:+ ", not uploading file.".

Definition msg_uploaded (file : Path) : string :=
  "Success: " +:+ pathlib.str file +:+ " uploaded to S3!".

Definition msg_not_uploaded (file : Path) : string :=
  pathlib.str file +:+ " not uploaded: ".

Definition msg_no_file (path : string) : string :=
  "File does not exist: " +:+ path +:+ ", not downloading anything.".

Definition msg_no_folder (p : Path) : string :=
  "Could not create folder " +:+ pathlib.str p
  +:+ ". Cannotproceed with delivery. Cancelling: ".

Definition msg_downloaded (new_path : Path) (path : string) : string :=
  "Success: " +:+ pathlib.str new_path +:+ " downloaded from S3 to folder '"
  +:+ path +:+ "'!".

Definition msg_wrong : string := "Something wrong: ".

Definition msg_skip (new_path : Path) : string :=
  "File " +:+ pathlib.str new_path +:+ " already exists. Not downloading.".

(** [self.s3.bucket in self.s3.resource.buckets.all()]. *)
Definition bucket_exists (self : DataDeliverer) (w : World) : World * bool :=
  let w := emit EvBucketsAll w in
  (w, bool_decide (s3_bucket self ∈ buckets w)).

(** The key of the file and, for a file below [spec_path], the marker of
    its folder, created where [list_objects_v2] does not show it. *)
Definition put_key (file : Path) (spec_path : option string) (w : World)
  : World * outcome string :=
  match spec_path with
  | None => (w, Ok (pathlib.name file))
  | Some spec_path =>
      match PyStr.split spec_path (pathlib.str file) with
      | None => (w, Raise ValueError)
      | Some pieces =>
          let filepath := spec_path +:+ List.last pieces "" in
          match PyStr.split (pathlib.name file) filepath with
          | None => (w, Raise ValueError)
          | Some pieces' =>
              let all_subfolders := List.hd "" pieces' in
              let w := emit EvListObjects w in
              let found := bool_decide (all_subfolders ∈ objects w) in
              if negb found
              then (set_objects (objects w ++ [all_subfolders])
                      (emit (EvPutObject all_subfolders) w), Ok filepath)
              else (w, Ok filepath)
          end
      end
  end.

(** [put]: the world afterwards and the value returned ([None] where
    the function falls off its end). *)
Definition put (self : DataDeliverer) (file : Path) (spec_path : option string)
    (w : World) : World * outcome (option string) :=
  match bucket_exists self w with
  | (w, true) =>
      match put_key file spec_path w with
      | (w, Ok filepath) =>
          let w := emit (EvFileExists filepath) w in
          let '(file_already_in_bucket, _) := file_exists_in_bucket (objects w) filepath in
          if file_already_in_bucket then (w, Ok (Some (msg_exists file)))
          else
            match upload_file w (pathlib.str file) filepath with
            | (w, true) => (w, Ok (Some (msg_uploaded file)))
            | (w, false) => (emit (EvPrint (msg_not_uploaded file)) w, Ok None)
            end
      | (w, OsExit c) => (w, OsExit c)
      | (w, Raise e) => (w, Raise e)
      end
  | (w, false) => (w, Raise S3Error)
  end.

(** The loop of [get] over the keys that match. *)
Fixpoint get_loop (self : DataDeliverer) (path : string) (filelist : list string)
    (w : World) : World * outcome unit :=
  match filelist with
  | [] => (w, Ok ())
  | f :: rest =>
      match tempdir self !! 1%nat with
      | None => (w, Raise IndexError)
      | Some files_dir =>
          let new_path := files_dir // pathlib.of_string f in
          let parent := pathlib.parent new_path in
          match (if negb (exists_ w (parts parent)) then mkdir_parents w (parts parent)
                 else (w, true)) with
          | (w, false) => (w, Raise (SystemExit (msg_no_folder parent)))
          | (w, true) =>
              if negb (exists_ w (parts new_path)) then
                match download_file w f new_path with
                | (w, true) =>
                    get_loop self path rest (emit (EvPrint (msg_downloaded new_path path)) w)
                | (w, false) =>
                    get_loop self path rest (emit (EvPrint msg_wrong) w)
                end
              else get_loop self path rest (emit (EvPrint (msg_skip new_path)) w)
          end
      end
  end.

(** [get]: the world afterwards and the value returned ([None] where the
    function falls off its end). *)
Definition get (self : DataDeliverer) (path : string) (w : World)
  : World * outcome (option string) :=
  match bucket_exists self w with
  | (w, true) =>
      let w := emit (EvFileExists path) w in
      let '(file_in_bucket, filelist) := file_exists_in_bucket (objects w) path in
      if negb file_in_bucket then (w, Ok (Some (msg_no_file path)))
      else
        match get_loop self path filelist w with
        | (w, Ok _) => (w, Ok None)
        | (w, OsExit c) => (w, OsExit c)
        | (w, Raise e) => (w, Raise e)
        end
  | (w, false) => (w, Ok None)
  end.

End Delivery.

(** * Notions for the statements *)

(** The three fields that nothing fills when the catalogue is built. *)
Definition unfilled (e : FileEntry) : Prop :=
  checksum e = "" ∧ overwrite e = false ∧ size_processed e = 0%Z.

Definition already_uploaded (e : FileEntry) : FailedEntry :=
  {| failed_info := e; failed_message := "File already uploaded" |}.

(** What one turn of the loop leaves at a key it does not treat. *)
Definition key_kept (k : string) (st st' : LocalFileHandler * gmap string UploadStatus)
  : Prop :=
  data st'.1 !! k = data st.1 !! k
  /\ failed st'.1 !! k = failed st.1 !! k
  /\ st'.2 !! k = st.2 !! k.

(** What the loop leaves at a key it treats. *)
Definition key_treated (existing_files : gmap string string) (overwrite_ok : bool)
    (k : string) (st st' : LocalFileHandler * gmap string UploadStatus) : Prop :=
  match existing_files !! k, overwrite_ok with
  | Some _, false =>
      data st'.1 !! k = None
      /\ failed st'.1 !! k = already_uploaded <$> data st.1 !! k
      /\ st'.2 !! k = st.2 !! k
  | Some r, true =>
      data st'.1 !! k = with_overwrite r <$> data st.1 !! k
      /\ failed st'.1 !! k = failed st.1 !! k
      /\ st'.2 !! k = Some initial_status
  | None, _ =>
      data st'.1 !! k = data st.1 !! k
      /\ failed st'.1 !! k = failed st.1 !! k
      /\ st'.2 !! k = Some initial_status
  end.

(** The handler with the checksum written into the entry of [file]. *)
Definition checksum_written (h : LocalFileHandler) (file : string) (e : FileEntry)
    (cs : sha256_obj) : LocalFileHandler :=
  set_data (<[file := with_checksum (hexdigest cs) e]> (data h)) h.

(** The list that [data_to_deliver] assembles for an upload. *)
Definition listed (pathfile_lines : string -> option (list string))
    (data : option (list string)) (pathfile : option string) : list string :=
  default [] data
  ++ match pathfile with
     | Some pathfile => map PyStr.strip (default [] (pathfile_lines pathfile))
     | None => []
     end.

(** The step of the loop of [get] that sees to the parent folder. *)
Definition ensure_parent (mkdir_refused : list string -> bool) (w : World)
    (parent : list string) : World * bool :=
  if negb (exists_ w parent) then mkdir_parents mkdir_refused w parent else (w, true).

(** The body of the loop of [get] for the key [f], the target known. *)
Definition get_one (mkdir_refused : list string -> bool) (download_refused : string -> bool)
    (path f : string) (new_path : Path) (w : World) : World * bool :=
  match ensure_parent mkdir_refused w (parts (pathlib.parent new_path)) with
  | (w, false) => (w, false)
  | (w, true) =>
      if negb (exists_ w (parts new_path)) then
        match download_file download_refused w f new_path with
        | (w, true) => (emit (EvPrint (msg_downloaded new_path path)) w, true)
        | (w, false) => (emit (EvPrint msg_wrong) w, true)
        end
      else (emit (EvPrint (msg_skip new_path)) w, true)
  end.

(** [evs] appended to the log, the rest of the world as it is. *)
Definition emits (evs : list event) (w : World) : World :=
  {| disk := disk w; buckets := buckets w; objects := objects w; log := log w ++ evs |}.

(** On a real disk, what exists has a parent that exists. *)
Definition parents_there (w : World) : Prop :=
  forall p, exists_ w p = true -> exists_ w (removelast p) = true.

(** A hash object between two calls holds less than a block. *)
Definition between_calls (h : sha256_obj) : Prop := length (pending h) < 64.

(** Every character of [s] passes the test [P]. *)
Fixpoint all_chars (P : ascii -> bool) (s : string) : bool :=
  match s with
  | "" => true
  | String c r => P c && all_chars P r
  end.

(** A file name: not empty, not ["."], without ["/"]. *)
Definition plain (s : string) : bool :=
  negb (String.eqb s "") && negb (String.eqb s ".") && negb (PyStr.contains_char "/" s).

Fixpoint names (l : entries) : list string :=
  match l with
  | no_entries => []
  | entry nm _ rest => nm :: names rest
  end.

(** A directory tree as a file system holds it: every name is a file name
    and no directory has two entries of one name. *)
Fixpoint wf_node (n : node) : Prop :=
  match n with
  | Dir ch => wf_entries ch
  | _ => True
  end
with wf_entries (l : entries) : Prop :=
  match l with
  | no_entries => True
  | entry nm n rest =>
      plain nm = true /\ (nm ∉ names rest) /\ wf_node n /\ wf_entries rest
  end.

(** The relative path with the parts [l]. *)
Definition relative (l : list string) : Path := {| is_abs := false; parts := l |}.

(** The entry of the file [f] found at [q] below [path], for the walk that
    entered [path] with the subpath [folder]. *)
Definition describes (is_compressed : Path -> file -> bool * string)
    (folder path : Path) (q : list string) (f : file) (e : FileEntry) : Prop :=
  path_raw e = {| is_abs := is_abs path; parts := parts path ++ q |}
  /\ subpath e = folder // relative (removelast (pathlib.name path :: q))
  /\ size_raw e = Z.of_nat (length (content f))
  /\ compressed e = (is_compressed (path_raw e) f).1.

(** Every regular file below [n] has its entry in [r], under the key of
    its path from [top]. *)
Definition covered (folder : Path) (top : string) (n : node)
    (r : gmap string FileEntry) (d : list string -> file -> FileEntry -> Prop) : Prop :=
  forall q f, node_at n q = Some (File f) ->
    exists e, r !! pathlib.str (folder // relative (top :: q)) = Some e /\ d q f e.

(** Apart from these keys, [r] is [file_info]. *)
Definition framed (folder : Path) (top : string) (n : node)
    (r file_info : gmap string FileEntry) : Prop :=
  forall k, (forall q f, node_at n q = Some (File f) ->
               k ≠ pathlib.str (folder // relative (top :: q))) ->
            r !! k = file_info !! k.

(** The key, the processed path and the remote path of an entry follow
    from its raw path, its subpath and its flag. *)
Definition coherent (uuid4 : nat -> Z) (dest : Path) (k : string) (e : FileEntry) : Prop :=
  k = pathlib.str (subpath e // pathlib.of_string (pathlib.name (path_raw e)))
  /\ create_encrypted_name dest (path_raw e) (subpath e) (compressed e)
     = Ok (path_processed e)
  /\ exists n, path_remote e
               = generate_bucket_filepath (uuid4 n) (pathlib.name (path_processed e))
                   (subpath e).

(** A SHA-256 digest in hexadecimal: 64 digits. *)
Definition sha_hex (s : string) : Prop :=
  String.length s = 64 /\ all_chars is_hex_digit s = true.

(** A hash object holds the eight words of its chaining value. *)
Definition whole_state (cs : sha256_obj) : Prop := length (chaining cs) = 8.

(** The generator [g] was made for [file]. *)
Definition gen_of (file : string) (g : stream_gen) : Prop :=
  match g with
  | G_new f => f = file
  | G_read f _ cs => f = file /\ whole_state cs
  | G_compress f _ cs => f = file /\ whole_state cs
  | G_finished => True
  end.

(** The handler [h'] is [h] but for the checksum of the entry [e] of
    [file], which is as it was or a digest. *)
Definition checksum_only (h : LocalFileHandler) (file : string) (e : FileEntry)
    (h' : LocalFileHandler) : Prop :=
  (exists c, data h' = <[file := with_checksum c e]> (data h)
             /\ (c = checksum e \/ sha_hex c))
  /\ failed h' = failed h
  /\ local_destination h' = local_destination h.




(** The decimal digit [d]. *)
Definition dec_digit (d : Z) : ascii := pretty_N_char (Z.to_N d).

(** [x] in [n] decimal digits, with leading zeros: ['%0nd' % x]. *)
Fixpoint dec_fixed (n : nat) (x : Z) : string :=
  match n with
  | O => ""
  | S k => dec_fixed k (x / 10) +:+ String (dec_digit (x mod 10)) ""
  end.


(** The world after [mkdir] has made [p]. *)
Definition made (p : list string) (w : World) : World :=
  set_disk (<[p := true]> (disk w)) (emit (EvMkdir p) w).

(** The names of the four folders of a delivery. *)
Definition subfolders : list string := ["files"; "keys"; "meta"; "logs"].


(** What is on the disk stays, with its kind. *)
Definition keeps (w w' : World) : Prop :=
  disk w ⊆ disk w' /\ objects w' = objects w /\ buckets w' = buckets w
  /\ log w `prefix_of` log w'.

(** * A small file system and store

    Concrete values for the parameters, used to run the definitions. *)

Module Sample.

(** Ten bytes of text. *)
Definition a_txt : file := {| content := bytes_of_string "0123456789"; fault := None |}.

(** A gzip header followed by five bytes. *)
Definition b_tgz : file :=
  {| content := [x1f; x8b; x08; x00; x61; x62; x63; x64; x65]; fault := None |}.

(** The same bytes on a medium that fails at the second [read]. *)
Definition c_gz : file :=
  {| content := [x1f; x8b; x08; x00; x61; x62; x63; x64; x65]; fault := Some 1%nat |}.

Definition fs : node :=
  Dir (entry "data"
         (Dir (entry "a.txt" (File a_txt)
              (entry "b.tar.gz" (File b_tgz)
              (entry "c.gz" (File c_gz)
              (entry "run1" (Dir (entry "reads.fastq.gz" (File b_tgz) no_entries))
               no_entries)))))
       no_entries).

(** Detection by the two magic bytes of gzip. *)
Definition is_compressed (_ : Path) (f : file) : bool * string :=
  match content f with
  | x1f :: x8b :: _ => (true, "")
  | _ => (false, "")
  end.

Definition uuid4 (n : nat) : Z :=
  ((0xabcdef0123456789abcdef0123456789 + Z.of_nat n * 2 ^ 104) mod 2 ^ 128)%Z.

(** Paths are relative to [/data]. *)
Definition resolve (x : string) : option Path :=
  let p := pathlib.of_string "/data" // pathlib.of_string x in
  match node_at fs (parts p) with
  | Some _ => Some p
  | None => None
  end.

Definition dest : Path := pathlib.of_string "/tmp/dds".

Definition a_entry : FileEntry :=
  {| path_raw := pathlib.of_string "/data/a.txt";
     subpath := Path_empty;
     size_raw := 10;
     compressed := false;
     path_processed := pathlib.of_string "/tmp/dds/a.txt.zst.ccp";
     size_processed := 0;
     path_remote := "abcdef_a.txt.zst.ccp";
     overwrite := false;
     checksum := "" |}.

Definition a_handler : LocalFileHandler :=
  {| local_destination := dest; data := {[ "a.txt" := a_entry ]}; failed := ∅ |}.

Definition b_entry : FileEntry :=
  {| path_raw := pathlib.of_string "/data/b.tar.gz";
     subpath := Path_empty;
     size_raw := 9;
     compressed := true;
     path_processed := pathlib.of_string "/tmp/dds/b.tar.tar.gz.ccp";
     size_processed := 0;
     path_remote := "abcdef_b.tar.tar.gz.ccp";
     overwrite := false;
     checksum := "" |}.

Definition c_entry : FileEntry :=
  {| path_raw := pathlib.of_string "/data/c.gz";
     subpath := Path_empty;
     size_raw := 9;
     compressed := true;
     path_processed := pathlib.of_string "/tmp/dds/c.gz.ccp";
     size_processed := 0;
     path_remote := "abcdef_c.gz.ccp";
     overwrite := false;
     checksum := "" |}.

Definition handler : LocalFileHandler :=
  {| local_destination := dest;
     data := {[ "a.txt" := a_entry; "b.tar.gz" := b_entry; "c.gz" := c_entry ]};
     failed := ∅ |}.

(** A stand-in for the compressor: a header chunk, then the bytes. *)
Definition compress_file (root : node) (p : Path) : list bytes :=
  match node_at root (parts p) with
  | Some (File f) => [bytes_of_string "zst"; content f]
  | _ => []
  end.

(** The local disk and the object store of the sample. *)
Definition cwd : Path := pathlib.of_string "/home/u".

Definition stamp : string := "2021-03-04_05-06-07".

Definition world : World :=
  {| disk := {[ [] := true; ["home"] := true; ["home"; "u"] := true ]};
     buckets := ["project-1"];
     objects := ["run1/abcdef_reads.fastq.gz.ccp"; "run1/012345_notes.txt.zst.ccp"];
     log := [] |}.

Definition temp_dir : Path := temp_dir_of cwd stamp.

(** The third subfolder cannot be made. *)
Definition meta_refused (p : list string) : bool :=
  bool_decide (p = parts temp_dir ++ ["meta"]).

(** Nothing can be made in the working directory. *)
Definition all_refused (p : list string) : bool := true.

Definition none_refused {A : Type} (_ : A) : bool := false.

(** A stand-in for the check of the store: the keys that start with the
    key asked for. *)
Definition file_exists_in_bucket (keys : list string) (key : string) : bool * list string :=
  let found := List.filter (String.prefix key) keys in
  (negb (Nat.eqb (length found) 0), found).

Definition deliverer : DataDeliverer :=
  {| method := "get"; s3_bucket := "project-1"; tempdir := dirs_of temp_dir |}.

(** A deliverer whose project has no bucket. *)
Definition orphan : DataDeliverer :=
  {| method := "get"; s3_bucket := "project-2"; tempdir := dirs_of temp_dir |}.



(** The world once the temporary directories are made. *)
Definition ready : World :=
  made (parts temp_dir ++ ["logs"])
    (made (parts temp_dir ++ ["meta"])
       (made (parts temp_dir ++ ["keys"])
          (made (parts temp_dir ++ ["files"])
             (made (parts temp_dir) world)))).

(** A store with two keys at its top, before the same disk. *)
Definition flat : World := set_objects ["x1.bin"; "x2.bin"] ready.

(** A store with a key that starts at the root. *)
Definition rooted : World := set_objects ["/home/u/notes.txt"] ready.

End Sample.

(** * The definitions on small inputs *)

Example sha256_empty :
  hexdigest hashlib_sha256
  = "e3b0c44298fc1c149afbf4c8996fb92427ae41e4649b934ca495991b7852b855".
Proof. vm_compute. reflexivity. Qed.

Example sha256_abc :
  hexdigest (sha_update hashlib_sha256 (bytes_of_string "abc"))
  = "ba7816bf8f01cfea414140de5dae2223b00361a396177a9cb410ff61f20015ad".
Proof. vm_compute. reflexivity. Qed.

Example sha256_two_blocks :
  SHA256.hexdigest_of
    (bytes_of_string "abcdbcdecdefdefgefghfghighijhijkijkljklmklmnlmnomnopnopq")
  = "248d6a61d20638b8e5c026930c3e6039a33ce45964ff2167f6ecedd419db06c1".
Proof. vm_compute. reflexivity. Qed.

Example split_ab : PyStr.split "ab" "xabyab" = Some ["x"; "y"; ""].
Proof. reflexivity. Qed.

Example split_overlap : PyStr.split "aa" "aaa" = Some [""; "a"].
Proof. reflexivity. Qed.

Example strip_line : PyStr.strip "  a b
" = "a b".
Proof. reflexivity. Qed.

Example suffixes_targz : pathlib.suffixes "a.tar.gz" = [".tar"; ".gz"].
Proof. reflexivity. Qed.

Example suffix_targz : pathlib.suffix "a.tar.gz" = ".gz".
Proof. reflexivity. Qed.

Example stem_targz : pathlib.stem "a.tar.gz" = "a.tar".
Proof. reflexivity. Qed.

Example suffixes_hidden : pathlib.suffixes ".bashrc" = [].
Proof. reflexivity. Qed.

Example str_join :
  pathlib.str (Path_empty // pathlib.of_string "x.txt") = "x.txt".
Proof. reflexivity. Qed.

Example encrypted_name_txt :
  create_encrypted_name (pathlib.of_string "/tmp/dds") (pathlib.of_string "/home/u/a.txt")
    Path_empty false
  = Ok (pathlib.of_string "/tmp/dds/a.txt.zst.ccp").
Proof. reflexivity. Qed.

Example bucket_filepath_sub :
  generate_bucket_filepath 0xabcdef0123456789abcdef0123456789 "a.txt.zst.ccp"
    (pathlib.of_string "run1/lane2")
  = "run1/lane2/abcdef_a.txt.zst.ccp".
Proof. reflexivity. Qed.

Example bucket_filepath_top :
  generate_bucket_filepath 0x00cdef0123456789abcdef0123456789 "a.txt.zst.ccp" Path_empty
  = "00cdef_a.txt.zst.ccp".
Proof. reflexivity. Qed.

(** * Properties of the catalogue *)

Section CatalogueFacts.

Variable is_compressed : Path -> file -> bool * string.
Variable uuid4 : nat -> Z.
Variable fs : node.
Variable resolve : string -> option Path.

#[local] Abbreviation all_unfilled := (map_Forall (fun (_ : string) e => unfilled e)).

Lemma collect_file_unfilled dest folder path f file_info rng r :
  all_unfilled file_info ->
  collect_file is_compressed uuid4 dest folder path f file_info rng = Ok r ->
  all_unfilled r.1.
Proof.
  intros Hall. unfold collect_file.
  destruct (is_compressed path f) as [is_c error].
  destruct (negb (String.eqb error "")); [discriminate|].
  destruct (create_encrypted_name dest path folder is_c) as [pp| |]; simpl; try discriminate.
  intros [= <-]. simpl. apply map_Forall_insert_2; [|exact Hall].
  repeat split.
Qed.

Lemma collect_unfilled :
  (forall n dest folder path file_info rng r,
      all_unfilled file_info ->
      collect_path is_compressed uuid4 dest folder path n file_info rng = Ok r ->
      all_unfilled r.1)
  /\ (forall l dest folder parent file_info rng r,
         all_unfilled file_info ->
         collect_glob is_compressed uuid4 dest folder parent l file_info rng = Ok r ->
         all_unfilled r.1).
Proof.
  apply node_mutind.
  - intros f dest folder path file_info rng r Hall H. simpl in H.
    eapply collect_file_unfilled; eauto.
  - intros ch IH dest folder path file_info rng r Hall H. simpl in H.
    destruct (collect_glob _ _ _ _ _ ch ∅ rng) as [r0| |] eqn:E; simpl in H; try discriminate.
    injection H as <-. simpl.
    apply map_Forall_union_2; [|exact Hall].
    eapply IH; [|exact E]. apply map_Forall_empty.
  - intros dest folder path file_info rng r Hall [= <-]. exact Hall.
  - intros dest folder parent file_info rng r Hall [= <-]. exact Hall.
  - intros nm n IHn rest IHrest dest folder parent file_info rng r Hall H. simpl in H.
    destruct (collect_path _ _ _ _ _ n file_info rng) as [r0| |] eqn:E; simpl in H;
      try discriminate.
    eapply IHrest; [|exact H]. eapply IHn; eauto.
Qed.

Lemma collect_file_info_local_unfilled dest all_paths :
  forall file_info rng r,
    all_unfilled file_info ->
    collect_file_info_local is_compressed uuid4 fs dest all_paths file_info rng = Ok r ->
    all_unfilled r.1.
Proof.
  induction all_paths as [|path rest IH]; intros file_info rng r Hall H; simpl in H.
  - injection H as <-. exact Hall.
  - destruct (node_at fs (parts path)) as [n|].
    + destruct (collect_path _ _ _ _ _ n file_info rng) as [r0| |] eqn:E; simpl in H;
        try discriminate.
      eapply IH; [|exact H]. eapply (proj1 collect_unfilled); eauto.
    + simpl in H. eapply IH; eauto.
Qed.

(** C10. Every entry of the catalogue that [LocalFileHandler.__init__]
    builds has an empty checksum, [overwrite] false and [size_processed] 0:
    none of the three is filled in when the catalogue is built. *)
Theorem init_leaves_fields_unfilled data_list dest h key e :
  init is_compressed uuid4 fs resolve data_list dest = Ok h ->
  data h !! key = Some e ->
  checksum e = "" /\ overwrite e = false /\ size_processed e = 0%Z.
Proof.
  unfold init. intros H Hk.
  destruct (remove_dups (omap resolve data_list)) as [|p l]; [discriminate|].
  destruct (collect_file_info_local _ _ _ _ (p :: l) ∅ 0) as [r| |] eqn:E; simpl in H;
    try discriminate.
  injection H as <-. simpl in Hk.
  assert (Hall : all_unfilled r.1).
  { eapply collect_file_info_local_unfilled; [|exact E]. apply map_Forall_empty. }
  exact (Hall key e Hk).
Qed.

End CatalogueFacts.

(** The catalogue of the single file [a.txt]. *)
Lemma init_leaves_fields_unfilled_witness :
  init Sample.is_compressed Sample.uuid4 Sample.fs Sample.resolve ["a.txt"] Sample.dest
  = Ok Sample.a_handler
  /\ data Sample.a_handler !! "a.txt" = Some Sample.a_entry
  /\ checksum Sample.a_entry = "" /\ overwrite Sample.a_entry = false
  /\ size_processed Sample.a_entry = 0%Z.
Proof.
  assert (H1 : init Sample.is_compressed Sample.uuid4 Sample.fs Sample.resolve ["a.txt"]
                 Sample.dest = Ok Sample.a_handler) by (vm_compute; reflexivity).
  assert (H2 : data Sample.a_handler !! "a.txt" = Some Sample.a_entry)
    by (vm_compute; reflexivity).
  split; [exact H1|]. split; [exact H2|].
  exact (init_leaves_fields_unfilled _ _ _ _ _ _ _ _ _ H1 H2).
Defined.

(** * Properties of the status dictionary *)

Lemma status_step_spec existing_files overwrite_ok x st :
  is_Some (data st.1 !! x) ->
  exists st',
    status_step existing_files overwrite_ok x st = Ok st'
    /\ key_treated existing_files overwrite_ok x st st'
    /\ forall k, k ≠ x -> key_kept k st st'.
Proof.
  destruct st as [h sd]. intros [e He]. simpl in He.
  unfold status_step, key_treated, key_kept.
  destruct (existing_files !! x) as [r|] eqn:Ex; destruct overwrite_ok; simpl;
    rewrite ?He; simpl.
  all: eexists; split; [reflexivity|]; simpl.
  all: rewrite ?lookup_delete_eq, ?lookup_insert_eq.
  all: split; [done|]; intros k Hk.
  all: rewrite ?lookup_delete_ne, ?lookup_insert_ne by done; done.
Qed.

Lemma key_kept_trans k st1 st2 st3 :
  key_kept k st1 st2 -> key_kept k st2 st3 -> key_kept k st1 st3.
Proof. unfold key_kept. intros (?&?&?) (?&?&?). repeat split; congruence. Qed.

Lemma key_treated_kept existing_files overwrite_ok k st1 st2 st3 :
  key_treated existing_files overwrite_ok k st1 st2 -> key_kept k st2 st3 ->
  key_treated existing_files overwrite_ok k st1 st3.
Proof.
  unfold key_treated, key_kept. intros T (K1 & K2 & K3).
  destruct (existing_files !! k), overwrite_ok; destruct T as (T1 & T2 & T3);
    repeat split; congruence.
Qed.

Lemma key_kept_treated existing_files overwrite_ok k st1 st2 st3 :
  key_kept k st1 st2 -> key_treated existing_files overwrite_ok k st2 st3 ->
  key_treated existing_files overwrite_ok k st1 st3.
Proof.
  unfold key_treated, key_kept. intros (K1 & K2 & K3) T.
  destruct (existing_files !! k), overwrite_ok; destruct T as (T1 & T2 & T3);
    repeat split; congruence.
Qed.

(** The loop over keys that are all different and all in [self.data]
    returns, and treats each of its keys once. *)
Lemma status_loop_spec existing_files overwrite_ok keys :
  forall st,
    NoDup keys ->
    (forall k, k ∈ keys -> is_Some (data st.1 !! k)) ->
    exists st',
      status_loop existing_files overwrite_ok keys st = Ok st'
      /\ (forall k, k ∈ keys -> key_treated existing_files overwrite_ok k st st')
      /\ (forall k, k ∉ keys -> key_kept k st st').
Proof.
  induction keys as [|x rest IH]; intros st Hnd Hin.
  - exists st. split; [reflexivity|]. split.
    + intros k Hk. by apply not_elem_of_nil in Hk.
    + intros k _. by repeat split.
  - apply NoDup_cons in Hnd as [Hx Hnd].
    destruct (status_step_spec existing_files overwrite_ok x st) as (st1 & E1 & T1 & K1).
    { apply Hin. left. }
    destruct (IH st1 Hnd) as (st2 & E2 & T2 & K2).
    { intros k Hk. assert (k ≠ x) by (intros ->; done).
      destruct (K1 k) as (-> & _); [done|]. apply Hin. by right. }
    exists st2. split; [simpl; rewrite E1; exact E2|]. split.
    + intros k Hk. apply elem_of_cons in Hk as [->|Hk].
      * eapply key_treated_kept; [exact T1|]. by apply K2.
      * assert (k ≠ x) by (intros ->; done).
        eapply key_kept_treated; [by apply K1|]. by apply T2.
    + intros k Hk. apply not_elem_of_cons in Hk as [Hkx Hk].
      eapply key_kept_trans; [by apply K1|]. by apply K2.
Qed.

(** [create_upload_status_dict] returns, and at every key of [self.data]
    it leaves what the body of its loop leaves there. *)
Lemma create_upload_status_dict_spec h existing_files overwrite_ok :
  exists h' status_dict,
    create_upload_status_dict h existing_files overwrite_ok = Ok (h', status_dict)
    /\ (forall k, is_Some (data h !! k) ->
          key_treated existing_files overwrite_ok k (h, ∅) (h', status_dict))
    /\ (forall k, data h !! k = None -> key_kept k (h, ∅) (h', status_dict)).
Proof.
  unfold create_upload_status_dict.
  destruct (status_loop_spec existing_files overwrite_ok (map_to_list (data h)).*1 (h, ∅))
    as ([h' sd] & E & T & K).
  - apply NoDup_fst_map_to_list.
  - intros k Hk. simpl. apply list_elem_of_fmap in Hk as ([k' e] & -> & Hk).
    apply elem_of_map_to_list in Hk. eauto.
  - exists h', sd. split; [exact E|]. split.
    + intros k [e He]. apply T. apply list_elem_of_fmap. exists (k, e). split; [done|].
      by apply elem_of_map_to_list.
    + intros k Hk. apply K. intros Hin.
      apply list_elem_of_fmap in Hin as ([k' e] & -> & Hin).
      apply elem_of_map_to_list in Hin. simpl in Hk. congruence.
Qed.

(** C4, as the code has it. For a key of the catalogue that the check
    reports as existing remotely, [create_upload_status_dict] called without
    [overwrite] returns and has put the entry into [self.failed] with the
    message "File already uploaded", removed the key from [self.data] and
    created no status entry for it. *)
Theorem existing_key_marked_failed h existing_files x e r :
  data h !! x = Some e ->
  existing_files !! x = Some r ->
  exists h' status_dict,
    create_upload_status_dict h existing_files false = Ok (h', status_dict)
    /\ failed h' !! x
       = Some {| failed_info := e; failed_message := "File already uploaded" |}
    /\ data h' !! x = None
    /\ status_dict !! x = None.
Proof.
  intros He Hr.
  destruct (create_upload_status_dict_spec h existing_files false) as (h' & sd & E & T & _).
  exists h', sd. split; [exact E|].
  specialize (T x (ex_intro _ e He)). unfold key_treated in T. rewrite Hr in T. simpl in T.
  destruct T as (T1 & T2 & T3). rewrite He in T2. rewrite lookup_empty in T3. done.
Qed.

Lemma existing_key_marked_failed_witness :
  data Sample.a_handler !! "a.txt" = Some Sample.a_entry
  /\ ({[ "a.txt" := "old_key" ]} : gmap string string) !! "a.txt" = Some "old_key"
  /\ exists h' status_dict,
      create_upload_status_dict Sample.a_handler {[ "a.txt" := "old_key" ]} false
      = Ok (h', status_dict)
      /\ failed h' !! "a.txt"
         = Some {| failed_info := Sample.a_entry;
                   failed_message := "File already uploaded" |}
      /\ data h' !! "a.txt" = None
      /\ status_dict !! "a.txt" = None.
Proof.
  assert (H1 : data Sample.a_handler !! "a.txt" = Some Sample.a_entry)
    by (vm_compute; reflexivity).
  assert (H2 : ({[ "a.txt" := "old_key" ]} : gmap string string) !! "a.txt" = Some "old_key")
    by (vm_compute; reflexivity).
  split; [exact H1|]. split; [exact H2|].
  exact (existing_key_marked_failed _ _ _ _ _ H1 H2).
Defined.

(** The message of the failed entry is not the text "already delivered":
    for the catalogue of [a.txt] and the answer [{"a.txt": "old_key"}], the
    entry is failed with "File already uploaded". *)
Lemma failed_message_is_not_already_delivered :
  match create_upload_status_dict Sample.a_handler {[ "a.txt" := "old_key" ]} false with
  | Ok (h', _) =>
      failed_message <$> failed h' !! "a.txt" = Some "File already uploaded"
      /\ failed_message <$> failed h' !! "a.txt" ≠ Some "already delivered"
  | _ => False
  end.
Proof. vm_compute. split; [reflexivity|discriminate]. Qed.

(** C5. For a key of the catalogue that the check reports as existing
    remotely, [create_upload_status_dict] called with [overwrite] returns
    and has set the [overwrite] flag of the entry and replaced its
    [path_remote] by the remote path the check returned; nothing else of
    the entry changes, and the key gets its status entry. *)
Theorem existing_key_overwritten h existing_files x e r :
  data h !! x = Some e ->
  existing_files !! x = Some r ->
  exists h' status_dict e',
    create_upload_status_dict h existing_files true = Ok (h', status_dict)
    /\ data h' !! x = Some e'
    /\ overwrite e' = true
    /\ path_remote e' = r
    /\ e' = with_overwrite r e
    /\ failed h' !! x = failed h !! x
    /\ status_dict !! x = Some initial_status.
Proof.
  intros He Hr.
  destruct (create_upload_status_dict_spec h existing_files true) as (h' & sd & E & T & _).
  exists h', sd, (with_overwrite r e). split; [exact E|].
  specialize (T x (ex_intro _ e He)). unfold key_treated in T. rewrite Hr in T. simpl in T.
  destruct T as (T1 & T2 & T3). rewrite He in T1. done.
Qed.

Lemma existing_key_overwritten_witness :
  data Sample.a_handler !! "a.txt" = Some Sample.a_entry
  /\ ({[ "a.txt" := "old_key" ]} : gmap string string) !! "a.txt" = Some "old_key"
  /\ exists h' status_dict e',
      create_upload_status_dict Sample.a_handler {[ "a.txt" := "old_key" ]} true
      = Ok (h', status_dict)
      /\ data h' !! "a.txt" = Some e'
      /\ overwrite e' = true
      /\ path_remote e' = "old_key"
      /\ e' = with_overwrite "old_key" Sample.a_entry
      /\ failed h' !! "a.txt" = failed Sample.a_handler !! "a.txt"
      /\ status_dict !! "a.txt" = Some initial_status.
Proof.
  assert (H1 : data Sample.a_handler !! "a.txt" = Some Sample.a_entry)
    by (vm_compute; reflexivity).
  assert (H2 : ({[ "a.txt" := "old_key" ]} : gmap string string) !! "a.txt" = Some "old_key")
    by (vm_compute; reflexivity).
  split; [exact H1|]. split; [exact H2|].
  exact (existing_key_overwritten _ _ _ _ _ H1 H2).
Defined.

(** Without the check reporting it, a key keeps its entry and the remote
    path generated for it. *)
Lemma new_key_kept h existing_files overwrite_ok x e :
  data h !! x = Some e ->
  existing_files !! x = None ->
  exists h' status_dict,
    create_upload_status_dict h existing_files overwrite_ok = Ok (h', status_dict)
    /\ data h' !! x = Some e
    /\ status_dict !! x = Some initial_status.
Proof.
  intros He Hr.
  destruct (create_upload_status_dict_spec h existing_files overwrite_ok)
    as (h' & sd & E & T & _).
  exists h', sd. split; [exact E|].
  specialize (T x (ex_intro _ e He)). unfold key_treated in T. rewrite Hr in T. simpl in T.
  destruct T as (T1 & T2 & T3). rewrite He in T1. done.
Qed.

(** * Properties of the hash object *)

Lemma blocks_app n :
  forall k h a b,
    length a = 64 * n ->
    SHA256.blocks (n + k) h (a ++ b) = SHA256.blocks k (SHA256.blocks n h a) b.
Proof.
  induction n as [|n IH]; intros k h a b Hlen.
  - destruct a; [done|simpl in Hlen; lia].
  - simpl. rewrite firstn_app, skipn_app.
    replace (64 - length a) with 0 by lia. rewrite firstn_O, skipn_O, app_nil_r.
    apply IH. rewrite length_skipn. lia.
Qed.

(** Only the whole blocks count. *)
Lemma blocks_whole n h l :
  64 * n <= length l ->
  SHA256.blocks n h (firstn (64 * n) l) = SHA256.blocks n h l.
Proof.
  intros Hlen. rewrite <- (firstn_skipn (64 * n) l) at 2.
  rewrite <- (Nat.add_0_r n) at 3. rewrite blocks_app; [done|].
  rewrite length_firstn. lia.
Qed.

Lemma sha_update_between h chunk : between_calls (sha_update h chunk).
Proof.
  unfold between_calls, sha_update. cbn [pending]. rewrite length_skipn.
  set (n := length (pending h ++ map byte_to_Z chunk)).
  pose proof (Nat.div_mod_eq n 64). pose proof (Nat.mod_upper_bound n 64). lia.
Qed.

Lemma sha_update_nil h : between_calls h -> sha_update h [] = h.
Proof.
  unfold between_calls, sha_update. intros Hlt. cbn [map length].
  rewrite app_nil_r, Nat.add_0_r, Nat.div_small by done.
  rewrite Nat.mul_0_r. cbn [SHA256.blocks skipn]. by destruct h.
Qed.

(** [h.update(a); h.update(b)] is [h.update(a + b)]. *)
Lemma sha_update_app h a b :
  sha_update (sha_update h a) b = sha_update h (a ++ b).
Proof.
  unfold sha_update. cbn [pending chaining fed].
  set (all1 := pending h ++ map byte_to_Z a).
  set (k1 := length all1 / 64).
  set (all2 := skipn (64 * k1) all1 ++ map byte_to_Z b).
  set (k2 := length all2 / 64).
  assert (Hk1 : 64 * k1 <= length all1).
  { subst k1. pose proof (Nat.div_mod_eq (length all1) 64). lia. }
  assert (Hall : pending h ++ map byte_to_Z (a ++ b) = firstn (64 * k1) all1 ++ all2).
  { subst all2. rewrite app_assoc, firstn_skipn. subst all1.
    by rewrite map_app, app_assoc. }
  assert (Hlen : length (firstn (64 * k1) all1) = 64 * k1)
    by (rewrite length_firstn; lia).
  assert (Hk : length (firstn (64 * k1) all1 ++ all2) / 64 = k1 + k2).
  { rewrite length_app, Hlen. subst k2. rewrite Nat.mul_comm. apply Nat.div_add_l. lia. }
  rewrite Hall, Hk. f_equal.
  - rewrite blocks_app by done. by rewrite blocks_whole.
  - rewrite skipn_app, Hlen.
    replace (64 * (k1 + k2) - 64 * k1) with (64 * k2) by lia.
    rewrite (skipn_all2 (take (64 * k1) all1)) by (rewrite Hlen; lia). done.
  - rewrite length_app. lia.
Qed.

(** The checksum after a loop of updates is that after one update with the
    concatenation. *)
Lemma fold_update chunks :
  forall cs, between_calls cs ->
             fold_left sha_update chunks cs = sha_update cs (concat chunks).
Proof.
  induction chunks as [|c chunks IH]; intros cs Hcs; simpl.
  - by rewrite sha_update_nil.
  - rewrite IH by apply sha_update_between. apply sha_update_app.
Qed.

(** The digest of the object that was fed a message is the digest of the
    message computed in one pass. *)
Lemma hexdigest_one_pass msg :
  hexdigest (sha_update hashlib_sha256 msg) = SHA256.hexdigest_of msg.
Proof.
  unfold hexdigest, sha_update, hashlib_sha256, SHA256.hexdigest_of, SHA256.digest_words,
    SHA256.pad. cbn [pending chaining fed]. rewrite length_map, app_nil_l, Nat.add_0_l.
  set (m := map byte_to_Z msg). set (k := length m / 64).
  set (tl := SHA256.padding (length msg)).
  assert (Hk : 64 * k <= length m).
  { subst k. pose proof (Nat.div_mod_eq (length m) 64). lia. }
  assert (Hlen : length (firstn (64 * k) m) = 64 * k) by (rewrite length_firstn; lia).
  f_equal.
  assert (Hm : m ++ tl = firstn (64 * k) m ++ skipn (64 * k) m ++ tl)
    by (by rewrite app_assoc, firstn_skipn).
  assert (Hd : length (firstn (64 * k) m ++ skipn (64 * k) m ++ tl) / 64
               = k + length (skipn (64 * k) m ++ tl) / 64).
  { rewrite length_app, Hlen. rewrite Nat.mul_comm. apply Nat.div_add_l. lia. }
  rewrite Hm, Hd, blocks_app by done. by rewrite blocks_whole.
Qed.

(** * Properties of the streaming generator *)

Section StreamingFacts.

Variable SEGMENT_SIZE_RAW : nat.
Variable compress_file : node -> Path -> list bytes.
Variable fs : node.

#[local] Abbreviation Read_step := (read_step SEGMENT_SIZE_RAW).
#[local] Abbreviation Read_next := (read_next SEGMENT_SIZE_RAW fs).
#[local] Abbreviation Read_loop := (read_loop SEGMENT_SIZE_RAW fs).
#[local] Abbreviation Read_all := (read_all SEGMENT_SIZE_RAW fs).
#[local] Abbreviation Stream_next := (stream_next SEGMENT_SIZE_RAW compress_file fs).
#[local] Abbreviation Stream_nexts := (stream_nexts SEGMENT_SIZE_RAW compress_file fs).

(** A chunk that [read] returns is not empty and takes its bytes from the
    front of what is left. *)
Lemma read_step_yield rest k flt chunk r ev :
  Read_step rest k flt = (Some chunk, r, ev) ->
  chunk ≠ [] /\ chunk = take SEGMENT_SIZE_RAW rest
  /\ r = R_open (drop SEGMENT_SIZE_RAW rest) (S k) flt /\ ev = []
  /\ length (drop SEGMENT_SIZE_RAW rest) < length rest.
Proof.
  unfold read_step. case_bool_decide; [discriminate|].
  destruct (firstn SEGMENT_SIZE_RAW rest) as [|b c] eqn:E; [discriminate|].
  intros [= <- <- <-]. repeat split; try done.
  assert (Hl : length (firstn SEGMENT_SIZE_RAW rest) = S (length c)) by (by rewrite E).
  rewrite length_firstn in Hl. rewrite length_skipn. lia.
Qed.

Lemma read_step_all rest k :
  0 < SEGMENT_SIZE_RAW ->
  Read_step rest k None
  = match rest with
    | [] => (None, R_closed, [])
    | _ => (Some (take SEGMENT_SIZE_RAW rest),
            R_open (drop SEGMENT_SIZE_RAW rest) (S k) None, [])
    end.
Proof.
  intros Hn. unfold read_step. rewrite bool_decide_eq_false_2 by discriminate.
  destruct rest as [|b rest]; [by destruct SEGMENT_SIZE_RAW|].
  destruct SEGMENT_SIZE_RAW as [|n]; [lia|]. reflexivity.
Qed.

(** Past the length of what is left, more fuel changes nothing: the loop
    over [read_file] has reached the end of the generator. *)
Lemma read_loop_enough fuel :
  forall fuel' rest k flt,
    length rest < fuel -> fuel <= fuel' ->
    Read_loop fuel' (R_open rest k flt) = Read_loop fuel (R_open rest k flt).
Proof.
  induction fuel as [|fuel IH]; intros fuel' rest k flt Hlen Hle; [lia|].
  destruct fuel' as [|fuel']; [lia|]. simpl.
  destruct (Read_step rest k flt) as [[[chunk|] r] ev] eqn:E; [|reflexivity].
  apply read_step_yield in E as (_ & _ & -> & -> & Hlt).
  rewrite (IH fuel') by lia. reflexivity.
Qed.

(** A file read without a fault comes back whole, in order. *)
Lemma read_loop_whole fuel :
  forall rest k,
    0 < SEGMENT_SIZE_RAW -> length rest < fuel ->
    exists chunks,
      Read_loop fuel (R_open rest k None) = (chunks, []) /\ concat chunks = rest.
Proof.
  induction fuel as [|fuel IH]; intros rest k Hn Hlen; [lia|].
  simpl. rewrite read_step_all by done.
  destruct rest as [|b rest]; [by exists []|].
  destruct (IH (drop SEGMENT_SIZE_RAW (b :: rest)) (S k) Hn) as (chunks & E & Hc).
  { rewrite length_skipn. simpl in *. lia. }
  exists (take SEGMENT_SIZE_RAW (b :: rest) :: chunks). rewrite E. split; [done|].
  simpl concat. rewrite Hc. apply firstn_skipn.
Qed.

Lemma read_all_whole p f :
  0 < SEGMENT_SIZE_RAW ->
  node_at fs (parts p) = Some (File f) -> fault f = None ->
  exists chunks, Read_all (R_new p) = (chunks, [EvReadFile p]) /\ concat chunks = content f.
Proof.
  intros Hn Hf Hflt. unfold read_all, read_fuel. rewrite Hf. simpl. rewrite Hf, Hflt.
  rewrite read_step_all by done.
  destruct (content f) as [|b rest] eqn:Ec; [by exists []|].
  destruct (read_loop_whole (length (b :: rest)) (drop SEGMENT_SIZE_RAW (b :: rest)) 1 Hn)
    as (chunks & E & Hc).
  { rewrite length_skipn. simpl. lia. }
  exists (take SEGMENT_SIZE_RAW (b :: rest) :: chunks). rewrite E. split; [done|].
  simpl concat. rewrite Hc. apply firstn_skipn.
Qed.

Lemma signals_S j h g :
  signals (Stream_nexts (S j) h g)
  = sig (Stream_next h g)
    :: signals (Stream_nexts j (handler_after (Stream_next h g)) (gen_after (Stream_next h g))).
Proof. reflexivity. Qed.

Lemma final_handler_S j h g :
  final_handler (Stream_nexts (S j) h g)
  = final_handler (Stream_nexts j (handler_after (Stream_next h g))
                     (gen_after (Stream_next h g))).
Proof. reflexivity. Qed.

Lemma final_gen_S j h g :
  final_gen (Stream_nexts (S j) h g)
  = final_gen (Stream_nexts j (handler_after (Stream_next h g)) (gen_after (Stream_next h g))).
Proof. reflexivity. Qed.

Lemma run_events_S j h g :
  run_events (Stream_nexts (S j) h g)
  = events (Stream_next h g)
    ++ run_events (Stream_nexts j (handler_after (Stream_next h g))
                     (gen_after (Stream_next h g))).
Proof. reflexivity. Qed.

(** The branch for compressed files, from any point of the loop over a
    file without fault: it yields the rest of the file in chunks, leaves
    the handler alone until [next] is called after the last chunk, and
    then writes the checksum of all the bytes fed to it. *)
Lemma read_branch_run m :
  forall rest k cs h file e,
    length rest <= m ->
    0 < SEGMENT_SIZE_RAW ->
    between_calls cs ->
    data h !! file = Some e ->
    exists chunks,
      concat chunks = rest
      /\ (forall j, j <= length chunks ->
            let r := Stream_nexts j h (G_read file (R_open rest k None) cs) in
            signals r = map Yield (take j chunks) /\ final_handler r = h)
      /\ (let r := Stream_nexts (S (length chunks)) h (G_read file (R_open rest k None) cs) in
          signals r = map Yield chunks ++ [StopIteration]
          /\ final_handler r = checksum_written h file e (sha_update cs rest)
          /\ final_gen r = G_finished
          /\ run_events r = []).
Proof.
  assert (Hempty : forall k cs h file e,
    0 < SEGMENT_SIZE_RAW -> between_calls cs -> data h !! file = Some e ->
    exists chunks : list bytes,
      concat chunks = []
      /\ (forall j, j <= length chunks ->
            let r := Stream_nexts j h (G_read file (R_open [] k None) cs) in
            signals r = map Yield (take j chunks) /\ final_handler r = h)
      /\ (let r := Stream_nexts (S (length chunks)) h (G_read file (R_open [] k None) cs) in
          signals r = map Yield chunks ++ [StopIteration]
          /\ final_handler r = checksum_written h file e (sha_update cs [])
          /\ final_gen r = G_finished
          /\ run_events r = [])).
  { intros k cs h file e Hn Hcs He. exists []. split; [done|]. split.
    - intros j Hj. simpl in Hj. assert (j = 0) as -> by lia. done.
    - rewrite sha_update_nil by done. simpl. unfold read_branch. simpl.
      rewrite read_step_all by done. unfold finish. rewrite He. done. }
  induction m as [|m IH]; intros rest k cs h file e Hlen Hn Hcs He.
  - destruct rest; [|simpl in Hlen; lia]. by apply Hempty.
  - destruct rest as [|b rest]; [by apply Hempty|].
    set (c := take SEGMENT_SIZE_RAW (b :: rest)).
    set (rest' := drop SEGMENT_SIZE_RAW (b :: rest)).
    destruct (IH rest' (S k) (sha_update cs c) h file e) as (chunks & Hc & Hpre & Hend);
      [subst rest'; rewrite length_skipn; simpl in *; lia|done
      |apply sha_update_between|done|].
    assert (Hstep : Stream_next h (G_read file (R_open (b :: rest) k None) cs)
                    = {| sig := Yield c; handler_after := h;
                         gen_after := G_read file (R_open rest' (S k) None) (sha_update cs c);
                         events := [] |}).
    { simpl. unfold read_branch. simpl. rewrite read_step_all by done. done. }
    exists (c :: chunks). split; [|split].
    + simpl. rewrite Hc. apply firstn_skipn.
    + intros [|j] Hj; [done|]. simpl in Hj.
      destruct (Hpre j) as [Hs Hh]; [lia|]. cbv zeta.
      rewrite signals_S, final_handler_S, Hstep. simpl sig. simpl handler_after.
      simpl gen_after. rewrite Hs, Hh. done.
    + destruct Hend as (Hs & Hh & Hg & Hev). cbv zeta. simpl length.
      rewrite (signals_S (S (length chunks))), (final_handler_S (S (length chunks))),
        (final_gen_S (S (length chunks))), (run_events_S (S (length chunks))), Hstep.
      simpl sig. simpl handler_after. simpl gen_after. simpl events.
      rewrite Hs, Hh, Hg, Hev. repeat split; try done.
      rewrite sha_update_app. subst c rest'. by rewrite firstn_skipn.
Qed.

(** The first [next] opens the file; from there the generator is the loop
    of the branch at the start of the file. *)
Lemma stream_next_new h file e f :
  data h !! file = Some e ->
  compressed e = true ->
  node_at fs (parts (path_raw e)) = Some (File f) ->
  let s := Stream_next h (G_new file) in
  let s' := Stream_next h (G_read file (R_open (content f) 0 (fault f)) hashlib_sha256) in
  sig s = sig s' /\ handler_after s = handler_after s' /\ gen_after s = gen_after s'
  /\ events s = EvReadFile (path_raw e) :: events s'.
Proof.
  intros He Hc Hf. simpl. rewrite He, Hc. unfold read_branch. simpl. rewrite Hf.
  destruct (read_step SEGMENT_SIZE_RAW (content f) 0 (fault f)) as [[[c|] r] ev];
    simpl; [done|].
  unfold finish. rewrite He. done.
Qed.

Lemma stream_nexts_new h file e f j :
  data h !! file = Some e ->
  compressed e = true ->
  node_at fs (parts (path_raw e)) = Some (File f) ->
  let r := Stream_nexts j h (G_new file) in
  let r' := Stream_nexts j h (G_read file (R_open (content f) 0 (fault f)) hashlib_sha256) in
  signals r = signals r' /\ final_handler r = final_handler r'
  /\ (0 < j -> final_gen r = final_gen r'
               /\ run_events r = EvReadFile (path_raw e) :: run_events r').
Proof.
  intros He Hc Hf. destruct j as [|j]; [by split; [|split; [|lia]]|].
  destruct (stream_next_new h file e f He Hc Hf) as (Hs & Hh & Hg & Hev). cbv zeta.
  rewrite !signals_S, !final_handler_S, !final_gen_S, !run_events_S, Hs, Hh, Hg, Hev.
  done.
Qed.

(** C1. For a file whose entry has [compressed = True] and that is read
    without error, [stream_from_file] yields the file in chunks, in order;
    as long as [next] has not been called after the last chunk the handler
    is as it was, so the checksum of the entry is what it was before (empty
    after the catalogue is built); the call of [next] that exhausts the
    generator writes the hexadecimal SHA-256 digest of the whole file, as
    one pass over all its bytes gives it. *)
Theorem compressed_stream_checksum h file e f :
  0 < SEGMENT_SIZE_RAW ->
  data h !! file = Some e ->
  compressed e = true ->
  node_at fs (parts (path_raw e)) = Some (File f) ->
  fault f = None ->
  exists chunks,
    concat chunks = content f
    /\ (forall j, j <= length chunks ->
          let r := Stream_nexts j h (G_new file) in
          signals r = map Yield (take j chunks)
          /\ final_handler r = h
          /\ checksum <$> data (final_handler r) !! file = Some (checksum e))
    /\ (let r := Stream_nexts (S (length chunks)) h (G_new file) in
        signals r = map Yield chunks ++ [StopIteration]
        /\ final_gen r = G_finished
        /\ data (final_handler r)
           = <[file := with_checksum (SHA256.hexdigest_of (content f)) e]> (data h)
        /\ checksum <$> data (final_handler r) !! file
           = Some (SHA256.hexdigest_of (content f))).
Proof.
  intros Hn He Hc Hf Hflt.
  destruct (read_branch_run (length (content f)) (content f) 0 hashlib_sha256 h file e)
    as (chunks & Hcat & Hpre & Hend); [done|done|unfold between_calls; simpl; lia|done|].
  exists chunks. split; [done|]. split.
  - intros j Hj. cbv zeta.
    destruct (stream_nexts_new h file e f j He Hc Hf) as (Hs & Hh & _).
    rewrite Hflt in Hs, Hh. destruct (Hpre j Hj) as [Hs' Hh'].
    rewrite Hs, Hh, Hs', Hh', He. done.
  - cbv zeta.
    destruct (stream_nexts_new h file e f (S (length chunks)) He Hc Hf) as (Hs & Hh & Hg).
    destruct Hg as [Hg _]; [lia|].
    rewrite Hflt in Hs, Hh, Hg. destruct Hend as (Hs' & Hh' & Hg' & _).
    rewrite Hs, Hh, Hg, Hs', Hh', Hg'. unfold checksum_written.
    rewrite hexdigest_one_pass. cbn [data set_data].
    rewrite lookup_insert_eq. done.
Qed.

(** The loop over the chunks of [compress_file], from any point. *)
Lemma compress_branch_run rest :
  forall cs h file e,
    data h !! file = Some e ->
    (forall j, j <= length rest ->
       let r := Stream_nexts j h (G_compress file rest cs) in
       signals r = map Yield (take j rest) /\ final_handler r = h)
    /\ (let r := Stream_nexts (S (length rest)) h (G_compress file rest cs) in
        signals r = map Yield rest ++ [StopIteration]
        /\ final_handler r = checksum_written h file e cs
        /\ final_gen r = G_finished
        /\ run_events r = []).
Proof.
  induction rest as [|c rest IH]; intros cs h file e He.
  - split.
    + intros j Hj. simpl in Hj. assert (j = 0) as -> by lia. done.
    + simpl. unfold finish. rewrite He. done.
  - destruct (IH cs h file e He) as [Hpre Hend]. split.
    + intros [|j] Hj; [done|]. simpl in Hj. destruct (Hpre j) as [Hs Hh]; [lia|].
      cbv zeta. rewrite signals_S, final_handler_S. simpl sig. simpl handler_after.
      simpl gen_after. rewrite Hs, Hh. done.
    + destruct Hend as (Hs & Hh & Hg & Hev). cbv zeta. simpl length.
      rewrite (signals_S (S (length rest))), (final_handler_S (S (length rest))),
        (final_gen_S (S (length rest))), (run_events_S (S (length rest))).
      simpl sig. simpl handler_after. simpl gen_after. simpl events.
      rewrite Hs, Hh, Hg, Hev. done.
Qed.

Lemma stream_next_new_uncompressed h file e :
  data h !! file = Some e ->
  compressed e = false ->
  let cs := fold_left sha_update (Read_all (R_new (path_raw e))).1 hashlib_sha256 in
  let s := Stream_next h (G_new file) in
  let s' := Stream_next h (G_compress file (compress_file fs (path_raw e)) cs) in
  sig s = sig s' /\ handler_after s = handler_after s' /\ gen_after s = gen_after s'
  /\ events s = (Read_all (R_new (path_raw e))).2 ++ [EvCompressFile (path_raw e)]
  /\ events s' = [].
Proof.
  intros He Hc. simpl. rewrite He, Hc.
  destruct (Read_all (R_new (path_raw e))) as [raw ev]. simpl.
  destruct (compress_file fs (path_raw e)) as [|c out]; simpl; [|done].
  unfold finish. rewrite He. done.
Qed.

(** C2. For a file whose entry has [compressed = False],
    [stream_from_file] first runs a whole loop over [read_file] of the raw
    file, feeding the checksum and yielding nothing, and then hands the
    same path to [compress_file] and yields the chunks that gives: the raw
    file is taken twice. The checksum written when the generator is
    exhausted is that of the bytes of the first loop (the content of the
    file where it is read without error) and owes nothing to the chunks
    yielded. *)
Theorem uncompressed_stream_checksum h file e :
  data h !! file = Some e ->
  compressed e = false ->
  let p := path_raw e in
  let raw := (Read_all (R_new p)).1 in
  let out := compress_file fs p in
  events (Stream_next h (G_new file)) = (Read_all (R_new p)).2 ++ [EvCompressFile p]
  /\ (forall j, j <= length out ->
        let r := Stream_nexts j h (G_new file) in
        signals r = map Yield (take j out) /\ final_handler r = h)
  /\ (let r := Stream_nexts (S (length out)) h (G_new file) in
      signals r = map Yield out ++ [StopIteration]
      /\ final_gen r = G_finished
      /\ data (final_handler r)
         = <[file := with_checksum (SHA256.hexdigest_of (concat raw)) e]> (data h)
      /\ run_events r = (Read_all (R_new p)).2 ++ [EvCompressFile p])
  /\ (0 < SEGMENT_SIZE_RAW ->
      forall f, node_at fs (parts p) = Some (File f) -> fault f = None ->
                concat raw = content f /\ (Read_all (R_new p)).2 = [EvReadFile p]).
Proof.
  intros He Hc p raw out.
  destruct (stream_next_new_uncompressed h file e He Hc) as (Hs & Hh & Hg & Hev & Hev').
  fold p in Hs, Hh, Hg, Hev, Hev'. fold raw in Hs, Hh, Hg, Hev'. fold out in Hs, Hh, Hg, Hev'.
  set (cs := fold_left sha_update raw hashlib_sha256) in *.
  destruct (compress_branch_run out cs h file e He) as [Hpre Hend].
  split; [exact Hev|]. split; [|split].
  - intros [|j] Hj; [done|]. cbv zeta. destruct (Hpre (S j) Hj) as [Hs' Hh'].
    rewrite signals_S, final_handler_S in *. rewrite Hs, Hh, Hg. done.
  - cbv zeta. destruct Hend as (Hs' & Hh' & Hg' & Hev'').
    rewrite signals_S, final_handler_S, final_gen_S, run_events_S in *.
    rewrite Hev' in Hev''. rewrite app_nil_l in Hev''.
    rewrite Hs, Hh, Hg, Hev, Hs', Hh', Hg', Hev''. rewrite app_nil_r.
    repeat split; try done. unfold checksum_written. cbn [data set_data]. subst cs.
    rewrite fold_update; [by rewrite hexdigest_one_pass|].
    unfold between_calls. simpl. lia.
  - intros Hn f Hf Hflt. subst raw.
    destruct (read_all_whole p f Hn Hf Hflt) as (chunks & -> & Hcat). done.
Qed.

End StreamingFacts.

(** The file [b.tar.gz] of the sample, read four bytes at a time. *)
Lemma compressed_stream_checksum_witness :
  0 < 4
  /\ data Sample.handler !! "b.tar.gz" = Some Sample.b_entry
  /\ compressed Sample.b_entry = true
  /\ node_at Sample.fs (parts (path_raw Sample.b_entry)) = Some (File Sample.b_tgz)
  /\ fault Sample.b_tgz = None
  /\ exists chunks,
      concat chunks = content Sample.b_tgz
      /\ checksum <$> data (final_handler
                            (stream_nexts 4 Sample.compress_file Sample.fs
                               (S (length chunks)) Sample.handler (G_new "b.tar.gz")))
                    !! "b.tar.gz"
         = Some (SHA256.hexdigest_of (content Sample.b_tgz)).
Proof.
  assert (H0 : 0 < 4) by lia.
  assert (H1 : data Sample.handler !! "b.tar.gz" = Some Sample.b_entry)
    by (vm_compute; reflexivity).
  assert (H2 : compressed Sample.b_entry = true) by reflexivity.
  assert (H3 : node_at Sample.fs (parts (path_raw Sample.b_entry))
               = Some (File Sample.b_tgz)) by reflexivity.
  assert (H4 : fault Sample.b_tgz = None) by reflexivity.
  split; [exact H0|]. split; [exact H1|]. split; [exact H2|]. split; [exact H3|].
  split; [exact H4|].
  destruct (compressed_stream_checksum 4 Sample.compress_file Sample.fs Sample.handler
              "b.tar.gz" Sample.b_entry Sample.b_tgz H0 H1 H2 H3 H4)
    as (chunks & Hcat & _ & _ & _ & _ & Hsum).
  exists chunks. split; [exact Hcat|exact Hsum].
Defined.

(** The file [a.txt] of the sample. *)
Lemma uncompressed_stream_checksum_witness :
  data Sample.handler !! "a.txt" = Some Sample.a_entry
  /\ compressed Sample.a_entry = false
  /\ data (final_handler
            (stream_nexts 4 Sample.compress_file Sample.fs
               (S (length (Sample.compress_file Sample.fs (path_raw Sample.a_entry))))
               Sample.handler (G_new "a.txt")))
     = <[ "a.txt" :=
            with_checksum
              (SHA256.hexdigest_of
                 (concat (read_all 4 Sample.fs (R_new (path_raw Sample.a_entry))).1))
              Sample.a_entry ]> (data Sample.handler).
Proof.
  assert (H1 : data Sample.handler !! "a.txt" = Some Sample.a_entry)
    by (vm_compute; reflexivity).
  assert (H2 : compressed Sample.a_entry = false) by reflexivity.
  split; [exact H1|]. split; [exact H2|].
  destruct (uncompressed_stream_checksum 4 Sample.compress_file Sample.fs Sample.handler
              "a.txt" Sample.a_entry H1 H2) as (_ & _ & (_ & _ & Hdata & _) & _).
  exact Hdata.
Defined.

(** The runs of the sample, computed. [b.tar.gz] is yielded as it is and
    its checksum is that of its nine bytes; of [a.txt] the chunks of the
    compressor are yielded and the checksum is that of the ten raw bytes. *)
Example stream_b_tar_gz :
  let r := stream_nexts 4 Sample.compress_file Sample.fs 4 Sample.handler (G_new "b.tar.gz") in
  signals r = [Yield [x1f; x8b; x08; x00]; Yield [x61; x62; x63; x64]; Yield [x65];
               StopIteration]
  /\ checksum <$> data (final_handler r) !! "b.tar.gz"
     = Some "06648a9425364b22916dc578a1df69b5ac36f2f13610307bff27575528cc4743"
  /\ SHA256.hexdigest_of (content Sample.b_tgz)
     = "06648a9425364b22916dc578a1df69b5ac36f2f13610307bff27575528cc4743".
Proof. vm_compute. done. Qed.

Example stream_a_txt :
  let r := stream_nexts 4 Sample.compress_file Sample.fs 3 Sample.handler (G_new "a.txt") in
  signals r = [Yield (bytes_of_string "zst"); Yield (bytes_of_string "0123456789");
               StopIteration]
  /\ run_events r = [EvReadFile (path_raw Sample.a_entry);
                     EvCompressFile (path_raw Sample.a_entry)]
  /\ checksum <$> data (final_handler r) !! "a.txt"
     = Some "84d89877f0d4041efb6bf91a16f0248f2fd573e6af05c19f96bedb9f882f7882"
  /\ SHA256.hexdigest_of (bytes_of_string "0123456789")
     = "84d89877f0d4041efb6bf91a16f0248f2fd573e6af05c19f96bedb9f882f7882".
Proof. vm_compute. done. Qed.

(** A read that fails ends the sequence early, and the checksum is that of
    the bytes read before: [c.gz] has the bytes of [b.tar.gz] and fails at
    the second [read]. *)
Example stream_c_gz_fault :
  let r := stream_nexts 4 Sample.compress_file Sample.fs 2 Sample.handler (G_new "c.gz") in
  signals r = [Yield [x1f; x8b; x08; x00]; StopIteration]
  /\ run_events r = [EvReadFile (path_raw Sample.c_entry); EvWarning]
  /\ checksum <$> data (final_handler r) !! "c.gz"
     = Some (SHA256.hexdigest_of [x1f; x8b; x08; x00])
  /\ checksum <$> data (final_handler r) !! "c.gz"
     ≠ Some (SHA256.hexdigest_of (content Sample.c_gz)).
Proof. vm_compute. repeat split; discriminate. Qed.

(** * Properties of the list of paths to deliver *)

Section PathsFacts.

Variable resolve : string -> option Path.
Variable pathfile_lines : string -> option (list string).

#[local] Abbreviation Listed := (listed pathfile_lines).

Lemma count_cons element x l :
  count element (x :: l) = (if decide (x = element) then 1 else 0) + count element l.
Proof. unfold count. rewrite filter_cons. by destruct (decide (x = element)). Qed.

Lemma count_zero element l : element ∉ l -> count element l = 0.
Proof.
  induction l as [|x l IH]; intros Hn; [done|].
  apply not_elem_of_cons in Hn as [Hne Hn]. rewrite count_cons, IH by done.
  by destruct (decide (x = element)); [congruence|].
Qed.

Lemma count_pos element l : element ∈ l -> 0 < count element l.
Proof.
  induction l as [|x l IH]; intros Hin; [by apply not_elem_of_nil in Hin|].
  rewrite count_cons. destruct (decide (x = element)); [lia|].
  apply elem_of_cons in Hin as [->|Hin]; [done|]. simpl. by apply IH.
Qed.

(** The test of the loop that looks for duplicates passes exactly on the
    lists without repetition. *)
Lemma count_check_NoDup l :
  forallb (fun element => Nat.eqb (count element l) 1) l = true <-> NoDup l.
Proof.
  rewrite forallb_forall. split.
  - intros H. induction l as [|x l IH]; [constructor|].
    assert (Hx : count x (x :: l) = 1) by (apply Nat.eqb_eq, H; left; done).
    rewrite count_cons, decide_True in Hx by done.
    assert (Hxl : x ∉ l) by (intros Hin; apply count_pos in Hin; lia).
    constructor; [done|]. apply IH. intros y Hy. apply Nat.eqb_eq.
    assert (Hc : count y (x :: l) = 1) by (apply Nat.eqb_eq, H; right; done).
    rewrite count_cons in Hc. destruct (decide (x = y)) as [->|]; [|done].
    apply list_elem_of_In in Hy. done.
  - intros Hnd y Hy. apply Nat.eqb_eq. apply list_elem_of_In in Hy.
    induction Hnd as [|x l Hx Hnd IH]; [by apply not_elem_of_nil in Hy|].
    rewrite count_cons. apply elem_of_cons in Hy as [->|Hy].
    + rewrite decide_True by done. by rewrite count_zero.
    + rewrite decide_False by (intros ->; done). by rewrite IH.
Qed.

Lemma data_to_deliver_put data pathfile :
  (forall pf, pathfile = Some pf -> is_Some (pathfile_lines pf)) ->
  data_to_deliver resolve pathfile_lines "put" data pathfile
  = let all_files := map (put_item resolve) (Listed data pathfile) in
    if forallb (fun element => Nat.eqb (count element all_files) 1) all_files
    then Ok all_files else Raise DeliveryOptionException.
Proof.
  intros Hpf. unfold data_to_deliver, listed. simpl.
  destruct pathfile as [pf|].
  - destruct (Hpf pf eq_refl) as [lines ->]. simpl.
    rewrite map_app, map_map. by destruct data.
  - simpl. rewrite app_nil_r. by destruct data.
Qed.

(** What [data_to_deliver] returns has no element twice, whatever the
    method. *)
Lemma data_to_deliver_NoDup method data pathfile all_files :
  data_to_deliver resolve pathfile_lines method data pathfile = Ok all_files ->
  NoDup all_files.
Proof.
  unfold data_to_deliver.
  match goal with |- context [mbind _ ?o] => destruct o as [l| |]; simpl; try discriminate end.
  destruct (forallb _ l) eqn:E; [|discriminate].
  intros [= <-]. by apply count_check_NoDup.
Qed.

(** Two entries of the list that resolve to the same path stop
    [data_to_deliver] with [DeliveryOptionException]. *)
Lemma data_to_deliver_rejects data pathfile i j x y p :
  (forall pf, pathfile = Some pf -> is_Some (pathfile_lines pf)) ->
  i ≠ j ->
  Listed data pathfile !! i = Some x ->
  Listed data pathfile !! j = Some y ->
  resolve x = Some p ->
  resolve y = Some p ->
  data_to_deliver resolve pathfile_lines "put" data pathfile = Raise DeliveryOptionException.
Proof.
  intros Hpf Hij Hi Hj Hx Hy. rewrite data_to_deliver_put by done. cbv zeta.
  destruct (forallb _ _) eqn:E; [|done].
  apply count_check_NoDup in E. exfalso. apply Hij.
  eapply NoDup_lookup; [exact E| |].
  - rewrite list_lookup_fmap, Hi. simpl. unfold put_item. rewrite Hx. done.
  - rewrite list_lookup_fmap, Hj. simpl. unfold put_item. rewrite Hy. done.
Qed.

End PathsFacts.

(** [LocalFileHandler.__init__] does not stop at a path given again: a
    path whose resolution is also that of a later one is left out and the
    catalogue is that of the rest. *)
Lemma init_merges_duplicates is_compressed uuid4 fs resolve x data_list dest p :
  resolve x = Some p ->
  p ∈ omap resolve data_list ->
  init is_compressed uuid4 fs resolve (x :: data_list) dest
  = init is_compressed uuid4 fs resolve data_list dest.
Proof.
  intros Hx Hp. unfold init. simpl. rewrite Hx. simpl.
  destruct (decide_rel elem_of p (list_omap string Path resolve data_list)) as [|Hn];
    [reflexivity|]. by destruct Hn.
Qed.

(** C6, as the code has it. [DataDeliverer.data_to_deliver] stops with
    [DeliveryOptionException] when two entries of the list for an upload
    resolve to the same path, and never returns a list with an element
    twice; [LocalFileHandler.__init__] does not: it drops the repeated
    path and builds the catalogue of the rest. *)
Theorem duplicate_paths_rejected_or_merged
    (resolve : string -> option Path) (pathfile_lines : string -> option (list string))
    (is_compressed : Path -> file -> bool * string) (uuid4 : nat -> Z) (fs : node)
    data pathfile i j x y p data_list dest :
  (forall pf, pathfile = Some pf -> is_Some (pathfile_lines pf)) ->
  i ≠ j ->
  listed pathfile_lines data pathfile !! i = Some x ->
  listed pathfile_lines data pathfile !! j = Some y ->
  resolve x = Some p ->
  resolve y = Some p ->
  p ∈ omap resolve data_list ->
  data_to_deliver resolve pathfile_lines "put" data pathfile = Raise DeliveryOptionException
  /\ (forall method all_files,
        data_to_deliver resolve pathfile_lines method data pathfile = Ok all_files ->
        NoDup all_files)
  /\ init is_compressed uuid4 fs resolve (x :: data_list) dest
     = init is_compressed uuid4 fs resolve data_list dest.
Proof.
  intros Hpf Hij Hi Hj Hx Hy Hp. split; [|split].
  - eapply data_to_deliver_rejects; eauto.
  - intros method all_files. apply data_to_deliver_NoDup.
  - eapply init_merges_duplicates; eauto.
Qed.

Lemma duplicate_paths_rejected_or_merged_witness :
  data_to_deliver Sample.resolve (fun _ => None) "put" (Some ["a.txt"; "./a.txt"]) None
  = Raise DeliveryOptionException
  /\ init Sample.is_compressed Sample.uuid4 Sample.fs Sample.resolve ["a.txt"; "./a.txt"]
       Sample.dest
     = init Sample.is_compressed Sample.uuid4 Sample.fs Sample.resolve ["./a.txt"] Sample.dest.
Proof.
  assert (H0 : forall pf, @None string = Some pf -> is_Some ((fun _ => @None (list string)) pf))
    by discriminate.
  assert (H1 : 0 ≠ 1) by lia.
  assert (H2 : listed (fun _ => None) (Some ["a.txt"; "./a.txt"]) None !! 0 = Some "a.txt")
    by reflexivity.
  assert (H3 : listed (fun _ => None) (Some ["a.txt"; "./a.txt"]) None !! 1 = Some "./a.txt")
    by reflexivity.
  assert (H4 : Sample.resolve "a.txt" = Some (pathlib.of_string "/data/a.txt"))
    by reflexivity.
  assert (H5 : Sample.resolve "./a.txt" = Some (pathlib.of_string "/data/a.txt"))
    by reflexivity.
  assert (H6 : pathlib.of_string "/data/a.txt" ∈ omap Sample.resolve ["./a.txt"])
    by (vm_compute; left).
  destruct (duplicate_paths_rejected_or_merged Sample.resolve (fun _ => None)
              Sample.is_compressed Sample.uuid4 Sample.fs
              (Some ["a.txt"; "./a.txt"]) None 0 1 "a.txt" "./a.txt"
              (pathlib.of_string "/data/a.txt") ["./a.txt"] Sample.dest
              H0 H1 H2 H3 H4 H5 H6) as (Hr & _ & Hm).
  split; [exact Hr|exact Hm].
Defined.

(** The same path given twice to [LocalFileHandler.__init__]: no error, and
    a catalogue with the one entry. *)
Lemma init_accepts_repeated_path :
  init Sample.is_compressed Sample.uuid4 Sample.fs Sample.resolve ["a.txt"; "./a.txt"]
    Sample.dest
  = Ok Sample.a_handler
  /\ size (data Sample.a_handler) = 1.
Proof. vm_compute. done. Qed.

(** * Properties of the temporary directories *)

Section DirectoryFacts.

Variable mkdir_refused : list string -> bool.
Variable rmtree_refused : list string -> bool.

#[local] Abbreviation Mkdir := (mkdir mkdir_refused).
#[local] Abbreviation Rmtree := (rmtree rmtree_refused).
#[local] Abbreviation Create_loop := (create_loop mkdir_refused rmtree_refused).

Lemma mkdir_true w p w' :
  Mkdir w p = (w', true) ->
  mkdir_refused p = false
  /\ disk w !! p = None
  /\ disk w' = <[p := true]> (disk w)
  /\ log w' = log w ++ [EvMkdir p]
  /\ buckets w' = buckets w /\ objects w' = objects w.
Proof.
  unfold mkdir. destruct (mkdir_refused p); [simpl; congruence|]. simpl.
  destruct (exists_ _ p) eqn:Ee; [simpl; congruence|]. simpl.
  destruct (negb _); [congruence|]. intros [= <-]. simpl.
  unfold exists_ in Ee. simpl in Ee. apply bool_decide_eq_false in Ee.
  repeat split; try done. by apply eq_None_not_Some.
Qed.

Lemma mkdir_false w p w' :
  Mkdir w p = (w', false) -> w' = emit (EvMkdir p) w.
Proof.
  unfold mkdir. destruct (_ || _ || _); congruence.
Qed.

Lemma mkdir_keeps_dir w p w' q :
  Mkdir w p = (w', true) -> is_dir w q = true -> is_dir w' q = true.
Proof.
  intros H Hq. apply mkdir_true in H as (_ & Hn & Hd & _).
  unfold is_dir in *. apply bool_decide_eq_true in Hq. apply bool_decide_eq_true.
  rewrite Hd. destruct (decide (p = q)) as [->|]; [by rewrite lookup_insert_eq|].
  by rewrite lookup_insert_ne.
Qed.

(** [rmtree] of a directory that nothing refuses leaves no path below it
    and touches no other. *)
Lemma rmtree_true w p :
  rmtree_refused p = false -> is_dir w p = true ->
  exists w',
    Rmtree w p = (w', true)
    /\ (forall q, p `prefix_of` q -> disk w' !! q = None)
    /\ (forall q, ¬ p `prefix_of` q -> disk w' !! q = disk w !! q)
    /\ log w' = log w ++ [EvRmtree p].
Proof.
  intros Hr Hd. unfold rmtree. rewrite Hr. simpl.
  replace (is_dir (emit (EvRmtree p) w) p) with true by done. simpl.
  eexists. split; [reflexivity|]. simpl. split; [|split; [|done]].
  - intros q Hq. apply map_lookup_filter_None. right. intros b _ Hn. by apply Hn.
  - intros q Hq. destruct (disk w !! q) as [b|] eqn:E.
    + by apply map_lookup_filter_Some.
    + apply map_lookup_filter_None. left. done.
Qed.

(** The loop, once the temporary directory is there and can be removed:
    either every directory is made, and nothing but the calls of [mkdir]
    is logged, or the tree is removed and the loop leaves by [sys.exit]. *)
Lemma create_loop_all_or_nothing temp_dir dirs :
  forall w,
    is_dir w (parts temp_dir) = true ->
    rmtree_refused (parts temp_dir) = false ->
    (forall d, d ∈ dirs -> parts temp_dir `prefix_of` parts d) ->
    exists w',
      (Create_loop temp_dir dirs w = (w', Ok ())
       /\ log w' = log w ++ map (fun d => EvMkdir (parts d)) dirs
       /\ (forall d, d ∈ dirs -> is_dir w' (parts d) = true /\ mkdir_refused (parts d) = false))
      \/ (Create_loop temp_dir dirs w = (w', Raise (SystemExit msg_deleted))
          /\ (exists d, d ∈ dirs /\ EvPrint (msg_not_created d) ∈ log w')
          /\ (forall q, parts temp_dir `prefix_of` q -> disk w' !! q = None)
          /\ (forall q, ¬ parts temp_dir `prefix_of` q -> disk w' !! q = disk w !! q)).
Proof.
  induction dirs as [|d_ rest IH]; intros w Hd Hr Hunder.
  - exists w. left. simpl. rewrite app_nil_r. split; [done|]. split; [done|].
    intros d Hin. by apply not_elem_of_nil in Hin.
  - simpl. destruct (Mkdir w (parts d_)) as [w1 [|]] eqn:E.
    + destruct (IH w1) as (w' & [(El & Hlog & Hall)|(El & Hp & Hgone & Hkeep)]);
        [by eapply mkdir_keeps_dir|done|by intros d Hin; apply Hunder; right| |].
      * exists w'. left. split; [done|]. split.
        { rewrite Hlog. apply mkdir_true in E as (_ & _ & _ & -> & _).
          by rewrite <- app_assoc. }
        intros d Hin. apply elem_of_cons in Hin as [->|Hin]; [|by apply Hall].
        split; [|by apply mkdir_true in E as (? & _)].
        assert (Hd1 : is_dir w1 (parts d_) = true).
        { apply mkdir_true in E as (_ & _ & Hdisk & _). unfold is_dir.
          apply bool_decide_eq_true. rewrite Hdisk. apply lookup_insert_eq. }
        clear -Hd1 El. revert w1 Hd1 El.
        induction rest as [|d rest IHr]; intros w1 Hd1 El; simpl in El.
        { by injection El as <-. }
        destruct (Mkdir w1 (parts d)) as [w2 [|]] eqn:E2.
        { eapply IHr; [|exact El]. by eapply mkdir_keeps_dir. }
        destruct (exists_ _ _); [|].
        { destruct (Rmtree _ _) as [? [|]]; discriminate. }
        eapply IHr; [|exact El]. apply mkdir_false in E2 as ->. done.
      * exists w'. right. split; [done|]. split; [|split; [done|]].
        { destruct Hp as (d & Hin & Hpr). exists d. split; [by right|done]. }
        intros q Hq. rewrite Hkeep by done.
        apply mkdir_true in E as (_ & _ & -> & _). apply lookup_insert_ne.
        intros <-. apply Hq, Hunder. left.
    + apply mkdir_false in E as ->.
      set (w1 := emit (EvPrint (msg_not_created d_)) (emit (EvMkdir (parts d_)) w)).
      assert (Hd1 : is_dir w1 (parts temp_dir) = true) by done.
      assert (He : exists_ w1 (parts temp_dir) = true).
      { unfold is_dir in Hd1. apply bool_decide_eq_true in Hd1. unfold exists_.
        apply bool_decide_eq_true. rewrite Hd1. eauto. }
      rewrite He.
      destruct (rmtree_true w1 (parts temp_dir) Hr Hd1) as (w' & -> & Hgone & Hkeep & Hlog).
      exists w'. right. split; [done|]. split; [|split; [done|]].
      * exists d_. split; [left|]. rewrite Hlog. subst w1. simpl.
        apply elem_of_app. left. apply elem_of_app. right. left.
      * intros q Hq. by rewrite Hkeep.
Qed.

Lemma dirs_of_under temp_dir d :
  d ∈ dirs_of temp_dir -> parts temp_dir `prefix_of` parts d.
Proof.
  unfold dirs_of. intros Hin. apply list_elem_of_fmap in Hin as (sf & -> & Hsf).
  repeat (apply elem_of_cons in Hsf as [->|Hsf]); try (by apply prefix_app_r).
  by apply not_elem_of_nil in Hsf.
Qed.

(** Where the temporary directory is there after the attempt to make it
    and [shutil.rmtree] of it is not refused,
    [create_directories] ends in one of two ways: all five directories are
    made, nothing is printed and [(True, dirs)] is returned; or the
    creation of one of them failed, the whole tree has been removed, the
    rest of the disk is as before and the session leaves by [sys.exit]. A
    directory that the system refuses to make forces the second. *)
Theorem failed_creation_removes_tree cwd timestamp_ w :
  let temp_dir := temp_dir_of cwd timestamp_ in
  let dirs := dirs_of temp_dir in
  is_dir (Mkdir w (parts temp_dir)).1 (parts temp_dir) = true ->
  rmtree_refused (parts temp_dir) = false ->
  exists w',
    ((create_directories mkdir_refused rmtree_refused cwd timestamp_ w
      = (w', Ok (true, dirs))
      /\ log w' = log w ++ map (fun d => EvMkdir (parts d)) dirs
      /\ (forall d, d ∈ dirs -> is_dir w' (parts d) = true))
     \/ (create_directories mkdir_refused rmtree_refused cwd timestamp_ w
         = (w', Raise (SystemExit msg_deleted))
         /\ (exists d, d ∈ dirs /\ EvPrint (msg_not_created d) ∈ log w')
         /\ (forall q, parts temp_dir `prefix_of` q -> disk w' !! q = None)
         /\ (forall q, ¬ parts temp_dir `prefix_of` q -> disk w' !! q = disk w !! q)))
    /\ (forall d, d ∈ dirs -> mkdir_refused (parts d) = true ->
        create_directories mkdir_refused rmtree_refused cwd timestamp_ w
        = (w', Raise (SystemExit msg_deleted))).
Proof.
  intros temp_dir dirs Hroot Hr.
  assert (Hcases : exists w',
    (Create_loop temp_dir dirs w = (w', Ok ())
     /\ log w' = log w ++ map (fun d => EvMkdir (parts d)) dirs
     /\ (forall d, d ∈ dirs -> is_dir w' (parts d) = true /\ mkdir_refused (parts d) = false))
    \/ (Create_loop temp_dir dirs w = (w', Raise (SystemExit msg_deleted))
        /\ (exists d, d ∈ dirs /\ EvPrint (msg_not_created d) ∈ log w')
        /\ (forall q, parts temp_dir `prefix_of` q -> disk w' !! q = None)
        /\ (forall q, ¬ parts temp_dir `prefix_of` q -> disk w' !! q = disk w !! q))).
  { subst dirs. unfold dirs_of. rewrite map_cons.
    set (root := temp_dir // pathlib.of_string "").
    set (rest := map _ _).
    assert (Hparts : parts root = parts temp_dir) by apply app_nil_r.
    assert (Hunder : forall d, d ∈ rest -> parts temp_dir `prefix_of` parts d).
    { intros d Hd. apply dirs_of_under. unfold dirs_of. rewrite map_cons. by right. }
    cbn [create_loop]. rewrite Hparts.
    destruct (Mkdir w (parts temp_dir)) as [w1 [|]] eqn:E; simpl in Hroot.
    - destruct (create_loop_all_or_nothing temp_dir rest w1 Hroot Hr Hunder)
        as (w' & [(El & Hlog & Hall)|(El & Hp & Hgone & Hkeep)]).
      + exists w'. left. split; [done|].
        pose proof E as E'. apply mkdir_true in E' as (Hnr & _ & Hdisk & Hlog1 & _).
        split.
        { rewrite Hlog, Hlog1, map_cons, Hparts. by rewrite <- app_assoc. }
        intros d Hin. apply elem_of_cons in Hin as [->|Hin]; [|by apply Hall].
        rewrite Hparts. split; [|done].
        destruct (create_loop_all_or_nothing temp_dir rest w1 Hroot Hr Hunder)
          as (w'' & [(El' & _ & _)|(El' & _)]); [|congruence].
        clear -El Hroot. revert w1 Hroot El.
        induction rest as [|d rest IHr]; intros w1 Hd1 El; simpl in El.
        { by injection El as <-. }
        destruct (Mkdir w1 (parts d)) as [w2 [|]] eqn:E2.
        { eapply IHr; [|exact El]. by eapply mkdir_keeps_dir. }
        replace (exists_ _ (parts temp_dir)) with true in El.
        { destruct (Rmtree _ _) as [? [|]]; discriminate. }
        symmetry. apply mkdir_false in E2 as ->.
        unfold is_dir in Hd1. apply bool_decide_eq_true in Hd1.
        unfold exists_. apply bool_decide_eq_true. simpl. rewrite Hd1. eauto.
      + exists w'. right. split; [done|]. split; [|split; [done|]].
        { destruct Hp as (d & Hin & Hpr). exists d. split; [by right|done]. }
        intros q Hq. rewrite Hkeep by done.
        apply mkdir_true in E as (_ & _ & -> & _). apply lookup_insert_ne.
        intros <-. by apply Hq.
    - apply mkdir_false in E as ->.
      set (w1 := emit (EvPrint (msg_not_created root)) (emit (EvMkdir (parts temp_dir)) w)).
      assert (Hd1 : is_dir w1 (parts temp_dir) = true) by done.
      assert (He : exists_ w1 (parts temp_dir) = true).
      { unfold is_dir in Hd1. apply bool_decide_eq_true in Hd1. unfold exists_.
        apply bool_decide_eq_true. rewrite Hd1. eauto. }
      rewrite He.
      destruct (rmtree_true w1 (parts temp_dir) Hr Hd1) as (w' & -> & Hgone & Hkeep & Hlog).
      exists w'. right. split; [done|]. split; [|split; [done|]].
      + exists root. split; [left|]. rewrite Hlog. subst w1. simpl.
        apply elem_of_app. left. apply elem_of_app. right. left.
      + intros q Hq. by rewrite Hkeep. }
  destruct Hcases as (w' & Hcases). exists w'. unfold create_directories.
  fold temp_dir. fold dirs.
  destruct Hcases as [(El & Hlog & Hall)|(El & Hp & Hgone & Hkeep)]; rewrite El.
  - split.
    + left. split; [done|]. split; [done|]. intros d Hd. by apply Hall.
    + intros d Hd Href. destruct (Hall d Hd) as [_ Hn]. congruence.
  - split; [|done]. right. done.
Qed.

End DirectoryFacts.

(** The third subfolder of the sample cannot be made: the two made before
    it and the temporary directory itself are removed. *)
Lemma failed_creation_removes_tree_witness :
  is_dir (mkdir Sample.meta_refused Sample.world (parts (temp_dir_of Sample.cwd Sample.stamp))).1
    (parts (temp_dir_of Sample.cwd Sample.stamp)) = true
  /\ Sample.none_refused (parts (temp_dir_of Sample.cwd Sample.stamp)) = false
  /\ exists w',
      create_directories Sample.meta_refused Sample.none_refused Sample.cwd Sample.stamp
        Sample.world
      = (w', Raise (SystemExit msg_deleted))
      /\ (forall q, parts (temp_dir_of Sample.cwd Sample.stamp) `prefix_of` q ->
                    disk w' !! q = None).
Proof.
  assert (H1 : is_dir (mkdir Sample.meta_refused Sample.world
                         (parts (temp_dir_of Sample.cwd Sample.stamp))).1
                 (parts (temp_dir_of Sample.cwd Sample.stamp)) = true)
    by (vm_compute; reflexivity).
  assert (H2 : Sample.none_refused (parts (temp_dir_of Sample.cwd Sample.stamp)) = false)
    by reflexivity.
  split; [exact H1|]. split; [exact H2|].
  destruct (failed_creation_removes_tree Sample.meta_refused Sample.none_refused
              Sample.cwd Sample.stamp Sample.world H1 H2) as (w' & Hcases & Hm).
  exists w'.
  assert (E : create_directories Sample.meta_refused Sample.none_refused Sample.cwd
                Sample.stamp Sample.world = (w', Raise (SystemExit msg_deleted))).
  { apply (Hm (temp_dir_of Sample.cwd Sample.stamp // pathlib.of_string "meta/")).
    - unfold dirs_of. rewrite !map_cons. do 3 right. left.
    - vm_compute. reflexivity. }
  split; [exact E|].
  destruct Hcases as [(El & _)|(_ & _ & Hgone & _)]; [|exact Hgone].
  rewrite E in El. discriminate El.
Defined.

(** Where [shutil.rmtree] fails too, the session leaves by [sys.exit] with
    the temporary directory and the two subfolders made so far still on
    the disk. *)
Lemma partial_tree_stays_when_rmtree_fails :
  let r := create_directories Sample.meta_refused Sample.all_refused Sample.cwd Sample.stamp
             Sample.world in
  r.2 = Raise (SystemExit (msg_not_deleted Sample.temp_dir))
  /\ disk r.1 !! parts Sample.temp_dir = Some true
  /\ disk r.1 !! (parts Sample.temp_dir ++ ["files"]) = Some true
  /\ disk r.1 !! (parts Sample.temp_dir ++ ["keys"]) = Some true
  /\ ¬ (forall q, parts Sample.temp_dir `prefix_of` q -> disk r.1 !! q = None).
Proof.
  intros r.
  assert (Hroot : disk r.1 !! parts Sample.temp_dir = Some true) by (vm_compute; reflexivity).
  split; [vm_compute; reflexivity|]. split; [exact Hroot|].
  split; [vm_compute; reflexivity|]. split; [vm_compute; reflexivity|].
  intros H. rewrite H in Hroot by done. discriminate.
Qed.

(** C7. Where the temporary directory itself cannot be made and is not
    there, the creation of every child fails too, nothing is on the disk,
    and [create_directories] does not abort the session: it prints the five
    messages and returns [(True, dirs)], against its own description
    ("True if directories created"). *)
Lemma no_abort_when_root_cannot_be_made :
  let r := create_directories Sample.all_refused Sample.none_refused Sample.cwd Sample.stamp
             Sample.world in
  r.2 = Ok (true, dirs_of Sample.temp_dir)
  /\ (init_tempdir Sample.all_refused Sample.none_refused Sample.cwd Sample.stamp
        Sample.world).2
     = Ok (dirs_of Sample.temp_dir)
  /\ Forall (fun d => disk r.1 !! parts d = None) (dirs_of Sample.temp_dir)
  /\ Forall (fun d => EvPrint (msg_not_created d) ∈ log r.1) (dirs_of Sample.temp_dir).
Proof.
  intros r. split; [vm_compute; reflexivity|]. split; [vm_compute; reflexivity|]. split.
  - repeat constructor; vm_compute; reflexivity.
  - assert (Hlog : log r.1
                   = flat_map (fun d => [EvMkdir (parts d); EvPrint (msg_not_created d)])
                       (dirs_of Sample.temp_dir)) by (vm_compute; reflexivity).
    rewrite Hlog. apply Forall_forall. intros d Hd. apply list_elem_of_In, in_flat_map.
    exists d. split; [by apply list_elem_of_In|]. right. left. done.
Qed.

(** * Properties of put and get *)

Section StoreFacts.

Variable mkdir_refused : list string -> bool.
Variable upload_refused : string -> string -> bool.
Variable download_refused : string -> bool.
Variable file_exists_in_bucket : list string -> string -> bool * list string.

#[local] Abbreviation Put := (put upload_refused file_exists_in_bucket).
#[local] Abbreviation Get := (get mkdir_refused download_refused file_exists_in_bucket).
#[local] Abbreviation Get_loop := (get_loop mkdir_refused download_refused).
#[local] Abbreviation Mkdir_parents := (mkdir_parents mkdir_refused).
#[local] Abbreviation Download_file := (download_file download_refused).
#[local] Abbreviation Ensure_parent := (ensure_parent mkdir_refused).
#[local] Abbreviation Get_one := (get_one mkdir_refused download_refused).

(** Without the bucket, [put] raises [S3Error] having done nothing but
    list the buckets. *)
Lemma put_without_bucket self file spec_path w :
  s3_bucket self ∉ buckets w ->
  Put self file spec_path w = (emit EvBucketsAll w, Raise S3Error).
Proof.
  intros Hn. unfold put, bucket_exists. simpl. by rewrite bool_decide_eq_false_2.
Qed.

(** Without the bucket, [get] has done nothing but list the buckets too,
    but returns [None] as after a download. *)
Lemma get_without_bucket self path w :
  s3_bucket self ∉ buckets w ->
  Get self path w = (emit EvBucketsAll w, Ok None).
Proof.
  intros Hn. unfold get, bucket_exists. simpl. by rewrite bool_decide_eq_false_2.
Qed.

Lemma mkdir_parents_log w p w' b :
  Mkdir_parents w p = (w', b) -> log w' = log w ++ [EvMkdir p].
Proof. unfold mkdir_parents. destruct (_ || _ || _); by intros [= <- <-]. Qed.

Lemma download_file_log w key dest w' b :
  Download_file w key dest = (w', b) ->
  log w' = log w ++ [EvDownload key (pathlib.str dest)].
Proof. unfold download_file. destruct (_ || _ || _); by intros [= <- <-]. Qed.

Lemma get_loop_cons self path f rest w :
  Get_loop self path (f :: rest) w
  = match tempdir self !! 1 with
    | None => (w, Raise IndexError)
    | Some files_dir =>
        let new_path := files_dir // pathlib.of_string f in
        match Get_one path f new_path w with
        | (w, true) => Get_loop self path rest w
        | (w, false) => (w, Raise (SystemExit (msg_no_folder (pathlib.parent new_path))))
        end
    end.
Proof.
  cbn [get_loop]. destruct (tempdir self !! 1) as [files_dir|]; [|done].
  cbv zeta. unfold get_one, ensure_parent.
  destruct (if negb _ then _ else _) as [w1 [|]]; [|done].
  destruct (negb (exists_ w1 _)); [|done].
  by destruct (Download_file w1 f _) as [w2 [|]].
Qed.

Lemma ensure_parent_log w parent w' b :
  Ensure_parent w parent = (w', b) -> log w `prefix_of` log w'.
Proof.
  unfold ensure_parent. destruct (negb _).
  - intros E. apply mkdir_parents_log in E as ->. by apply prefix_app_r.
  - by intros [= <- <-].
Qed.

Lemma get_one_log path f new_path w w' b :
  Get_one path f new_path w = (w', b) -> log w `prefix_of` log w'.
Proof.
  unfold get_one. destruct (Ensure_parent _ _) as [w1 [|]] eqn:E1;
    apply ensure_parent_log in E1.
  - destruct (negb _).
    + destruct (Download_file w1 f new_path) as [w2 [|]] eqn:E2;
        apply download_file_log in E2; intros [= <- <-]; simpl; rewrite E2;
        (etrans; [exact E1|]); rewrite <- app_assoc; by apply prefix_app_r.
    + intros [= <- <-]. simpl. etrans; [exact E1|]. by apply prefix_app_r.
  - by intros [= <- <-].
Qed.

(** The log only grows along the loop of [get]. *)
Lemma get_loop_log self path filelist :
  forall w w' r, Get_loop self path filelist w = (w', r) -> log w `prefix_of` log w'.
Proof.
  induction filelist as [|f rest IH]; intros w w' r H.
  - by injection H as <- <-.
  - rewrite get_loop_cons in H.
    destruct (tempdir self !! 1) as [files_dir|]; [|by injection H as <- <-].
    cbv zeta in H. destruct (Get_one _ _ _ _) as [w1 [|]] eqn:E1; apply get_one_log in E1.
    + apply IH in H. by etrans.
    + by injection H as <- <-.
Qed.

(** In [put] and in [get] the first thing logged is the listing of the
    buckets: every transfer comes after it. *)
Lemma put_lists_buckets_first self file spec_path w :
  (log w ++ [EvBucketsAll]) `prefix_of` log (Put self file spec_path w).1.
Proof.
  unfold put, bucket_exists. simpl.
  destruct (bool_decide _); [|done].
  set (w0 := emit EvBucketsAll w).
  assert (Hkey : log w0 `prefix_of` log (put_key file spec_path w0).1).
  { unfold put_key. destruct spec_path as [sp|]; [|done].
    destruct (PyStr.split sp _); [|done]. destruct (PyStr.split _ _); [|done].
    destruct (negb _); simpl; [|by apply prefix_app_r].
    rewrite <- app_assoc. by apply prefix_app_r. }
  destruct (put_key file spec_path w0) as [w1 [filepath| |]]; simpl in Hkey; try done.
  destruct (file_exists_in_bucket _ filepath) as [[|] ?]; simpl.
  - etrans; [exact Hkey|]. by apply prefix_app_r.
  - unfold upload_file. destruct (upload_refused _ _); simpl;
      (etrans; [exact Hkey|]); rewrite <- ?app_assoc; by apply prefix_app_r.
Qed.

Lemma get_lists_buckets_first self path w :
  (log w ++ [EvBucketsAll]) `prefix_of` log (Get self path w).1.
Proof.
  unfold get, bucket_exists. simpl.
  destruct (bool_decide _); [|done].
  destruct (file_exists_in_bucket _ path) as [[|] filelist]; simpl;
    [|by apply prefix_app_r].
  destruct (Get_loop _ _ _ _) as [w1 r] eqn:E. apply get_loop_log in E. simpl in E.
  assert (log (w1, r).1 = log w1) as Hw by done.
  destruct r; simpl; (etrans; [|exact E]); by apply prefix_app_r.
Qed.

Lemma exists_emit e w p : exists_ (emit e w) p = exists_ w p.
Proof. reflexivity. Qed.

Lemma lookup_made_ancestors (m : gmap (list string) bool) l p :
  is_Some (m !! p) \/ p ∈ l ->
  is_Some (foldr (fun a d => <[a := true]> d) m l !! p).
Proof.
  induction l as [|a l IH]; simpl.
  - intros [H|H]; [done|by apply not_elem_of_nil in H].
  - intros H. destruct (decide (a = p)) as [->|Hne]; [rewrite lookup_insert_eq; eauto|].
    rewrite lookup_insert_ne by done. apply IH.
    destruct H as [H|H]; [by left|]. apply elem_of_cons in H as [->|H]; [done|by right].
Qed.

Lemma self_in_ancestors p : p ∈ ancestors p.
Proof.
  unfold ancestors. apply list_elem_of_fmap. exists (length p). split.
  - by rewrite firstn_all.
  - apply list_elem_of_In, in_seq. lia.
Qed.

Lemma ensure_parent_spec w parent w' b :
  Ensure_parent w parent = (w', b) ->
  (forall p, exists_ w p = true -> exists_ w' p = true)
  /\ (b = true -> exists_ w' parent = true)
  /\ objects w' = objects w /\ buckets w' = buckets w.
Proof.
  unfold ensure_parent. destruct (exists_ w parent) eqn:Ep; cbn [negb].
  - intros [= <- <-]. done.
  - unfold mkdir_parents. destruct (_ || _ || _).
    + intros [= <- <-]. done.
    + intros H. pose proof (f_equal fst H) as Hw. pose proof (f_equal snd H) as Hb.
      cbn [fst snd] in Hw, Hb. subst w' b. clear H.
      split; [|split; [|done]].
      * intros p Hp. unfold exists_ in *. apply bool_decide_eq_true in Hp.
        apply bool_decide_eq_true.
        exact (lookup_made_ancestors (disk w) (ancestors parent) p (or_introl Hp)).
      * intros _. unfold exists_. apply bool_decide_eq_true.
        exact (lookup_made_ancestors (disk w) (ancestors parent) parent
                 (or_intror (self_in_ancestors parent))).
Qed.

Lemma download_file_spec w key dest w' b :
  Download_file w key dest = (w', b) ->
  (forall p, exists_ w p = true -> exists_ w' p = true)
  /\ objects w' = objects w /\ buckets w' = buckets w.
Proof.
  unfold download_file. destruct (_ || _ || _); intros [= <- <-]; [done|].
  simpl. split; [|done]. intros p Hp. unfold exists_ in *.
  apply bool_decide_eq_true in Hp. apply bool_decide_eq_true. simpl.
  destruct (decide (parts dest = p)) as [->|]; [rewrite lookup_insert_eq; eauto|].
  by rewrite lookup_insert_ne.
Qed.

Lemma get_one_spec path f new_path w w' b :
  Get_one path f new_path w = (w', b) ->
  (forall p, exists_ w p = true -> exists_ w' p = true)
  /\ (b = true -> exists_ w' (parts (pathlib.parent new_path)) = true)
  /\ objects w' = objects w /\ buckets w' = buckets w.
Proof.
  unfold get_one. destruct (Ensure_parent _ _) as [w1 [|]] eqn:E1;
    apply ensure_parent_spec in E1 as (Hm1 & Hp1 & Ho1 & Hb1).
  - destruct (negb _).
    + destruct (Download_file w1 f new_path) as [w2 [|]] eqn:E2;
        apply download_file_spec in E2 as (Hm2 & Ho2 & Hb2); intros [= <- <-]; simpl;
        (split; [by intros p Hp; apply Hm2, Hm1|]); (split; [|by split; congruence]);
        intros _; by apply Hm2, Hp1.
    + intros [= <- <-]. simpl. split; [by intros p Hp; apply Hm1|].
      split; [|done]. intros _. by apply Hp1.
  - intros [= <- <-]. done.
Qed.

(** The loop of [get], run to its end, loses nothing of the disk, leaves
    the store alone and leaves the parent folder of every target. *)
Lemma get_loop_spec self path files_dir filelist :
  tempdir self !! 1 = Some files_dir ->
  forall w w',
    Get_loop self path filelist w = (w', Ok ()) ->
    (forall p, exists_ w p = true -> exists_ w' p = true)
    /\ (forall f, f ∈ filelist ->
          exists_ w' (parts (pathlib.parent (files_dir // pathlib.of_string f))) = true)
    /\ objects w' = objects w /\ buckets w' = buckets w.
Proof.
  intros Ht. induction filelist as [|f rest IH]; intros w w' H.
  - injection H as <-. split; [done|]. split; [|done].
    intros f Hf. by apply not_elem_of_nil in Hf.
  - rewrite get_loop_cons, Ht in H. cbv zeta in H.
    destruct (Get_one _ _ _ _) as [w1 [|]] eqn:E1; [|discriminate].
    apply get_one_spec in E1 as (Hm1 & Hp1 & Ho1 & Hb1).
    apply IH in H as (Hm & Hp & Ho & Hb).
    split; [by intros p Hp'; apply Hm, Hm1|]. split; [|by split; congruence].
    intros f' Hf'. apply elem_of_cons in Hf' as [->|Hf']; [|by apply Hp].
    by apply Hm, Hp1.
Qed.

(** A key whose target and the parent of it are there is passed over:
    a line is printed, nothing is called. *)
Lemma get_one_skip path f new_path w :
  exists_ w (parts (pathlib.parent new_path)) = true ->
  exists_ w (parts new_path) = true ->
  Get_one path f new_path w = (emit (EvPrint (msg_skip new_path)) w, true).
Proof.
  intros Hp Ht. unfold get_one, ensure_parent. rewrite Hp. simpl. by rewrite Ht.
Qed.

Lemma get_loop_all_skipped self path files_dir filelist :
  tempdir self !! 1 = Some files_dir ->
  forall w,
    (forall f, f ∈ filelist ->
       exists_ w (parts (files_dir // pathlib.of_string f)) = true
       /\ exists_ w (parts (pathlib.parent (files_dir // pathlib.of_string f))) = true) ->
    Get_loop self path filelist w
    = (emits (map (fun f => EvPrint (msg_skip (files_dir // pathlib.of_string f))) filelist) w,
       Ok ()).
Proof.
  intros Ht. induction filelist as [|f rest IH]; intros w Hall.
  - simpl. unfold emits. rewrite app_nil_r. by destruct w.
  - rewrite get_loop_cons, Ht. cbv zeta.
    destruct (Hall f) as [Hf Hpf]; [left|].
    rewrite get_one_skip by done. rewrite IH.
    + unfold emits, emit. simpl. by rewrite <- app_assoc.
    + intros f' Hf'. rewrite !exists_emit. apply Hall. by right.
Qed.

Lemma get_with_bucket self path w filelist :
  s3_bucket self ∈ buckets w ->
  file_exists_in_bucket (objects w) path = (true, filelist) ->
  Get self path w
  = match Get_loop self path filelist (emit (EvFileExists path) (emit EvBucketsAll w)) with
    | (w, Ok _) => (w, Ok None)
    | (w, OsExit c) => (w, OsExit c)
    | (w, Raise e) => (w, Raise e)
    end.
Proof.
  intros Hb Hf. unfold get, bucket_exists. cbn [buckets emit].
  rewrite bool_decide_eq_true_2 by done. cbn [objects emit]. by rewrite Hf.
Qed.

(** C9. A key whose local target is there is passed over by the loop of
    [get]: a line is printed, nothing is downloaded and nothing fails. So
    [get] on a disk that has all the targets downloads nothing, leaves the
    disk and the store as they are and returns as after a download; and
    that is what a second [get] does after a first one that left the
    targets there. *)
Theorem get_skips_existing_targets self path files_dir filelist w :
  tempdir self !! 1 = Some files_dir ->
  s3_bucket self ∈ buckets w ->
  file_exists_in_bucket (objects w) path = (true, filelist) ->
  let target := fun f => files_dir // pathlib.of_string f in
  let skipped :=
    [EvBucketsAll; EvFileExists path] ++ map (fun f => EvPrint (msg_skip (target f))) filelist in
  (forall f rest w0,
      exists_ w0 (parts (target f)) = true ->
      exists_ w0 (removelast (parts (target f))) = true ->
      Get_loop self path (f :: rest) w0
      = Get_loop self path rest (emit (EvPrint (msg_skip (target f))) w0))
  /\ ((forall f, f ∈ filelist -> exists_ w (parts (target f)) = true) ->
      parents_there w ->
      Get self path w = (emits skipped w, Ok None))
  /\ (forall w1,
        Get self path w = (w1, Ok None) ->
        (forall f, f ∈ filelist -> exists_ w1 (parts (target f)) = true) ->
        Get self path w1 = (emits skipped w1, Ok None)).
Proof.
  intros Ht Hb Hf target skipped.
  assert (Hrun : forall w2,
    s3_bucket self ∈ buckets w2 -> objects w2 = objects w ->
    (forall f, f ∈ filelist ->
       exists_ w2 (parts (target f)) = true
       /\ exists_ w2 (parts (pathlib.parent (target f))) = true) ->
    Get self path w2 = (emits skipped w2, Ok None)).
  { intros w2 Hb2 Ho2 Hall. rewrite (get_with_bucket self path w2 filelist);
      [|done|by rewrite Ho2].
    rewrite (get_loop_all_skipped self path files_dir filelist Ht).
    - unfold emits, emit, skipped, target. cbn [disk buckets objects log].
      by rewrite <- !app_assoc.
    - intros f Hin. rewrite !exists_emit. by apply Hall. }
  split; [|split].
  - intros f rest w0 Hex Hpar. rewrite get_loop_cons, Ht. cbv zeta.
    by rewrite get_one_skip.
  - intros Hall Hwf. apply Hrun; [done..|].
    intros f Hin. split; [by apply Hall|]. apply Hwf. by apply Hall.
  - intros w1 H1 Hall.
    rewrite (get_with_bucket self path w filelist Hb Hf) in H1.
    destruct (Get_loop _ _ _ _) as [w1' [[]| |]] eqn:El; try discriminate.
    assert (w1' = w1) as -> by congruence.
    apply (get_loop_spec self path files_dir filelist Ht) in El as (_ & Hp & Ho & Hbk).
    apply Hrun.
    + by rewrite Hbk.
    + exact Ho.
    + intros f Hin. split; [by apply Hall|by apply Hp].
Qed.

End StoreFacts.

(** Two keys of the sample under [run1/], downloaded by a first [get] and
    passed over by a second. *)
Lemma get_skips_existing_targets_witness :
  let get1 := get Sample.none_refused Sample.none_refused Sample.file_exists_in_bucket
                Sample.deliverer "run1/" in
  let filelist := ["run1/abcdef_reads.fastq.gz.ccp"; "run1/012345_notes.txt.zst.ccp"] in
  let files_dir := Sample.temp_dir // pathlib.of_string "files/" in
  tempdir Sample.deliverer !! 1 = Some files_dir
  /\ s3_bucket Sample.deliverer ∈ buckets Sample.world
  /\ Sample.file_exists_in_bucket (objects Sample.world) "run1/" = (true, filelist)
  /\ get1 (get1 Sample.world).1
     = (emits ([EvBucketsAll; EvFileExists "run1/"]
               ++ map (fun f => EvPrint (msg_skip (files_dir // pathlib.of_string f))) filelist)
          (get1 Sample.world).1,
        Ok None).
Proof.
  intros get1 filelist files_dir.
  assert (H1 : tempdir Sample.deliverer !! 1 = Some files_dir) by reflexivity.
  assert (H2 : s3_bucket Sample.deliverer ∈ buckets Sample.world) by left.
  assert (H3 : Sample.file_exists_in_bucket (objects Sample.world) "run1/" = (true, filelist))
    by reflexivity.
  split; [exact H1|]. split; [exact H2|]. split; [exact H3|].
  destruct (get_skips_existing_targets Sample.none_refused Sample.none_refused
              Sample.file_exists_in_bucket Sample.deliverer "run1/" files_dir filelist
              Sample.world H1 H2 H3) as (_ & _ & Htwice).
  apply Htwice.
  - assert (Hr : (get1 Sample.world).2 = Ok None) by (vm_compute; reflexivity).
    rewrite <- Hr. apply surjective_pairing.
  - intros f Hf. subst filelist.
    apply elem_of_cons in Hf as [->|Hf]; [vm_compute; reflexivity|].
    apply elem_of_cons in Hf as [->|Hf]; [vm_compute; reflexivity|].
    by apply not_elem_of_nil in Hf.
Defined.

(** C8. For a project without bucket, [put] raises [S3Error] and [get]
    does not: it returns [None], as it does after a download. Neither has
    transferred anything. *)
Lemma get_without_bucket_raises_nothing :
  put (fun _ _ => false) Sample.file_exists_in_bucket Sample.orphan
    (pathlib.of_string "/data/a.txt") None Sample.world
  = (emit EvBucketsAll Sample.world, Raise S3Error)
  /\ get Sample.none_refused Sample.none_refused Sample.file_exists_in_bucket
       Sample.orphan "run1/" Sample.world
     = (emit EvBucketsAll Sample.world, Ok None).
Proof.
  assert (Hn : s3_bucket Sample.orphan ∉ buckets Sample.world).
  { intros H. apply list_elem_of_singleton in H. discriminate H. }
  split; [by apply put_without_bucket|by apply get_without_bucket].
Qed.

(** The calls of a first and of a second [get] of the sample. *)
Example get_twice_log :
  let get1 := get Sample.none_refused Sample.none_refused Sample.file_exists_in_bucket
                Sample.deliverer "run1/" in
  let w1 := (get1 Sample.world).1 in
  let w2 := (get1 w1).1 in
  let dest := "/home/u/DataDelivery_2021-03-04_05-06-07/files/run1/" in
  List.filter (fun e => match e with EvDownload _ _ => true | _ => false end) (log w1)
  = [EvDownload "run1/abcdef_reads.fastq.gz.ccp" (dest +:+ "abcdef_reads.fastq.gz.ccp");
     EvDownload "run1/012345_notes.txt.zst.ccp" (dest +:+ "012345_notes.txt.zst.ccp")]
  /\ List.filter (fun e => match e with EvDownload _ _ => true | _ => false end) (log w2)
     = List.filter (fun e => match e with EvDownload _ _ => true | _ => false end) (log w1)
  /\ (get1 w1).2 = Ok None.
Proof. vm_compute. done. Qed.

Example put_in_folder :
  let r := put (fun _ _ => false) Sample.file_exists_in_bucket Sample.deliverer
             (pathlib.of_string "/data/run2/reads.fastq.gz") (Some "run2/") Sample.world in
  log r.1 = [EvBucketsAll; EvListObjects; EvPutObject "run2/";
             EvFileExists "run2/reads.fastq.gz";
             EvUpload "/data/run2/reads.fastq.gz" "run2/reads.fastq.gz"]
  /\ r.2 = Ok (Some "Success: /data/run2/reads.fastq.gz uploaded to S3!").
Proof. vm_compute. done. Qed.

Example timestamp_pads : timestamp 2021 3 4 5 6 7 = "2021-03-04_05-06-07".
Proof. reflexivity. Qed.

(** * Properties of the names *)

Section StringFacts.

Lemma append_cons c (s t : string) : String c s +:+ t = String c (s +:+ t).
Proof. reflexivity. Qed.

Lemma append_empty_r (s : string) : s +:+ "" = s.
Proof. induction s as [|c s IH]; [done|]. by rewrite append_cons, IH. Qed.

Lemma append_assoc (s t u : string) : (s +:+ t) +:+ u = s +:+ (t +:+ u).
Proof. induction s as [|c s IH]; [done|]. by rewrite !append_cons, IH. Qed.

Lemma length_append (s t : string) :
  String.length (s +:+ t) = String.length s + String.length t.
Proof. induction s as [|c s IH]; [done|]. rewrite append_cons. simpl. by rewrite IH. Qed.

Lemma contains_char_append c (s t : string) :
  PyStr.contains_char c (s +:+ t) = PyStr.contains_char c s || PyStr.contains_char c t.
Proof.
  induction s as [|a s IH]; [done|]. rewrite append_cons. simpl. rewrite IH.
  by rewrite orb_assoc.
Qed.

Lemma length_substring (s : string) :
  forall a b, a + b <= String.length s -> String.length (String.substring a b s) = b.
Proof.
  induction s as [|c s IH]; intros a b Hab; simpl in Hab.
  - assert (a = 0) as -> by lia. assert (b = 0) as -> by lia. done.
  - destruct a as [|a]; destruct b as [|b]; simpl; try done.
    + rewrite IH; [done|lia].
    + apply IH. lia.
    + apply IH. lia.
Qed.

Lemma substring_all (s : string) : String.substring 0 (String.length s) s = s.
Proof. induction s as [|c s IH]; [done|]. simpl. by rewrite IH. Qed.

(** [s[:a] + s[a:] == s]. *)
Lemma substring_split (s : string) :
  forall a, a <= String.length s ->
    String.substring 0 a s +:+ String.substring a (String.length s - a) s = s.
Proof.
  induction s as [|c s IH]; intros a Ha; simpl in Ha.
  - assert (a = 0) as -> by lia. done.
  - destruct a as [|a].
    + change (String.substring 0 0 (String c s)) with "".
      rewrite Nat.sub_0_r. rewrite substring_all. done.
    + simpl. rewrite append_cons. f_equal. apply IH. lia.
Qed.

Lemma contains_char_substring c (s : string) :
  forall a b, PyStr.contains_char c s = false ->
    PyStr.contains_char c (String.substring a b s) = false.
Proof.
  induction s as [|x s IH]; intros a b H.
  - by destruct a, b.
  - simpl in H. apply orb_false_iff in H as [Hx Hs].
    destruct a as [|a]; destruct b as [|b]; simpl; try done.
    + rewrite Hx. simpl. by apply IH.
    + by apply IH.
    + by apply IH.
Qed.

Lemma contains_char_lstrip c d (s : string) :
  PyStr.contains_char c s = false -> PyStr.contains_char c (PyStr.lstrip d s) = false.
Proof.
  induction s as [|x s IH]; [done|]. intros H. simpl.
  destruct (Ascii.eqb x d); [|done]. simpl in H. apply orb_false_iff in H as [_ Hs].
  by apply IH.
Qed.

Lemma contains_char_split c d (s : string) :
  PyStr.contains_char c s = false ->
  Forall (fun piece => PyStr.contains_char c piece = false) (PyStr.split_char d s).
Proof.
  induction s as [|x s IH]; intros H; simpl.
  - by repeat constructor.
  - simpl in H. apply orb_false_iff in H as [Hx Hs]. specialize (IH Hs).
    destruct (Ascii.eqb x d); [by constructor|].
    destruct (PyStr.split_char d s) as [|h t]; [by repeat constructor; simpl; rewrite Hx|].
    apply Forall_cons in IH as [Hh Ht]. constructor; [|done]. simpl. by rewrite Hx, Hh.
Qed.

(** A string without the separator is one piece. *)
Lemma split_char_none c (s : string) :
  PyStr.contains_char c s = false -> PyStr.split_char c s = [s].
Proof.
  induction s as [|x s IH]; [done|]. intros H. simpl in *.
  apply orb_false_iff in H as [Hx Hs]. rewrite Hx, (IH Hs). done.
Qed.

Lemma contains_char_concat c (l : list string) :
  Forall (fun piece => PyStr.contains_char c piece = false) l ->
  PyStr.contains_char c (PyStr.join "" l) = false.
Proof.
  unfold PyStr.join. induction l as [|x l IH]; intros H; [done|].
  apply Forall_cons in H as [Hx Hl]. destruct l as [|y l].
  - done.
  - change (String.concat "" (x :: y :: l)) with (x +:+ ("" +:+ String.concat "" (y :: l))).
    rewrite contains_char_append, Hx. simpl. by apply IH.
Qed.

End StringFacts.

Section NameFacts.

Lemma rfind_range c (s : string) : (-1 <= PyStr.rfind c s < PyStr.len s)%Z.
Proof.
  unfold PyStr.len. induction s as [|a s IH]; simpl; [lia|].
  destruct (0 <=? PyStr.rfind c s)%Z eqn:E; [apply Z.leb_le in E; lia|].
  destruct (Ascii.eqb a c); lia.
Qed.

(** [p.stem + p.suffix == p.name]. *)
Lemma stem_suffix (name : string) : pathlib.stem name +:+ pathlib.suffix name = name.
Proof.
  unfold pathlib.stem, pathlib.suffix.
  pose proof (rfind_range "." name) as Hr. unfold PyStr.len in *.
  destruct (_ && _) eqn:E; [|apply append_empty_r].
  apply andb_true_iff in E as [E1 E2]. apply Z.ltb_lt in E1, E2.
  unfold PyStr.slice_to, PyStr.slice_from. apply substring_split. lia.
Qed.

(** [with_suffix] puts the new suffix after the stem: of the suffixes of
    the name only the last one goes. *)
Lemma with_suffix_name_stem (name suffix : string) :
  name ≠ "" ->
  PyStr.contains_char "/" suffix = false ->
  PyStr.startswith "." suffix = true ->
  suffix ≠ "." ->
  pathlib.with_suffix_name name suffix = Some (pathlib.stem name +:+ suffix).
Proof.
  intros Hn Hslash Hdot Hne. unfold pathlib.with_suffix_name.
  rewrite Hslash, Hdot. simpl negb. rewrite andb_false_r. simpl orb.
  apply String.eqb_neq in Hne. rewrite Hne.
  apply String.eqb_neq in Hn. rewrite Hn.
  unfold pathlib.stem, pathlib.suffix.
  pose proof (rfind_range "." name) as Hr. unfold PyStr.len in *.
  destruct (_ && _) eqn:E; [|done].
  apply andb_true_iff in E as [E1 E2]. apply Z.ltb_lt in E1, E2.
  assert (Hlen : String.length (PyStr.slice_from (PyStr.rfind "." name) name)
                 = String.length name - Z.to_nat (PyStr.rfind "." name)).
  { unfold PyStr.slice_from. apply length_substring. lia. }
  destruct (PyStr.slice_from (PyStr.rfind "." name) name) as [|c old] eqn:Eold.
  { simpl in Hlen. lia. }
  change (String c old =? "")%string with false. cbv iota. rewrite Hlen.
  do 2 f_equal. unfold PyStr.slice_to. f_equal. lia.
Qed.

Lemma startswith_dot_cons (s : string) : PyStr.startswith "." (String "." s) = true.
Proof. by destruct s. Qed.

Lemma startswith_dot_inv c (s : string) :
  PyStr.startswith "." (String c s) = true -> c = "."%char.
Proof.
  unfold PyStr.startswith.
  change (String.prefix "." (String c s))
    with (if ascii_dec "." c then String.prefix "" s else false).
  destruct (ascii_dec "." c) as [<-|]; [done|]. intros H. discriminate H.
Qed.

(** What [create_encrypted_name] hands to [with_suffix] is a suffix that
    [with_suffix] accepts. *)
Lemma new_suffix_accepted (name : string) (no_compression : bool) :
  PyStr.contains_char "/" name = false ->
  let old_suffix := PyStr.join "" (pathlib.suffixes name) in
  let new_suffix := if no_compression then old_suffix else old_suffix +:+ ".zst" in
  PyStr.contains_char "/" (new_suffix +:+ ".ccp") = false
  /\ PyStr.startswith "." (new_suffix +:+ ".ccp") = true
  /\ 4 <= String.length (new_suffix +:+ ".ccp").
Proof.
  intros Hn old_suffix new_suffix.
  assert (Hold : PyStr.contains_char "/" old_suffix = false).
  { subst old_suffix. apply contains_char_concat. unfold pathlib.suffixes.
    destruct (PyStr.endswith_char "." name); [constructor|].
    apply Forall_fmap.
    pose proof (contains_char_split "/" "." _ (contains_char_lstrip "/" "." name Hn)) as H.
    destruct (PyStr.split_char "." (PyStr.lstrip "." name)) as [|h t]; [constructor|].
    apply Forall_cons in H as [_ Ht]. simpl tail.
    eapply Forall_impl; [exact Ht|]. intros piece Hp. simpl. exact Hp. }
  assert (Hstart : old_suffix = "" \/ PyStr.startswith "." old_suffix = true).
  { subst old_suffix. unfold pathlib.suffixes.
    destruct (PyStr.endswith_char "." name); [by left|].
    destruct (tail _) as [|x l]; [by left|]. right.
    destruct l; exact (startswith_dot_cons _). }
  split; [|split].
  - subst new_suffix. destruct no_compression;
      rewrite ?contains_char_append, Hold; reflexivity.
  - subst new_suffix.
    destruct Hstart as [->|Hs]; [by destruct no_compression|].
    destruct old_suffix as [|c old]; [discriminate|].
    apply startswith_dot_inv in Hs as ->.
    destruct no_compression; rewrite !append_cons; apply startswith_dot_cons.
  - rewrite length_append. simpl. lia.
Qed.

(** A name without separator is one part of a relative path. *)
Lemma of_string_name (name : string) :
  name ≠ "" -> name ≠ "." ->
  PyStr.contains_char "/" name = false ->
  pathlib.of_string name = {| is_abs := false; parts := [name] |}.
Proof.
  intros H1 H2 Hs. unfold pathlib.of_string. rewrite split_char_none by done.
  f_equal.
  - destruct name as [|c name]; [done|]. simpl in Hs.
    apply orb_false_iff in Hs as [Hc _]. unfold PyStr.startswith.
    change (String.prefix "/" (String c name))
      with (if ascii_dec "/" c then String.prefix "" name else false).
    destruct (ascii_dec "/" c) as [<-|]; [discriminate Hc|done].
  - rewrite filter_cons, decide_True by done. done.
Qed.

End NameFacts.

Section KeyFacts.

Lemma all_chars_append P (s t : string) :
  all_chars P (s +:+ t) = all_chars P s && all_chars P t.
Proof.
  induction s as [|c s IH]; [done|]. rewrite append_cons. simpl. rewrite IH.
  by rewrite andb_assoc.
Qed.

Lemma all_chars_substring P (s : string) :
  forall a b, all_chars P s = true -> all_chars P (String.substring a b s) = true.
Proof.
  induction s as [|c s IH]; intros a b H.
  - by destruct a, b.
  - simpl in H. apply andb_true_iff in H as [Hc Hs].
    destruct a as [|a]; destruct b as [|b]; simpl; try done.
    + rewrite Hc. simpl. by apply IH.
    + by apply IH.
    + by apply IH.
Qed.

Lemma hex_digit_is_hex d : is_hex_digit (hex_digit d) = true.
Proof.
  destruct d as [|p|p]; try reflexivity.
  do 5 (try (destruct p as [p|p|]); try reflexivity).
Qed.

Lemma hex_fixed_is_hex n : forall x, all_chars is_hex_digit (hex_fixed n x) = true.
Proof.
  induction n as [|n IH]; intros x; [done|]. simpl.
  rewrite all_chars_append, IH. simpl. by rewrite hex_digit_is_hex.
Qed.

Lemma length_hex_fixed n : forall x, String.length (hex_fixed n x) = n.
Proof.
  induction n as [|n IH]; intros x; [done|]. simpl.
  rewrite length_append, IH. simpl. lia.
Qed.

Lemma hex_no_slash (s : string) :
  all_chars is_hex_digit s = true -> PyStr.contains_char "/" s = false.
Proof.
  induction s as [|c s IH]; [done|]. simpl. intros H.
  apply andb_true_iff in H as [Hc Hs]. rewrite IH by done.
  destruct (Ascii.eqb_spec c "/") as [->|]; [discriminate Hc|done].
Qed.

(** The prefix of a remote name is six hexadecimal digits. *)
Lemma hex6_shape u :
  String.length (hex6 u) = 6 /\ all_chars is_hex_digit (hex6 u) = true.
Proof.
  unfold hex6, uuid_hex. split.
  - apply length_substring. rewrite length_hex_fixed. lia.
  - apply all_chars_substring, hex_fixed_is_hex.
Qed.

(** The remote key is the folder joined with the name, the name being
    six hexadecimal digits, an underscore and the name of the processed
    file. With the empty folder the key is that name alone. *)
Lemma bucket_filepath_shape u (filename : string) (folder : Path) :
  PyStr.contains_char "/" filename = false ->
  is_abs folder = false ->
  generate_bucket_filepath u filename folder
  = PyStr.join "/" (parts folder ++ [hex6 u +:+ "_" +:+ filename])
  /\ String.length (hex6 u) = 6
  /\ all_chars is_hex_digit (hex6 u) = true.
Proof.
  intros Hf Hrel. destruct (hex6_shape u) as [Hlen Hhex].
  split; [|done]. unfold generate_bucket_filepath.
  assert (Hnew : PyStr.join "" [hex6 u; "_"; filename] = hex6 u +:+ "_" +:+ filename)
    by reflexivity.
  rewrite Hnew. rewrite of_string_name.
  - unfold pathlib.join, pathlib.str. simpl. rewrite Hrel.
    by destruct (parts folder).
  - intros H. apply (f_equal String.length) in H. rewrite length_append, Hlen in H.
    simpl in H. lia.
  - intros H. apply (f_equal String.length) in H. rewrite length_append, Hlen in H.
    simpl in H. lia.
  - rewrite contains_char_append, (hex_no_slash _ Hhex). simpl.
    change ("_" +:+ filename) with (String "_" filename). simpl. exact Hf.
Qed.

(** What the code computes: the stem of [pathlib], which is the name
    without its last suffix only, then all the suffixes, then [.zst]
    where the file is to be compressed, then [.ccp]. *)
Lemma encrypted_name_shape (dest raw_file subpath : Path) (no_compression : bool) :
  let name := pathlib.name raw_file in
  let chain := PyStr.join "" (pathlib.suffixes name) in
  let processed :=
    pathlib.stem name
    +:+ ((if no_compression then chain else chain +:+ ".zst") +:+ ".ccp") in
  name ≠ "" ->
  PyStr.contains_char "/" name = false ->
  create_encrypted_name dest raw_file subpath no_compression
  = Ok (dest // subpath // {| is_abs := false; parts := [processed] |})
  /\ pathlib.name (dest // subpath // {| is_abs := false; parts := [processed] |}) = processed.
Proof.
  intros name chain processed Hne Hslash.
  destruct (new_suffix_accepted name no_compression Hslash) as (Hs1 & Hs2 & Hs3).
  fold chain in Hs1, Hs2, Hs3.
  set (arg := (if no_compression then chain else chain +:+ ".zst") +:+ ".ccp") in *.
  assert (Hstem : PyStr.contains_char "/" (pathlib.stem name) = false).
  { unfold pathlib.stem. destruct (_ && _); [|done].
    unfold PyStr.slice_to. by apply contains_char_substring. }
  assert (Hproc : pathlib.of_string processed = {| is_abs := false; parts := [processed] |}).
  { apply of_string_name.
    - intros H. apply (f_equal String.length) in H. subst processed.
      rewrite length_append in H. simpl in H. lia.
    - intros H. apply (f_equal String.length) in H. subst processed.
      rewrite length_append in H. simpl in H. lia.
    - subst processed. by rewrite contains_char_append, Hstem, Hs1. }
  split.
  - unfold create_encrypted_name, pathlib.with_suffix. fold name. fold chain. fold arg.
    rewrite with_suffix_name_stem; [|done|done|done|].
    + unfold pathlib.name at 1. cbn [parts]. rewrite last_last. fold processed.
      by rewrite Hproc.
    + intros H. rewrite H in Hs3. simpl in Hs3. lia.
  - unfold pathlib.join, pathlib.name. simpl. by rewrite last_last.
Qed.

(** Where the name has no suffix before its last one, that is the name
    followed by [.zst] where the file is to be compressed and by [.ccp]. *)
Lemma encrypted_name_one_suffix (dest raw_file subpath : Path) (no_compression : bool) :
  let name := pathlib.name raw_file in
  name ≠ "" ->
  PyStr.contains_char "/" name = false ->
  PyStr.join "" (pathlib.suffixes name) = pathlib.suffix name ->
  exists p,
    create_encrypted_name dest raw_file subpath no_compression = Ok p
    /\ pathlib.name p = name +:+ (if no_compression then "" else ".zst") +:+ ".ccp".
Proof.
  intros name Hne Hslash Hone.
  destruct (encrypted_name_shape dest raw_file subpath no_compression Hne Hslash) as [E Hn].
  eexists. split; [exact E|]. rewrite Hn. fold name. rewrite Hone.
  destruct no_compression.
  - change ("" +:+ ".ccp") with ".ccp".
    by rewrite <- append_assoc, stem_suffix.
  - by rewrite <- !append_assoc, stem_suffix.
Qed.

End KeyFacts.

(** C3. A name with two suffixes or more gets the inner ones twice:
    [with_suffix] replaces the last suffix only, and what it is given is
    the whole chain. The compressed file [b.tar.gz] becomes
    [b.tar.tar.gz.ccp], not [b.tar.gz.ccp], and [run1/reads.fastq.gz] gets
    the remote key [run1/abcdef_reads.fastq.fastq.gz.ccp]. *)
Lemma encrypted_name_repeats_inner_suffixes :
  create_encrypted_name Sample.dest (pathlib.of_string "/data/b.tar.gz") Path_empty true
  = Ok (pathlib.of_string "/tmp/dds/b.tar.tar.gz.ccp")
  /\ pathlib.name (pathlib.of_string "/tmp/dds/b.tar.tar.gz.ccp") = "b.tar.tar.gz.ccp"
  /\ "b.tar.tar.gz.ccp" ≠ "b.tar.gz" +:+ ".ccp"
  /\ (exists h e,
        init Sample.is_compressed Sample.uuid4 Sample.fs Sample.resolve ["run1"] Sample.dest
        = Ok h
        /\ data h !! "run1/reads.fastq.gz" = Some e
        /\ compressed e = true
        /\ pathlib.name (path_processed e) = "reads.fastq.fastq.gz.ccp"
        /\ path_remote e = "run1/abcdef_reads.fastq.fastq.gz.ccp").
Proof.
  split; [reflexivity|]. split; [reflexivity|]. split; [discriminate|].
  destruct (init Sample.is_compressed Sample.uuid4 Sample.fs Sample.resolve ["run1"]
              Sample.dest) as [h| |] eqn:E; try (vm_compute in E; discriminate).
  destruct (data h !! "run1/reads.fastq.gz") as [e|] eqn:Ee.
  - exists h, e. split; [done|]. split; [done|].
    revert Ee. injection E as <-. vm_compute. intros [= <-]. done.
  - exfalso. revert Ee. injection E as <-. vm_compute. discriminate.
Qed.

Example chain_of_tar_gz :
  PyStr.join "" (pathlib.suffixes "b.tar.gz") = ".tar.gz"
  /\ pathlib.suffix "b.tar.gz" = ".gz"
  /\ PyStr.join "" (pathlib.suffixes "a.txt") = pathlib.suffix "a.txt".
Proof. done. Qed.

(** * The walk over the local files *)

Section SlashFacts.

Lemma plain_spec s :
  plain s = true <-> s ≠ "" /\ s ≠ "." /\ PyStr.contains_char "/" s = false.
Proof.
  unfold plain. rewrite !andb_true_iff, !negb_true_iff, !String.eqb_neq. tauto.
Qed.

Lemma of_string_plain nm : plain nm = true -> pathlib.of_string nm = relative [nm].
Proof. intros (?&?&?)%plain_spec. by apply of_string_name. Qed.

Lemma append_inj_r (s t u : string) : s +:+ t = s +:+ u -> t = u.
Proof. induction s as [|c s IH]; [done|]. rewrite !append_cons. intros [= H]. auto. Qed.

Lemma join_cons2 sep (x y : string) l :
  PyStr.join sep (x :: y :: l) = x +:+ sep +:+ PyStr.join sep (y :: l).
Proof. reflexivity. Qed.

Lemma split_char_sep (x s : string) :
  PyStr.contains_char "/" x = false ->
  PyStr.split_char "/" (x +:+ String "/" s) = x :: PyStr.split_char "/" s.
Proof.
  induction x as [|c x IH]; intros Hx; [done|].
  simpl in Hx. apply orb_false_iff in Hx as [Hc Hx].
  rewrite append_cons. simpl. rewrite Hc, (IH Hx). done.
Qed.

(** [split] undoes [join] on names without the separator. *)
Lemma split_char_join l :
  l ≠ [] -> Forall (fun x => PyStr.contains_char "/" x = false) l ->
  PyStr.split_char "/" (PyStr.join "/" l) = l.
Proof.
  induction l as [|x [|y l] IH]; intros Hne Hall; [done| |].
  - apply Forall_inv in Hall. by apply split_char_none.
  - rewrite join_cons2. change ("/" +:+ ?s) with (String "/" s).
    rewrite split_char_sep by (by apply Forall_inv in Hall).
    rewrite IH; [done|done|by apply Forall_inv_tail in Hall].
Qed.

Lemma join_app_inj (a l1 l2 : list string) :
  l1 ≠ [] -> l2 ≠ [] ->
  PyStr.join "/" (a ++ l1) = PyStr.join "/" (a ++ l2) ->
  PyStr.join "/" l1 = PyStr.join "/" l2.
Proof.
  intros H1 H2. induction a as [|x a IH]; [done|]. simpl app.
  destruct (a ++ l1) as [|y1 t1] eqn:E1; [by destruct a, l1|].
  destruct (a ++ l2) as [|y2 t2] eqn:E2; [by destruct a, l2|].
  rewrite !join_cons2. intros H%append_inj_r%append_inj_r. auto.
Qed.

Lemma str_relative folder l :
  l ≠ [] ->
  pathlib.str (folder // relative l)
  = (if is_abs folder then "/" else "") +:+ PyStr.join "/" (parts folder ++ l).
Proof.
  intros Hl. unfold pathlib.str, pathlib.join, relative. simpl.
  destruct (is_abs folder); [done|].
  destruct (parts folder ++ l) eqn:E; [by destruct (parts folder), l|done].
Qed.

(** Two lists of names under one folder that print alike are the same. *)
Lemma str_relative_inj folder l1 l2 :
  l1 ≠ [] -> l2 ≠ [] ->
  Forall (fun x => PyStr.contains_char "/" x = false) l1 ->
  Forall (fun x => PyStr.contains_char "/" x = false) l2 ->
  pathlib.str (folder // relative l1) = pathlib.str (folder // relative l2) ->
  l1 = l2.
Proof.
  intros H1 H2 F1 F2. rewrite !str_relative by done.
  intros H%append_inj_r%join_app_inj; [|done..].
  rewrite <- (split_char_join l1), <- (split_char_join l2) by done. by rewrite H.
Qed.

Lemma join_relative folder a b :
  folder // relative a // relative b = folder // relative (a ++ b).
Proof. unfold pathlib.join, relative. simpl. by rewrite app_assoc. Qed.

Lemma join_relative_nil folder : folder // relative [] = folder.
Proof. destruct folder. unfold pathlib.join, relative. simpl. by rewrite app_nil_r. Qed.

Lemma name_join_plain parent nm : pathlib.name (parent // relative [nm]) = nm.
Proof. unfold pathlib.name, pathlib.join, relative. simpl. apply List.last_last. Qed.

End SlashFacts.

Section Walk.

Variable is_compressed : Path -> file -> bool * string.
Variable uuid4 : nat -> Z.

Lemma assoc_wf nm l c :
  wf_entries l -> assoc nm l = Some c ->
  plain nm = true /\ wf_node c /\ nm ∈ names l.
Proof.
  induction l as [|nm' n rest IH]; [done|]. simpl.
  intros (Hp & Hnot & Hn & Hrest). destruct (String.eqb_spec nm nm') as [->|Hne].
  - intros [= <-]. repeat split; [done..|]. apply list_elem_of_here.
  - intros H. destruct (IH Hrest H) as (?&?&?). repeat split; [done..|].
    by apply list_elem_of_further.
Qed.

Lemma node_at_wf q : forall n m,
  wf_node n -> node_at n q = Some m -> Forall (fun x => plain x = true) q /\ wf_node m.
Proof.
  induction q as [|nm q IH]; intros n m Hn H; simpl in H.
  - injection H as <-. done.
  - destruct n as [|ch|]; try discriminate.
    destruct (assoc nm ch) as [c|] eqn:E; [|discriminate].
    destruct (assoc_wf _ _ _ Hn E) as (Hp & Hc & _).
    destruct (IH c m Hc H) as [Hq Hm]. split; [by constructor|done].
Qed.

Lemma plain_no_slash l :
  Forall (fun x => plain x = true) l ->
  Forall (fun x => PyStr.contains_char "/" x = false) l.
Proof. intros H. eapply Forall_impl; [exact H|]. intros x Hx. by apply plain_spec in Hx as (_&_&?). Qed.

Lemma collect_file_walk dest folder path f file_info rng r :
  plain (pathlib.name path) = true ->
  collect_file is_compressed uuid4 dest folder path f file_info rng = Ok r ->
  covered folder (pathlib.name path) (File f) r.1 (describes is_compressed folder path)
  /\ framed folder (pathlib.name path) (File f) r.1 file_info.
Proof.
  intros Hp. unfold collect_file.
  destruct (is_compressed path f) as [is_c error] eqn:Ec.
  destruct (negb (String.eqb error "")); [discriminate|].
  destruct (create_encrypted_name dest path folder is_c) as [pp| |]; simpl; try discriminate.
  intros [= <-]. simpl. rewrite (of_string_plain _ Hp). split.
  - intros [|nm q] f' Hq; [|discriminate]. injection Hq as <-.
    eexists. rewrite lookup_insert_eq. split; [done|].
    unfold describes. simpl. rewrite app_nil_r, join_relative_nil.
    repeat split; [by destruct path|]. destruct path. simpl in *. by rewrite Ec.
  - intros k Hk. apply lookup_insert_ne. intros <-. by apply (Hk [] f).
Qed.

Lemma collect_walk :
  (forall n dest folder path file_info rng r,
      wf_node n -> plain (pathlib.name path) = true ->
      collect_path is_compressed uuid4 dest folder path n file_info rng = Ok r ->
      covered folder (pathlib.name path) n r.1 (describes is_compressed folder path)
      /\ framed folder (pathlib.name path) n r.1 file_info)
  /\ (forall l dest folder parent file_info rng r,
         wf_entries l ->
         collect_glob is_compressed uuid4 dest folder parent l file_info rng = Ok r ->
         (forall nm c, assoc nm l = Some c ->
            covered folder nm c r.1 (describes is_compressed folder (parent // relative [nm])))
         /\ (forall k, (forall nm c, assoc nm l = Some c ->
                          forall q f, node_at c q = Some (File f) ->
                                      k ≠ pathlib.str (folder // relative (nm :: q))) ->
                       r.1 !! k = file_info !! k)).
Proof.
  apply node_mutind.
  - intros f dest folder path file_info rng r _ Hp H. by apply collect_file_walk in H.
  - intros ch IH dest folder path file_info rng r Hwf Hp H. simpl in H, Hwf.
    rewrite (of_string_plain _ Hp) in H.
    destruct (collect_glob _ _ _ _ _ ch ∅ rng) as [r0| |] eqn:E; simpl in H; try discriminate.
    injection H as <-. simpl. destruct (IH _ _ _ _ _ _ Hwf E) as [Hcov Hfr]. split.
    + intros [|nm q] f Hq; [discriminate|]. simpl in Hq.
      destruct (assoc nm ch) as [c|] eqn:Ea; [|discriminate].
      destruct (Hcov nm c Ea q f Hq) as (e & He & Hd).
      rewrite join_relative in He. exists e. split; [by apply lookup_union_Some_l|].
      destruct Hd as (H1 & H2 & H3 & H4). unfold describes.
      rewrite name_join_plain in H2. rewrite join_relative in H2.
      rewrite H1 in H4 |- *. simpl in *. rewrite <- app_assoc in *. simpl in *.
      repeat split; try done.
    + intros k Hk. rewrite lookup_union_r; [done|]. rewrite Hfr; [done|].
      intros nm c Ea q f Hq. rewrite join_relative. apply (Hk (nm :: q) f).
      simpl. by rewrite Ea.
  - intros dest folder path file_info rng r _ _ [= <-]. split; [|done].
    intros [|nm q] f Hq; discriminate.
  - intros dest folder parent file_info rng r _ [= <-]. split; [|done].
    intros nm c Hnm. discriminate.
  - intros nm n IHn rest IHrest dest folder parent file_info rng r Hwf H. simpl in H.
    destruct Hwf as (Hp & Hnot & Hn & Hrest).
    rewrite (of_string_plain _ Hp) in H.
    destruct (collect_path _ _ _ _ _ n file_info rng) as [r0| |] eqn:E; simpl in H;
      try discriminate.
    assert (Hp' : plain (pathlib.name (parent // relative [nm])) = true)
      by (by rewrite name_join_plain).
    destruct (IHn _ _ _ _ _ _ Hn Hp' E) as [Hcov0 Hfr0].
    destruct (IHrest _ _ _ _ _ _ Hrest H) as [Hcov1 Hfr1].
    rewrite name_join_plain in Hcov0, Hfr0. split.
    + intros nm' c Ha. simpl in Ha. destruct (String.eqb_spec nm' nm) as [->|Hne].
      * injection Ha as <-. intros q f Hq.
        destruct (Hcov0 q f Hq) as (e & He & Hd). exists e. split; [|done].
        rewrite Hfr1; [done|]. intros nm2 c2 Ha2 q2 f2 Hq2 Heq.
        destruct (assoc_wf _ _ _ Hrest Ha2) as (Hp2 & Hc2 & Hin2).
        destruct (node_at_wf _ _ _ Hn Hq) as [Fq _].
        destruct (node_at_wf _ _ _ Hc2 Hq2) as [Fq2 _].
        apply str_relative_inj in Heq; [|done|done|apply plain_no_slash; by constructor..].
        injection Heq as -> _. done.
      * by apply Hcov1.
    + intros k Hk. rewrite Hfr1, Hfr0; [done| |].
      * intros q f Hq. apply (Hk nm n) with f; [|done]. simpl. by rewrite String.eqb_refl.
      * intros nm2 c2 Ha2 q2 f2 Hq2. apply (Hk nm2 c2) with f2; [|done]. simpl.
        destruct (String.eqb_spec nm2 nm) as [->|]; [|done].
        by destruct (assoc_wf _ _ _ Hrest Ha2) as (_ & _ & ?).
Qed.

End Walk.

Section CatalogueMore.

Variable is_compressed : Path -> file -> bool * string.
Variable uuid4 : nat -> Z.
Variable fs : node.
Variable resolve : string -> option Path.

#[local] Abbreviation Init := (init is_compressed uuid4 fs resolve).
#[local] Abbreviation Collect_file := (collect_file is_compressed uuid4).
#[local] Abbreviation Collect_path := (collect_path is_compressed uuid4).
#[local] Abbreviation Collect_glob := (collect_glob is_compressed uuid4).

Lemma omap_resolve_none data_list :
  Forall (fun x => resolve x = None) data_list -> omap resolve data_list = [].
Proof.
  induction 1 as [|x l Hx _ IH]; [done|]. simpl. by rewrite Hx.
Qed.

(** X4. Where none of the paths given exists (none given, for one),
    [LocalFileHandler.__init__] leaves through [os._exit(0)]: no handler
    is built, and the exit status is that of a success. *)
Theorem init_exits_when_no_path_exists data_list dest :
  Forall (fun x => resolve x = None) data_list ->
  Init data_list dest = OsExit 0.
Proof. intros H. unfold init. by rewrite (omap_resolve_none _ H). Qed.

(** The file branch returns where the detection reports no error. *)
Lemma collect_file_ok dest folder path f file_info rng :
  plain (pathlib.name path) = true ->
  (is_compressed path f).2 = "" ->
  exists pp e,
    create_encrypted_name dest path folder (is_compressed path f).1 = Ok pp
    /\ Collect_file dest folder path f file_info rng
       = Ok (<[pathlib.str (folder // relative [pathlib.name path]) := e]> file_info, S rng)
    /\ path_raw e = path.
Proof.
  intros Hp He. unfold collect_file. rewrite (of_string_plain _ Hp).
  destruct (is_compressed path f) as [is_c error]. simpl in He. subst error. simpl.
  apply plain_spec in Hp as (Hne & _ & Hs).
  destruct (encrypted_name_shape dest path folder is_c Hne Hs) as [-> _]. simpl.
  eexists _, _. split; [done|]. split; [done|]. done.
Qed.

Lemma collect_ok :
  (forall n dest folder path file_info rng,
      wf_node n -> plain (pathlib.name path) = true ->
      (forall path f, (is_compressed path f).2 = "") ->
      exists r, Collect_path dest folder path n file_info rng = Ok r)
  /\ (forall l dest folder parent file_info rng,
         wf_entries l ->
         (forall path f, (is_compressed path f).2 = "") ->
         exists r, Collect_glob dest folder parent l file_info rng = Ok r).
Proof.
  apply node_mutind.
  - intros f dest folder path file_info rng _ Hp Hc. simpl.
    destruct (collect_file_ok dest folder path f file_info rng Hp (Hc _ _))
      as (pp & e & _ & -> & _). by eexists.
  - intros ch IH dest folder path file_info rng Hwf Hp Hc. simpl.
    destruct (IH dest (folder // pathlib.of_string (pathlib.name path)) path ∅ rng Hwf Hc)
      as [r ->]. by eexists.
  - intros. by eexists.
  - intros. by eexists.
  - intros nm n IHn rest IHrest dest folder parent file_info rng (Hp & _ & Hn & Hrest) Hc.
    simpl. rewrite (of_string_plain _ Hp).
    destruct (IHn dest folder (parent // relative [nm]) file_info rng Hn) as [r ->];
      [by rewrite name_join_plain|done|].
    simpl. by apply IHrest.
Qed.

Lemma init_single x p n dest :
  resolve x = Some p ->
  node_at fs (parts p) = Some n ->
  Init [x] dest
  = r ← Collect_path dest Path_empty p n ∅ 0;
    Ok {| local_destination := dest; data := r.1; failed := ∅ |}.
Proof.
  intros Hx Hn. unfold init. simpl. rewrite Hx. simpl.
  change (remove_dups [p]) with [p]. simpl. rewrite Hn.
  by destruct (collect_path _ _ _ _ _ n ∅ 0) as [r| |].
Qed.

(** X1. The catalogue of one path given: where the detection of the
    compression reports no error, [__init__] returns, and every regular
    file below the path has its entry, under the key that joins the name
    of the path and the names down to the file with ["/"]; the entry has
    the path of the file, the folders above it as subpath, its size and
    the flag of the detection. No other key is in the catalogue: what is
    neither a regular file nor a directory is passed over. *)
Theorem every_file_below_is_catalogued x p n dest :
  resolve x = Some p ->
  node_at fs (parts p) = Some n ->
  wf_node n ->
  plain (pathlib.name p) = true ->
  (forall path f, (is_compressed path f).2 = "") ->
  exists h,
    Init [x] dest = Ok h
    /\ (forall q f, node_at n q = Some (File f) ->
          exists e,
            data h !! PyStr.join "/" (pathlib.name p :: q) = Some e
            /\ path_raw e = {| is_abs := is_abs p; parts := parts p ++ q |}
            /\ subpath e = relative (removelast (pathlib.name p :: q))
            /\ size_raw e = Z.of_nat (length (content f))
            /\ compressed e = (is_compressed (path_raw e) f).1)
    /\ (forall k, (forall q f, node_at n q = Some (File f) ->
                     k ≠ PyStr.join "/" (pathlib.name p :: q)) ->
                  data h !! k = None).
Proof.
  intros Hx Hn Hwf Hp Hc. rewrite (init_single _ _ _ _ Hx Hn).
  destruct (proj1 collect_ok n dest Path_empty p ∅ 0 Hwf Hp Hc) as [r Hr]. rewrite Hr.
  eexists. split; [done|]. simpl.
  destruct (proj1 (collect_walk is_compressed uuid4) _ _ _ _ _ _ _ Hwf Hp Hr) as [Hcov Hfr].
  split.
  - intros q f Hq. destruct (Hcov q f Hq) as (e & He & Hd). exists e.
    rewrite str_relative in He by done. split; [exact He|]. exact Hd.
  - intros k Hk. rewrite Hfr; [done|]. intros q f Hq.
    rewrite str_relative by done. by apply Hk with f.
Qed.

Lemma collect_file_coherent dest folder path f file_info rng r :
  map_Forall (coherent uuid4 dest) file_info ->
  Collect_file dest folder path f file_info rng = Ok r ->
  map_Forall (coherent uuid4 dest) r.1.
Proof.
  intros Hall. unfold collect_file.
  destruct (is_compressed path f) as [is_c error].
  destruct (negb (String.eqb error "")); [discriminate|].
  destruct (create_encrypted_name dest path folder is_c) as [pp| |] eqn:E; simpl;
    try discriminate.
  intros [= <-]. simpl. apply map_Forall_insert_2; [|exact Hall].
  split; [done|]. split; [done|]. by exists rng.
Qed.

Lemma collect_coherent dest :
  (forall n folder path file_info rng r,
      map_Forall (coherent uuid4 dest) file_info ->
      Collect_path dest folder path n file_info rng = Ok r ->
      map_Forall (coherent uuid4 dest) r.1)
  /\ (forall l folder parent file_info rng r,
         map_Forall (coherent uuid4 dest) file_info ->
         Collect_glob dest folder parent l file_info rng = Ok r ->
         map_Forall (coherent uuid4 dest) r.1).
Proof.
  apply node_mutind.
  - intros f folder path file_info rng r Hall H. by eapply collect_file_coherent.
  - intros ch IH folder path file_info rng r Hall H. simpl in H.
    destruct (collect_glob _ _ _ _ _ ch ∅ rng) as [r0| |] eqn:E; simpl in H; try discriminate.
    injection H as <-. simpl. apply map_Forall_union_2; [|exact Hall].
    eapply IH; [|exact E]. apply map_Forall_empty.
  - by intros folder path file_info rng r Hall [= <-].
  - by intros folder parent file_info rng r Hall [= <-].
  - intros nm n IHn rest IHrest folder parent file_info rng r Hall H. simpl in H.
    destruct (collect_path _ _ _ _ _ n file_info rng) as [r0| |] eqn:E; simpl in H;
      try discriminate.
    eapply IHrest; [|exact H]. eapply IHn; eauto.
Qed.

Lemma collect_file_info_local_coherent dest all_paths :
  forall file_info rng r,
    map_Forall (coherent uuid4 dest) file_info ->
    collect_file_info_local is_compressed uuid4 fs dest all_paths file_info rng = Ok r ->
    map_Forall (coherent uuid4 dest) r.1.
Proof.
  induction all_paths as [|path rest IH]; intros file_info rng r Hall H; simpl in H.
  - by injection H as <-.
  - destruct (node_at fs (parts path)) as [n|].
    + destruct (collect_path _ _ _ _ _ n file_info rng) as [r0| |] eqn:E; simpl in H;
        try discriminate.
      eapply IH; [|exact H]. eapply (proj1 (collect_coherent dest)); eauto.
    + simpl in H. eapply IH; eauto.
Qed.

(** X2. Whatever the paths given, every entry of the catalogue is filed
    under [str(subpath / name)] of its raw path, its processed path is
    what [create_encrypted_name] gives for its raw path, subpath and
    flag, and its remote path is what [generate_bucket_filepath] gives
    for the name of the processed path under the subpath, for one of the
    UUIDs drawn. The handler has the destination given and nothing
    failed. *)
Theorem catalogue_entries_are_coherent data_list dest h k e :
  Init data_list dest = Ok h ->
  data h !! k = Some e ->
  k = pathlib.str (subpath e // pathlib.of_string (pathlib.name (path_raw e)))
  /\ create_encrypted_name dest (path_raw e) (subpath e) (compressed e)
     = Ok (path_processed e)
  /\ (exists n, path_remote e
                = generate_bucket_filepath (uuid4 n) (pathlib.name (path_processed e))
                    (subpath e))
  /\ local_destination h = dest
  /\ failed h = ∅.
Proof.
  unfold init. intros H Hk.
  destruct (remove_dups (omap resolve data_list)) as [|p l]; [discriminate|].
  destruct (collect_file_info_local _ _ _ _ (p :: l) ∅ 0) as [r| |] eqn:E; simpl in H;
    try discriminate.
  injection H as <-. simpl in Hk. simpl.
  assert (Hall : map_Forall (coherent uuid4 dest) r.1).
  { eapply collect_file_info_local_coherent; [|exact E]. apply map_Forall_empty. }
  destruct (Hall k e Hk) as (?&?&?). done.
Qed.


End CatalogueMore.

Lemma sample_detection_without_error path f : (Sample.is_compressed path f).2 = "".
Proof.
  unfold Sample.is_compressed. destruct (content f) as [|b1 [|b2 l]]; [done| |].
  - by destruct b1.
  - destruct b1; try done. by destruct b2.
Qed.

Lemma init_exits_when_no_path_exists_witness :
  Forall (fun x => Sample.resolve x = None) ["nothing.txt"; "run2/reads.fastq.gz"]
  /\ init Sample.is_compressed Sample.uuid4 Sample.fs Sample.resolve
       ["nothing.txt"; "run2/reads.fastq.gz"] Sample.dest
     = OsExit 0.
Proof.
  assert (H : Forall (fun x => Sample.resolve x = None)
                ["nothing.txt"; "run2/reads.fastq.gz"])
    by (repeat constructor).
  split; [exact H|].
  exact (init_exits_when_no_path_exists _ _ _ _ _ _ H).
Defined.

Lemma every_file_below_is_catalogued_witness :
  exists h,
    init Sample.is_compressed Sample.uuid4 Sample.fs Sample.resolve ["run1"] Sample.dest
    = Ok h
    /\ exists e,
        data h !! "run1/reads.fastq.gz" = Some e
        /\ path_raw e = pathlib.of_string "/data/run1/reads.fastq.gz"
        /\ subpath e = pathlib.of_string "run1".
Proof.
  destruct (every_file_below_is_catalogued Sample.is_compressed Sample.uuid4 Sample.fs
              Sample.resolve "run1" (pathlib.of_string "/data/run1")
              (Dir (entry "reads.fastq.gz" (File Sample.b_tgz) no_entries)) Sample.dest)
    as (h & Hh & Hcov & _).
  - reflexivity.
  - reflexivity.
  - simpl. split; [reflexivity|]. split; [apply not_elem_of_nil|]. split; exact I.
  - reflexivity.
  - exact sample_detection_without_error.
  - exists h. split; [exact Hh|].
    destruct (Hcov ["reads.fastq.gz"] Sample.b_tgz eq_refl) as (e & He & Hr & Hs & _).
    exists e. split; [exact He|]. split; [exact Hr|exact Hs].
Defined.

Lemma catalogue_entries_are_coherent_witness :
  init Sample.is_compressed Sample.uuid4 Sample.fs Sample.resolve ["a.txt"] Sample.dest
  = Ok Sample.a_handler
  /\ data Sample.a_handler !! "a.txt" = Some Sample.a_entry
  /\ "a.txt"
     = pathlib.str (subpath Sample.a_entry
                    // pathlib.of_string (pathlib.name (path_raw Sample.a_entry)))
  /\ create_encrypted_name Sample.dest (path_raw Sample.a_entry) (subpath Sample.a_entry)
       (compressed Sample.a_entry)
     = Ok (path_processed Sample.a_entry).
Proof.
  assert (H1 : init Sample.is_compressed Sample.uuid4 Sample.fs Sample.resolve ["a.txt"]
                 Sample.dest = Ok Sample.a_handler) by (vm_compute; reflexivity).
  assert (H2 : data Sample.a_handler !! "a.txt" = Some Sample.a_entry)
    by (vm_compute; reflexivity).
  split; [exact H1|]. split; [exact H2|].
  destruct (catalogue_entries_are_coherent _ _ _ _ _ _ _ _ _ H1 H2) as (Hk & Hp & _).
  split; [exact Hk|exact Hp].
Defined.


(** * The status dictionary as a whole *)

Lemma status_step_destination existing_files overwrite_ok x st st' :
  status_step existing_files overwrite_ok x st = Ok st' ->
  local_destination st'.1 = local_destination st.1.
Proof.
  destruct st as [h sd]. unfold status_step.
  destruct (bool_decide _ && negb overwrite_ok).
  - destruct (data h !! x); [|discriminate]. by intros [= <-].
  - destruct (bool_decide _); [destruct overwrite_ok|].
    + destruct (data h !! x), (existing_files !! x); simpl; try discriminate.
      by intros [= <-].
    + simpl. by intros [= <-].
    + simpl. by intros [= <-].
Qed.

Lemma status_loop_destination existing_files overwrite_ok keys :
  forall st st',
    status_loop existing_files overwrite_ok keys st = Ok st' ->
    local_destination st'.1 = local_destination st.1.
Proof.
  induction keys as [|x keys IH]; intros st st' H; simpl in H.
  - by injection H as <-.
  - destruct (status_step existing_files overwrite_ok x st) as [st1| |] eqn:E;
      simpl in H; try discriminate.
    rewrite (IH _ _ H). by eapply status_step_destination.
Qed.

(** X5. [create_upload_status_dict] returns for every handler and every
    answer of the check: it raises nothing. The dictionary it returns has
    the initial status for exactly the keys left in [self.data]; a key of
    the catalogue is either left there or, where it exists remotely and
    may not be overwritten, moved to [self.failed]; no key comes from
    elsewhere, and what had failed before stays as it was. *)
Theorem status_dict_splits_the_catalogue h existing_files overwrite_ok :
  exists h' status_dict,
    create_upload_status_dict h existing_files overwrite_ok = Ok (h', status_dict)
    /\ local_destination h' = local_destination h
    /\ (forall k, status_dict !! k = (fun _ => initial_status) <$> data h' !! k)
    /\ (forall k e, data h !! k = Some e ->
          (data h' !! k = None /\ failed h' !! k = Some (already_uploaded e)
           /\ is_Some (existing_files !! k) /\ overwrite_ok = false)
          \/ (is_Some (data h' !! k) /\ failed h' !! k = failed h !! k
              /\ (existing_files !! k = None \/ overwrite_ok = true)))
    /\ (forall k, data h !! k = None ->
          data h' !! k = None /\ failed h' !! k = failed h !! k).
Proof.
  destruct (create_upload_status_dict_spec h existing_files overwrite_ok)
    as (h' & sd & E & T & K).
  exists h', sd. split; [exact E|]. split.
  { unfold create_upload_status_dict in E. by apply status_loop_destination in E. }
  assert (Hold : forall k, data h !! k = None ->
            data h' !! k = None /\ failed h' !! k = failed h !! k /\ sd !! k = None).
  { intros k Hk. destruct (K k Hk) as (H1 & H2 & H3). simpl in *.
    rewrite H1, H2, H3. by rewrite lookup_empty. }
  assert (Hnew : forall k e, data h !! k = Some e ->
            (data h' !! k = None /\ failed h' !! k = Some (already_uploaded e)
             /\ sd !! k = None /\ is_Some (existing_files !! k) /\ overwrite_ok = false)
            \/ (is_Some (data h' !! k) /\ failed h' !! k = failed h !! k
                /\ sd !! k = Some initial_status
                /\ (existing_files !! k = None \/ overwrite_ok = true))).
  { intros k e Hk. specialize (T k (mk_is_Some _ _ Hk)). unfold key_treated in T.
    simpl in T. rewrite Hk in T. simpl in T.
    destruct (existing_files !! k) as [r|] eqn:Ex; [destruct overwrite_ok|].
    - right. destruct T as (-> & -> & ->).
      split; [by eexists|]. split; [done|]. split; [done|]. by right.
    - left. destruct T as (-> & -> & ->). rewrite lookup_empty.
      split; [done|]. split; [done|]. split; [done|]. split; [by eexists|done].
    - right. destruct T as (-> & -> & ->).
      split; [by eexists|]. split; [done|]. split; [done|]. by left. }
  split; [|split].
  - intros k. destruct (data h !! k) as [e|] eqn:Hk.
    + destruct (Hnew k e Hk) as [(-> & _ & -> & _)|([e' ->] & _ & -> & _)]; done.
    + destruct (Hold k Hk) as (-> & _ & ->). done.
  - intros k e Hk. destruct (Hnew k e Hk) as [(?&?&?&?&?)|(?&?&?&?)]; [left|right]; done.
  - intros k Hk. destruct (Hold k Hk) as (?&?&?). done.
Qed.

(** X6. Where none of the files of the catalogue is reported as
    existing, [create_upload_status_dict] leaves the handler as it is and
    returns the initial status for each of its keys, with or without
    [overwrite]. *)
Theorem nothing_uploaded_before h existing_files overwrite_ok :
  (forall k, is_Some (data h !! k) -> existing_files !! k = None) ->
  create_upload_status_dict h existing_files overwrite_ok
  = Ok (h, (fun _ => initial_status) <$> data h).
Proof.
  intros Hnone.
  destruct (create_upload_status_dict_spec h existing_files overwrite_ok)
    as (h' & sd & E & T & K).
  rewrite E. f_equal.
  assert (Hd : local_destination h' = local_destination h).
  { unfold create_upload_status_dict in E. by apply status_loop_destination in E. }
  assert (Hk : forall k, data h' !! k = data h !! k /\ failed h' !! k = failed h !! k
                         /\ sd !! k = (fun _ => initial_status) <$> data h !! k).
  { intros k. destruct (data h !! k) as [e|] eqn:Hk.
    - specialize (T k (mk_is_Some _ _ Hk)). unfold key_treated in T.
      rewrite (Hnone k (mk_is_Some _ _ Hk)) in T. simpl in T.
      destruct T as (-> & -> & ->). by rewrite Hk.
    - destruct (K k Hk) as (H1 & H2 & H3). simpl in *. rewrite H1, H2, H3, Hk.
      by rewrite lookup_empty. }
  f_equal.
  - destruct h as [d1 m1 f1], h' as [d2 m2 f2]. simpl in *. subst d2. f_equal.
    + apply map_eq. intros k. apply (Hk k).
    + apply map_eq. intros k. apply (Hk k).
  - apply map_eq. intros k. rewrite lookup_fmap. apply (Hk k).
Qed.

(** The catalogue of the sample and an empty answer of the check. *)
Lemma nothing_uploaded_before_witness :
  (forall k, is_Some (data Sample.handler !! k) ->
             (∅ : gmap string string) !! k = None)
  /\ create_upload_status_dict Sample.handler ∅ false
     = Ok (Sample.handler, (fun _ => initial_status) <$> data Sample.handler).
Proof.
  assert (H : forall k, is_Some (data Sample.handler !! k) ->
                        (∅ : gmap string string) !! k = None)
    by (intros k _; apply lookup_empty).
  split; [exact H|]. exact (nothing_uploaded_before _ _ _ H).
Defined.

(** * The generators under faults *)

Section ReadingFacts.

Variable SEGMENT_SIZE_RAW : nat.
Variable compress_file : node -> Path -> list bytes.
Variable fs : node.

#[local] Abbreviation Read_step := (read_step SEGMENT_SIZE_RAW).
#[local] Abbreviation Read_next := (read_next SEGMENT_SIZE_RAW fs).
#[local] Abbreviation Read_loop := (read_loop SEGMENT_SIZE_RAW fs).
#[local] Abbreviation Read_all := (read_all SEGMENT_SIZE_RAW fs).
#[local] Abbreviation Stream_next := (stream_next SEGMENT_SIZE_RAW compress_file fs).
#[local] Abbreviation Stream_nexts := (stream_nexts SEGMENT_SIZE_RAW compress_file fs).

Lemma ceil_step len :
  0 < SEGMENT_SIZE_RAW -> 0 < len ->
  (len + SEGMENT_SIZE_RAW - 1) / SEGMENT_SIZE_RAW
  = S ((len - SEGMENT_SIZE_RAW + SEGMENT_SIZE_RAW - 1) / SEGMENT_SIZE_RAW).
Proof.
  intros Hn Hl. destruct (le_lt_dec SEGMENT_SIZE_RAW len) as [Hge|Hlt].
  - replace (len + SEGMENT_SIZE_RAW - 1) with ((len - 1) + 1 * SEGMENT_SIZE_RAW) by lia.
    rewrite Nat.div_add by lia.
    replace (len - SEGMENT_SIZE_RAW + SEGMENT_SIZE_RAW - 1) with (len - 1) by lia. lia.
  - replace (len - SEGMENT_SIZE_RAW + SEGMENT_SIZE_RAW - 1) with (SEGMENT_SIZE_RAW - 1) by lia.
    rewrite (Nat.div_small (SEGMENT_SIZE_RAW - 1)) by lia.
    replace (len + SEGMENT_SIZE_RAW - 1) with ((len - 1) + 1 * SEGMENT_SIZE_RAW) by lia.
    rewrite Nat.div_add by lia. rewrite Nat.div_small by lia. done.
Qed.

(** The chunks of a file read without a fault: full ones, then what is
    left. *)
Lemma read_loop_chunks fuel :
  forall rest k,
    0 < SEGMENT_SIZE_RAW -> length rest < fuel ->
    let chunks := (Read_loop fuel (R_open rest k None)).1 in
    length chunks = (length rest + SEGMENT_SIZE_RAW - 1) / SEGMENT_SIZE_RAW
    /\ Forall (fun c => 0 < length c <= SEGMENT_SIZE_RAW) chunks
    /\ (forall i c, chunks !! i = Some c -> S i < length chunks ->
                    length c = SEGMENT_SIZE_RAW).
Proof.
  induction fuel as [|fuel IH]; intros rest k Hn Hlen; [lia|].
  cbv zeta. simpl. rewrite read_step_all by done.
  destruct rest as [|b rest].
  { simpl. rewrite Nat.div_small by lia. split; [done|]. split; [constructor|].
    intros i c Hi. by rewrite lookup_nil in Hi. }
  specialize (IH (drop SEGMENT_SIZE_RAW (b :: rest)) (S k) Hn).
  destruct (Read_loop fuel (R_open (drop SEGMENT_SIZE_RAW (b :: rest)) (S k) None))
    as [chunks ev] eqn:E.
  destruct IH as (Hc & Hall & Hfull); [rewrite length_drop; simpl in *; lia|].
  simpl in Hc, Hall, Hfull. simpl fst.
  assert (Htake : length (take SEGMENT_SIZE_RAW (b :: rest))
                  = Nat.min SEGMENT_SIZE_RAW (length (b :: rest)))
    by apply length_take.
  rewrite length_drop in Hc. split; [|split].
  - simpl length at 1. rewrite Hc. symmetry. apply ceil_step; [done|simpl; lia].
  - constructor; [|done]. rewrite Htake. simpl. lia.
  - intros [|i] c Hi Hlt; simpl in Hi.
    + injection Hi as <-. rewrite Htake. simpl length in Hlt.
      assert (0 < length chunks) as Hpos by lia. rewrite Hc in Hpos.
      destruct (le_lt_dec (length (b :: rest)) SEGMENT_SIZE_RAW) as [Hle|Hgt]; [|lia].
      replace (length (b :: rest) - SEGMENT_SIZE_RAW + SEGMENT_SIZE_RAW - 1)
        with (SEGMENT_SIZE_RAW - 1) in Hpos by lia.
      rewrite Nat.div_small in Hpos by lia. lia.
    + apply (Hfull i c Hi). simpl in Hlt. lia.
Qed.

(** The loop over a file just opened is the loop from its first byte,
    after the event of the opening. *)
Lemma read_loop_new fuel p f :
  node_at fs (parts p) = Some (File f) ->
  Read_loop (S fuel) (R_new p)
  = ((Read_loop (S fuel) (R_open (content f) 0 (fault f))).1,
     EvReadFile p :: (Read_loop (S fuel) (R_open (content f) 0 (fault f))).2).
Proof.
  intros Hf. simpl. rewrite Hf.
  destruct (Read_step (content f) 0 (fault f)) as [[[c|] r'] ev]; [|done].
  by destruct (Read_loop fuel r').
Qed.

(** X7. [read_file] on a file read without error yields the file in
    order, in as many chunks as the chunk size needs (the size divided by
    the chunk size, rounded up): none is empty, none is longer than the
    chunk size, and all but the last have exactly that size. *)
Theorem read_file_chunks p f :
  0 < SEGMENT_SIZE_RAW ->
  node_at fs (parts p) = Some (File f) ->
  fault f = None ->
  let chunks := (Read_all (R_new p)).1 in
  concat chunks = content f
  /\ length chunks = (length (content f) + SEGMENT_SIZE_RAW - 1) / SEGMENT_SIZE_RAW
  /\ Forall (fun c => 0 < length c <= SEGMENT_SIZE_RAW) chunks
  /\ (forall i c, chunks !! i = Some c -> S i < length chunks ->
                  length c = SEGMENT_SIZE_RAW)
  /\ (Read_all (R_new p)).2 = [EvReadFile p].
Proof.
  intros Hn Hf Hflt. cbv zeta. unfold read_all, read_fuel. rewrite Hf.
  rewrite (read_loop_new _ p f Hf), Hflt. cbn [fst snd].
  destruct (read_loop_whole SEGMENT_SIZE_RAW fs (S (length (content f))) (content f) 0 Hn)
    as (chunks & E & Hcat); [lia|].
  destruct (read_loop_chunks (S (length (content f))) (content f) 0 Hn) as (H1 & H2 & H3);
    [lia|].
  rewrite E in H1, H2, H3 |- *. done.
Qed.


(** What [read] gives when it gives a chunk, from any state of the
    generator. *)
Lemma read_next_yield r c r' ev :
  Read_next r = (Some c, r', ev) -> read_fuel fs r' < read_fuel fs r.
Proof.
  destruct r as [p|rest k flt|]; simpl; [| |discriminate].
  - destruct (node_at fs (parts p)) as [[f| |]|]; try discriminate.
    destruct (Read_step (content f) 0 (fault f)) as [[c0 r0] ev0] eqn:E.
    intros [= -> -> <-]. apply read_step_yield in E as (_ & _ & -> & _ & Hlt). simpl. lia.
  - intros E. apply read_step_yield in E as (_ & _ & -> & _ & Hlt). simpl. lia.
Qed.

(** The branch for compressed files is the loop over [read_file]: it
    yields the chunks of the loop, whatever ends it, and then writes the
    checksum of what it has yielded. *)
Lemma read_branch_is_read_loop fuel :
  forall r cs h file e,
    read_fuel fs r <= fuel ->
    data h !! file = Some e ->
    let chunks := (Read_loop fuel r).1 in
    (forall j, j <= length chunks ->
       let s := Stream_nexts j h (G_read file r cs) in
       signals s = map Yield (take j chunks) /\ final_handler s = h)
    /\ (let s := Stream_nexts (S (length chunks)) h (G_read file r cs) in
        signals s = map Yield chunks ++ [StopIteration]
        /\ final_handler s = checksum_written h file e (fold_left sha_update chunks cs)
        /\ final_gen s = G_finished
        /\ run_events s = (Read_loop fuel r).2).
Proof.
  induction fuel as [|fuel IH]; intros r cs h file e Hfuel He.
  { destruct r as [p|rest k flt|]; simpl in Hfuel; [|lia..].
    destruct (node_at fs (parts p)) as [[f| |]|]; lia. }
  cbv zeta. simpl read_loop.
  destruct (Read_next r) as [[[c|] r'] ev] eqn:E.
  - pose proof (read_next_yield _ _ _ _ E) as Hlt.
    destruct (IH r' (sha_update cs c) h file e) as [Hpre Hend]; [lia|done|].
    destruct (Read_loop fuel r') as [chunks ev'] eqn:El. cbn [fst snd] in *.
    assert (Hstep : Stream_next h (G_read file r cs)
                    = {| sig := Yield c; handler_after := h;
                         gen_after := G_read file r' (sha_update cs c); events := ev |}).
    { simpl. unfold read_branch. by rewrite E. }
    split.
    + intros [|j] Hj; [done|]. simpl in Hj. destruct (Hpre j) as [Hs Hh]; [lia|].
      rewrite signals_S, final_handler_S, Hstep. simpl sig. simpl handler_after.
      simpl gen_after. by rewrite Hs, Hh.
    + destruct Hend as (Hs & Hh & Hg & Hev). simpl length.
      rewrite (signals_S _ _ _ (S (length chunks))),
        (final_handler_S _ _ _ (S (length chunks))),
        (final_gen_S _ _ _ (S (length chunks))),
        (run_events_S _ _ _ (S (length chunks))), Hstep.
      simpl sig. simpl handler_after. simpl gen_after. simpl events.
      by rewrite Hs, Hh, Hg, Hev.
  - cbn [fst snd]. split.
    + intros j Hj. simpl in Hj. by assert (j = 0) as -> by lia.
    + simpl. unfold read_branch. rewrite E. unfold finish. rewrite He. simpl.
      by rewrite app_nil_r.
Qed.

(** The loop over a file whose read number [k] fails. *)
Lemma read_loop_fault k fuel :
  forall rest j,
    0 < SEGMENT_SIZE_RAW -> j <= k ->
    (k - j) * SEGMENT_SIZE_RAW < length rest + SEGMENT_SIZE_RAW ->
    length rest < fuel ->
    exists chunks,
      Read_loop fuel (R_open rest j (Some k)) = (chunks, [EvWarning])
      /\ length chunks = k - j
      /\ concat chunks = take ((k - j) * SEGMENT_SIZE_RAW) rest.
Proof.
  induction fuel as [|fuel IH]; intros rest j Hn Hj Hk Hlen; [lia|].
  simpl. unfold read_step. case_bool_decide as Hd.
  { injection Hd as ->. exists []. rewrite Nat.sub_diag. done. }
  assert (j < k) as Hlt by (destruct (decide (j = k)); [congruence|lia]).
  destruct rest as [|b rest].
  { simpl in Hk. assert (1 <= k - j) by lia. nia. }
  destruct (take SEGMENT_SIZE_RAW (b :: rest)) as [|c0 cr] eqn:Et.
  { destruct SEGMENT_SIZE_RAW; [lia|discriminate]. }
  rewrite <- Et.
  destruct (IH (drop SEGMENT_SIZE_RAW (b :: rest)) (S j) Hn) as (chunks & E & Hl & Hc).
  - lia.
  - rewrite length_drop.
    destruct (le_lt_dec SEGMENT_SIZE_RAW (length (b :: rest))); [|nia].
    replace (k - S j) with (k - j - 1) by lia. nia.
  - rewrite length_drop. simpl in *. lia.
  - rewrite E. exists (take SEGMENT_SIZE_RAW (b :: rest) :: chunks).
    split; [done|]. split; [simpl; lia|]. simpl concat. rewrite Hc.
    replace ((k - j) * SEGMENT_SIZE_RAW)
      with (SEGMENT_SIZE_RAW + (k - S j) * SEGMENT_SIZE_RAW) by nia.
    by rewrite take_take_drop.
Qed.


(** X8. An [OSError] at the read number [k] of a compressed file does
    not reach the caller: [stream_from_file] yields the [k] chunks read
    before it, logs a warning, ends with [StopIteration] like a complete
    stream, and writes as checksum the digest of the bytes it has
    yielded, not that of the file. *)
Theorem stream_stops_at_read_error h file e f k :
  0 < SEGMENT_SIZE_RAW ->
  data h !! file = Some e ->
  compressed e = true ->
  node_at fs (parts (path_raw e)) = Some (File f) ->
  fault f = Some k ->
  k * SEGMENT_SIZE_RAW < length (content f) + SEGMENT_SIZE_RAW ->
  let s := Stream_nexts (S k) h (G_new file) in
  exists chunks,
    length chunks = k
    /\ concat chunks = take (k * SEGMENT_SIZE_RAW) (content f)
    /\ signals s = map Yield chunks ++ [StopIteration]
    /\ run_events s = [EvReadFile (path_raw e); EvWarning]
    /\ data (final_handler s)
       = <[file := with_checksum
                     (SHA256.hexdigest_of (take (k * SEGMENT_SIZE_RAW) (content f))) e]>
           (data h).
Proof.
  intros Hn He Hc Hf Hflt Hk. cbv zeta.
  destruct (stream_nexts_new SEGMENT_SIZE_RAW compress_file fs h file e f (S k) He Hc Hf)
    as (Hs & Hh & Hev).
  destruct Hev as [_ Hev]; [lia|]. rewrite Hs, Hh, Hev, Hflt.
  destruct (read_loop_fault k (S (length (content f))) (content f) 0 Hn)
    as (chunks & E & Hl & Hcat); [lia..|].
  rewrite Nat.sub_0_r in Hl, Hcat.
  destruct (read_branch_is_read_loop (S (length (content f)))
              (R_open (content f) 0 (Some k)) hashlib_sha256 h file e) as [_ Hend];
    [simpl; lia|done|].
  rewrite E in Hend. cbn [fst snd] in Hend. rewrite Hl in Hend.
  destruct Hend as (Hs' & Hh' & _ & Hev').
  exists chunks. rewrite Hs', Hh', Hev'. repeat split; try done.
  unfold checksum_written. cbn [data set_data].
  rewrite fold_update by (unfold between_calls; simpl; lia).
  by rewrite hexdigest_one_pass, Hcat.
Qed.

Lemma read_next_unreadable p :
  (forall f, node_at fs (parts p) ≠ Some (File f)) ->
  Read_next (R_new p) = (None, R_closed, [EvReadFile p; EvWarning]).
Proof.
  intros Hp. simpl. destruct (node_at fs (parts p)) as [[f| |]|]; try done.
  by destruct (Hp f).
Qed.

(** X9. Where the raw path of an entry is not a regular file that can
    be opened, [stream_from_file] raises nothing: the read loop ends at
    once with a warning, the generator yields nothing of its own (only
    what [compress_file] gives, for an entry not compressed) and the
    checksum written is the SHA-256 digest of the empty message. *)
Theorem unreadable_file_gets_empty_digest h file e :
  data h !! file = Some e ->
  (forall f, node_at fs (parts (path_raw e)) ≠ Some (File f)) ->
  let out := if compressed e then [] else compress_file fs (path_raw e) in
  let s := Stream_nexts (S (length out)) h (G_new file) in
  signals s = map Yield out ++ [StopIteration]
  /\ data (final_handler s)
     = <[file := with_checksum
                   "e3b0c44298fc1c149afbf4c8996fb92427ae41e4649b934ca495991b7852b855" e]>
         (data h)
  /\ run_events s
     = [EvReadFile (path_raw e); EvWarning]
       ++ (if compressed e then [] else [EvCompressFile (path_raw e)]).
Proof.
  intros He Hp. cbv zeta. pose proof (read_next_unreadable _ Hp) as Hr.
  destruct (compressed e) eqn:Hc.
  - cbn [length]. rewrite signals_S, final_handler_S, run_events_S.
    assert (Hstep : Stream_next h (G_new file)
                    = finish h file hashlib_sha256 [EvReadFile (path_raw e); EvWarning]).
    { cbn [stream_next]. rewrite He, Hc. unfold read_branch. by rewrite Hr. }
    rewrite Hstep. unfold finish. rewrite He. cbn [sig handler_after gen_after events].
    cbn [stream_nexts signals final_handler run_events map app data set_data].
    by rewrite sha256_empty.
  - destruct (stream_next_new_uncompressed SEGMENT_SIZE_RAW compress_file fs h file e He Hc)
      as (Hs & Hh & Hg & Hev & Hev0).
    assert (Hall : Read_all (R_new (path_raw e)) = ([], [EvReadFile (path_raw e); EvWarning])).
    { unfold read_all. destruct (read_fuel fs (R_new (path_raw e))) eqn:Ef.
      - simpl in Ef. destruct (node_at fs (parts (path_raw e))) as [[f| |]|]; discriminate.
      - cbn [read_loop]. by rewrite Hr. }
    rewrite Hall in Hs, Hh, Hg, Hev, Hev0. cbn [fst snd fold_left] in Hs, Hh, Hg, Hev, Hev0.
    destruct (compress_branch_run SEGMENT_SIZE_RAW compress_file fs
                (compress_file fs (path_raw e)) hashlib_sha256 h file e He) as [_ Hend].
    destruct Hend as (Hs' & Hh' & _ & Hev').
    rewrite signals_S, final_handler_S, run_events_S in *.
    rewrite Hev0 in Hev'. rewrite app_nil_l in Hev'.
    rewrite Hs, Hh, Hg, Hev, Hs', Hh', Hev'.
    unfold checksum_written. cbn [data set_data]. rewrite sha256_empty.
    by rewrite app_nil_r.
Qed.


End ReadingFacts.

Section DigestShape.

Lemma length_round st kw : length (SHA256.round st kw) = length st.
Proof.
  unfold SHA256.round.
  by destruct st as [|a [|b [|c [|d [|e [|f [|g [|h [|i st]]]]]]]]].
Qed.

Lemma length_compress h block : length (SHA256.compress h block) = length h.
Proof.
  unfold SHA256.compress. rewrite length_map, length_combine.
  assert (forall l st, length (fold_left SHA256.round l st) = length st) as ->; [|lia].
  induction l as [|kw l IH]; intros st; [done|]. simpl. by rewrite IH, length_round.
Qed.

Lemma length_blocks n : forall h bs, length (SHA256.blocks n h bs) = length h.
Proof.
  induction n as [|n IH]; intros h bs; [done|]. simpl. by rewrite IH, length_compress.
Qed.

Lemma hex_of_words_shape ws :
  String.length (SHA256.hex_of_words ws) = 8 * length ws
  /\ all_chars is_hex_digit (SHA256.hex_of_words ws) = true.
Proof.
  unfold SHA256.hex_of_words. induction ws as [|w ws [IH1 IH2]]; [done|].
  assert (E : String.concat "" (map (hex_fixed 8) (w :: ws))
              = hex_fixed 8 w +:+ String.concat "" (map (hex_fixed 8) ws)).
  { cbn [map String.concat]. destruct (map (hex_fixed 8) ws) eqn:Em; [|done].
    cbn [String.concat]. by rewrite append_empty_r. }
  rewrite E, length_append, all_chars_append, length_hex_fixed, hex_fixed_is_hex, IH1, IH2.
  simpl length. split; [lia|done].
Qed.

Lemma whole_state_new : whole_state hashlib_sha256.
Proof. reflexivity. Qed.

Lemma whole_state_update cs chunk : whole_state cs -> whole_state (sha_update cs chunk).
Proof. unfold whole_state, sha_update. cbn [chaining]. by rewrite length_blocks. Qed.

Lemma whole_state_fold chunks :
  forall cs, whole_state cs -> whole_state (fold_left sha_update chunks cs).
Proof.
  induction chunks as [|c chunks IH]; intros cs Hcs; [done|].
  simpl. apply IH. by apply whole_state_update.
Qed.

(** The digest of a hash object is 64 hexadecimal digits. *)
Lemma hexdigest_shape cs : whole_state cs -> sha_hex (hexdigest cs).
Proof.
  unfold whole_state, sha_hex, hexdigest. intros Hcs.
  destruct (hex_of_words_shape
              (SHA256.blocks (length (pending cs ++ SHA256.padding (fed cs)) / 64)
                 (chaining cs) (pending cs ++ SHA256.padding (fed cs)))) as [H1 H2].
  rewrite length_blocks, Hcs in H1. done.
Qed.

End DigestShape.

Section StreamFrame.

Variable SEGMENT_SIZE_RAW : nat.
Variable compress_file : node -> Path -> list bytes.
Variable fs : node.

#[local] Abbreviation Stream_next := (stream_next SEGMENT_SIZE_RAW compress_file fs).
#[local] Abbreviation Stream_nexts := (stream_nexts SEGMENT_SIZE_RAW compress_file fs).

Lemma with_checksum_twice c c' e : with_checksum c' (with_checksum c e) = with_checksum c' e.
Proof. reflexivity. Qed.

Lemma checksum_only_refl h file e : data h !! file = Some e -> checksum_only h file e h.
Proof.
  intros He. split; [|done]. exists (checksum e). split; [|by left].
  symmetry. apply insert_id. rewrite He. by destruct e.
Qed.

Lemma finish_frame h file e h' cs ev :
  checksum_only h file e h' -> whole_state cs ->
  checksum_only h file e (handler_after (finish h' file cs ev))
  /\ gen_after (finish h' file cs ev) = G_finished.
Proof.
  intros ((c & Hd & Hc) & Hf & Hl) Hcs. unfold finish.
  rewrite Hd, lookup_insert_eq. cbn [handler_after gen_after]. split; [|done].
  split; [|done]. exists (hexdigest cs). split.
  - cbn [data set_data]. by rewrite insert_insert_eq, with_checksum_twice.
  - right. by apply hexdigest_shape.
Qed.

Lemma read_branch_frame h file e h' r cs :
  checksum_only h file e h' -> whole_state cs ->
  checksum_only h file e (handler_after (read_branch SEGMENT_SIZE_RAW fs h' file r cs))
  /\ gen_of file (gen_after (read_branch SEGMENT_SIZE_RAW fs h' file r cs)).
Proof.
  intros Hh Hcs. unfold read_branch.
  destruct (read_next SEGMENT_SIZE_RAW fs r) as [[[c|] r'] ev].
  - cbn [handler_after gen_after gen_of]. split; [done|]. split; [done|].
    by apply whole_state_update.
  - destruct (finish_frame h file e h' cs ev Hh Hcs) as [H1 ->]. done.
Qed.

Lemma compress_branch_frame h file e h' chunks cs ev :
  checksum_only h file e h' -> whole_state cs ->
  checksum_only h file e (handler_after (compress_branch h' file chunks cs ev))
  /\ gen_of file (gen_after (compress_branch h' file chunks cs ev)).
Proof.
  intros Hh Hcs. destruct chunks as [|c chunks]; cbn [compress_branch].
  - destruct (finish_frame h file e h' cs ev Hh Hcs) as [H1 ->]. done.
  - cbn [handler_after gen_after gen_of]. done.
Qed.

Lemma stream_next_frame h file e h' g :
  checksum_only h file e h' -> gen_of file g ->
  checksum_only h file e (handler_after (Stream_next h' g))
  /\ gen_of file (gen_after (Stream_next h' g)).
Proof.
  intros Hh Hg. destruct g as [f|f r cs|f rest cs|]; cbn [stream_next].
  - simpl in Hg. subst f. destruct Hh as ((c & Hd & Hc) & Hf & Hl).
    rewrite Hd, lookup_insert_eq.
    assert (Hh : checksum_only h file e h') by (split; [by exists c|done]).
    destruct (compressed (with_checksum c e)).
    + apply read_branch_frame; [done|apply whole_state_new].
    + destruct (read_all SEGMENT_SIZE_RAW fs (R_new (path_raw (with_checksum c e))))
        as [raw ev].
      apply compress_branch_frame; [done|]. apply whole_state_fold, whole_state_new.
  - destruct Hg as [-> Hcs]. by apply read_branch_frame.
  - destruct Hg as [-> Hcs]. by apply compress_branch_frame.
  - done.
Qed.

Lemma stream_nexts_frame n :
  forall h file e h' g,
    checksum_only h file e h' -> gen_of file g ->
    checksum_only h file e (final_handler (Stream_nexts n h' g)).
Proof.
  induction n as [|n IH]; intros h file e h' g Hh Hg; [done|].
  rewrite final_handler_S.
  destruct (stream_next_frame h file e h' g Hh Hg) as [Hh' Hg']. by apply IH.
Qed.

(** X10. After any number of calls of [next], whatever the file and
    its faults, the handler differs from the one the generator started
    with at most in the checksum of the entry of the file, which is as it
    was or 64 hexadecimal digits; the other fields of the entry, the
    other entries, [self.failed] and the destination are untouched. *)
Theorem stream_touches_only_the_checksum h file e n :
  data h !! file = Some e ->
  let s := Stream_nexts n h (G_new file) in
  (exists c,
      data (final_handler s) = <[file := with_checksum c e]> (data h)
      /\ (c = checksum e
          \/ (String.length c = 64 /\ all_chars is_hex_digit c = true)))
  /\ failed (final_handler s) = failed h
  /\ local_destination (final_handler s) = local_destination h.
Proof.
  intros He. apply stream_nexts_frame; [by apply checksum_only_refl|done].
Qed.

End StreamFrame.

(** The ten bytes of [a.txt], read four at a time: three chunks. *)
Lemma read_file_chunks_witness :
  let chunks := (read_all 4 Sample.fs (R_new (pathlib.of_string "/data/a.txt"))).1 in
  concat chunks = content Sample.a_txt
  /\ length chunks = (length (content Sample.a_txt) + 4 - 1) / 4
  /\ Forall (fun c => 0 < length c <= 4) chunks.
Proof.
  destruct (read_file_chunks 4 Sample.fs (pathlib.of_string "/data/a.txt") Sample.a_txt)
    as (H1 & H2 & H3 & _); [lia|reflexivity|reflexivity|].
  split; [exact H1|]. split; [exact H2|exact H3].
Defined.

(** [c.gz] of the sample fails at its second [read]. *)
Lemma stream_stops_at_read_error_witness :
  exists chunks,
    length chunks = 1
    /\ concat chunks = take (1 * 4) (content Sample.c_gz)
    /\ signals (stream_nexts 4 Sample.compress_file Sample.fs 2 Sample.handler (G_new "c.gz"))
       = map Yield chunks ++ [StopIteration].
Proof.
  destruct (stream_stops_at_read_error 4 Sample.compress_file Sample.fs Sample.handler
              "c.gz" Sample.c_entry Sample.c_gz 1)
    as (chunks & H1 & H2 & H3 & _); [lia|reflexivity..|simpl; lia|].
  exists chunks. split; [exact H1|]. split; [exact H2|exact H3].
Defined.

(** The catalogue of the sample over a disk that has lost its files. *)
Lemma unreadable_file_gets_empty_digest_witness :
  signals (stream_nexts 4 Sample.compress_file (Dir no_entries) 1 Sample.handler
             (G_new "b.tar.gz"))
  = [StopIteration]
  /\ checksum <$> data (final_handler
                        (stream_nexts 4 Sample.compress_file (Dir no_entries) 1
                           Sample.handler (G_new "b.tar.gz"))) !! "b.tar.gz"
     = Some "e3b0c44298fc1c149afbf4c8996fb92427ae41e4649b934ca495991b7852b855".
Proof.
  destruct (unreadable_file_gets_empty_digest 4 Sample.compress_file (Dir no_entries)
              Sample.handler "b.tar.gz" Sample.b_entry) as (H1 & H2 & _);
    [reflexivity|intros f; discriminate|].
  split; [exact H1|]. cbv zeta in H2. cbn [compressed Sample.b_entry length] in H2.
  rewrite H2, lookup_insert_eq. reflexivity.
Defined.

Lemma stream_touches_only_the_checksum_witness :
  failed (final_handler
            (stream_nexts 4 Sample.compress_file Sample.fs 4 Sample.handler (G_new "b.tar.gz")))
  = failed Sample.handler
  /\ exists c,
      data (final_handler
              (stream_nexts 4 Sample.compress_file Sample.fs 4 Sample.handler
                 (G_new "b.tar.gz")))
      = <[ "b.tar.gz" := with_checksum c Sample.b_entry ]> (data Sample.handler).
Proof.
  destruct (stream_touches_only_the_checksum 4 Sample.compress_file Sample.fs Sample.handler
              "b.tar.gz" Sample.b_entry 4) as ((c & H1 & _) & H2 & _); [reflexivity|].
  split; [exact H2|]. exists c. exact H1.
Defined.

(** * The list of paths, for each method *)

Section PathsMore.

Variable resolve : string -> option Path.
Variable pathfile_lines : string -> option (list string).

#[local] Abbreviation Listed := (listed pathfile_lines).
#[local] Abbreviation Data_to_deliver := (data_to_deliver resolve pathfile_lines).



(** X12. For a method that is neither ["put"] nor ["get"] the paths of
    [data] are dropped without a word: without a pathfile the list
    returned is empty, whatever [data] holds and however often; with a
    pathfile that is there the call raises [DeliveryOptionException], and
    with one that is not, [IOError]. *)
Theorem unknown_method_drops_the_data method data pf :
  method ≠ "put" ->
  method ≠ "get" ->
  data_to_deliver resolve pathfile_lines method data None = Ok []
  /\ (is_Some (pathfile_lines pf) ->
      data_to_deliver resolve pathfile_lines method data (Some pf)
      = Raise DeliveryOptionException)
  /\ (pathfile_lines pf = None ->
      data_to_deliver resolve pathfile_lines method data (Some pf) = Raise IOError).
Proof.
  intros Hp%String.eqb_neq Hg%String.eqb_neq. unfold data_to_deliver. rewrite Hp, Hg.
  split; [by destruct data|]. split.
  - intros [lines ->]. done.
  - intros ->. done.
Qed.

End PathsMore.


Lemma unknown_method_drops_the_data_witness :
  data_to_deliver Sample.resolve (fun _ => None) "ls" (Some ["a.txt"; "a.txt"]) None = Ok [].
Proof.
  apply (unknown_method_drops_the_data Sample.resolve (fun _ => None) "ls"
           (Some ["a.txt"; "a.txt"]) "paths.txt"); discriminate.
Defined.

(** * The timestamp *)

Section TimestampFacts.

Lemma length_dec_fixed n : forall x, String.length (dec_fixed n x) = n.
Proof.
  induction n as [|n IH]; intros x; [done|].
  simpl. rewrite length_append, IH. simpl. lia.
Qed.

Lemma dec_digit_plain d :
  Ascii.eqb (dec_digit d) " " = false /\ Ascii.eqb (dec_digit d) ":" = false.
Proof.
  unfold dec_digit, pretty_N_char.
  destruct (Z.to_N d) as [|p]; [done|]. by repeat (destruct p as [p|p|]; try done).
Qed.

Lemma replace_char_append a b (s t : string) :
  replace_char a b (s +:+ t) = replace_char a b s +:+ replace_char a b t.
Proof. induction s as [|c s IH]; [done|]. rewrite append_cons. simpl. by rewrite IH. Qed.

Lemma replace_char_dec_fixed n :
  forall x, replace_char " " "_" (dec_fixed n x) = dec_fixed n x
            /\ replace_char ":" "-" (dec_fixed n x) = dec_fixed n x.
Proof.
  induction n as [|n IH]; intros x; [done|]. simpl.
  rewrite !replace_char_append. destruct (IH (x / 10)%Z) as [-> ->].
  destruct (dec_digit_plain (x mod 10)) as [H1 H2]. simpl. by rewrite H1, H2.
Qed.

Lemma to_N_mod_ten x : Z.to_N (Z.of_N x mod 10) = (x mod 10)%N.
Proof. change 10%Z with (Z.of_N 10). rewrite <- N2Z.inj_mod. apply N2Z.id. Qed.

Lemma of_N_div_ten x : Z.of_N (x / 10) = (Z.of_N x / 10)%Z.
Proof. change 10%Z with (Z.of_N 10). apply N2Z.inj_div. Qed.

(** [pretty] writes a number that needs [k] digits in [k] digits. *)
Lemma pretty_N_go_fixed k :
  forall x s, (10 ^ N.of_nat k <= x < 10 ^ N.of_nat (S k))%N ->
              pretty_N_go x s = dec_fixed (S k) (Z.of_N x) +:+ s.
Proof.
  induction k as [|k IH]; intros x s Hx.
  - change (10 ^ N.of_nat 0)%N with 1%N in Hx. change (10 ^ N.of_nat 1)%N with 10%N in Hx.
    rewrite pretty_N_go_step by lia. rewrite N.div_small by lia. rewrite pretty_N_go_0.
    simpl. unfold dec_digit. by rewrite to_N_mod_ten.
  - rewrite pretty_N_go_step by lia.
    assert (10 ^ N.of_nat (S k) = 10 * 10 ^ N.of_nat k)%N as E1
      by (rewrite Nat2N.inj_succ, N.pow_succ_r'; done).
    assert (10 ^ N.of_nat (S (S k)) = 10 * 10 ^ N.of_nat (S k))%N as E2
      by (rewrite (Nat2N.inj_succ (S k)), N.pow_succ_r'; done).
    rewrite IH.
    + change (dec_fixed (S (S k)) (Z.of_N x))
        with (dec_fixed (S k) (Z.of_N x / 10)
              +:+ String (dec_digit (Z.of_N x mod 10)) "").
      rewrite append_assoc. rewrite append_cons. change ("" +:+ s) with s.
      unfold dec_digit. by rewrite to_N_mod_ten, of_N_div_ten.
    + split.
      * apply N.div_le_lower_bound; lia.
      * apply N.Div0.div_lt_upper_bound; lia.
Qed.

Lemma pretty_Z_fixed k (t : Z) :
  (10 ^ Z.of_nat k <= t < 10 ^ Z.of_nat (S k))%Z -> pretty t = dec_fixed (S k) t.
Proof.
  intros Ht. assert (0 < t)%Z as Hpos by (pose proof (Z.pow_pos_nonneg 10 (Z.of_nat k)); lia).
  destruct t as [|p|p]; try lia.
  unfold pretty, pretty_Z, pretty, pretty_positive, pretty, pretty_N.
  rewrite decide_False by done.
  rewrite (pretty_N_go_fixed k (N.pos p) ""); [by rewrite append_empty_r|].
  change (Z.pos p) with (Z.of_N (N.pos p)) in Ht.
  assert (forall n, Z.of_N (10 ^ N.of_nat n) = (10 ^ Z.of_nat n)%Z) as E.
  { intros n. rewrite N2Z.inj_pow. by rewrite nat_N_Z. }
  rewrite <- !E in Ht. lia.
Qed.

Lemma fmt_int_two (t : Z) : (0 <= t < 100)%Z -> fmt_int t = dec_fixed 2 t.
Proof.
  intros Ht. unfold fmt_int.
  destruct (decide (t = 0%Z)) as [->|Hne]; [done|].
  destruct (decide (t < 10)%Z) as [Hlt|Hge].
  - rewrite (pretty_Z_fixed 0) by (simpl; lia). rewrite length_dec_fixed. simpl.
    rewrite Z.div_small by lia. done.
  - rewrite (pretty_Z_fixed 1) by (simpl; lia). by rewrite length_dec_fixed.
Qed.

Lemma fmt_int_four (t : Z) : (1000 <= t <= 9999)%Z -> fmt_int t = dec_fixed 4 t.
Proof.
  intros Ht. unfold fmt_int.
  rewrite (pretty_Z_fixed 3) by (simpl; lia). by rewrite length_dec_fixed.
Qed.

(** X13. For a date with a year of four digits, [timestamp] is the
    fixed-width text [YYYY-MM-DD_HH-MM-SS], 19 characters long: every
    field but the year is padded to two digits, the blank becomes an
    underscore and the colons become dashes; the year has its four digits
    (the docstring announces two). *)
Theorem timestamp_is_fixed_width (year month day hour minute second : Z) :
  (1000 <= year <= 9999)%Z ->
  (0 <= month < 100)%Z -> (0 <= day < 100)%Z -> (0 <= hour < 100)%Z ->
  (0 <= minute < 100)%Z -> (0 <= second < 100)%Z ->
  timestamp year month day hour minute second
  = dec_fixed 4 year +:+ "-" +:+ dec_fixed 2 month +:+ "-" +:+ dec_fixed 2 day +:+ "_"
    +:+ dec_fixed 2 hour +:+ "-" +:+ dec_fixed 2 minute +:+ "-" +:+ dec_fixed 2 second
  /\ String.length (timestamp year month day hour minute second) = 19.
Proof.
  intros Hy Hm Hd HH HM HS.
  assert (E : timestamp year month day hour minute second
    = dec_fixed 4 year +:+ "-" +:+ dec_fixed 2 month +:+ "-" +:+ dec_fixed 2 day +:+ "_"
      +:+ dec_fixed 2 hour +:+ "-" +:+ dec_fixed 2 minute +:+ "-" +:+ dec_fixed 2 second).
  { unfold timestamp. rewrite fmt_int_four, !fmt_int_two by done.
    rewrite !replace_char_append.
    rewrite !(proj1 (replace_char_dec_fixed _ _)), !(proj2 (replace_char_dec_fixed _ _)).
    reflexivity. }
  split; [exact E|]. rewrite E, !length_append, !length_dec_fixed. done.
Qed.

End TimestampFacts.

Lemma timestamp_is_fixed_width_witness :
  timestamp 2021 3 4 5 6 7
  = dec_fixed 4 2021 +:+ "-" +:+ dec_fixed 2 3 +:+ "-" +:+ dec_fixed 2 4 +:+ "_"
    +:+ dec_fixed 2 5 +:+ "-" +:+ dec_fixed 2 6 +:+ "-" +:+ dec_fixed 2 7
  /\ String.length (timestamp 2021 3 4 5 6 7) = 19.
Proof. apply timestamp_is_fixed_width; lia. Defined.

(** * The temporary directories, made and found *)

Section DirectoryMore.

Variable mkdir_refused : list string -> bool.
Variable rmtree_refused : list string -> bool.

#[local] Abbreviation Mkdir := (mkdir mkdir_refused).
#[local] Abbreviation Rmtree := (rmtree rmtree_refused).
#[local] Abbreviation Create_loop := (create_loop mkdir_refused rmtree_refused).
#[local] Abbreviation Create_directories := (create_directories mkdir_refused rmtree_refused).

Lemma mkdir_made w p :
  mkdir_refused p = false ->
  disk w !! p = None ->
  disk w !! removelast p = Some true ->
  Mkdir w p = (made p w, true).
Proof.
  intros Hr Hn Hp. unfold mkdir, exists_, is_dir. rewrite Hr. cbn [disk emit orb].
  rewrite Hn, Hp. rewrite bool_decide_eq_false_2 by (by intros [? ?]).
  by rewrite bool_decide_eq_true_2.
Qed.

Lemma temp_dir_parts cwd timestamp_ :
  PyStr.contains_char "/" timestamp_ = false ->
  parts (temp_dir_of cwd timestamp_) = parts cwd ++ ["DataDelivery_" +:+ timestamp_].
Proof.
  intros Hts. unfold temp_dir_of. rewrite of_string_name; [| |done|].
  - unfold pathlib.join. by cbn [is_abs parts].
  - done.
  - by rewrite contains_char_append, Hts.
Qed.

Lemma dirs_of_parts temp_dir :
  map parts (dirs_of temp_dir)
  = parts temp_dir :: map (fun s => parts temp_dir ++ [s]) subfolders.
Proof. unfold dirs_of. simpl. by rewrite app_nil_r. Qed.

Lemma snoc_ne (p : list string) a b : a ≠ b -> p ++ [a] ≠ p ++ [b].
Proof. intros Hab [= H]%app_inv_head. done. Qed.

Lemma snoc_ne_self (p : list string) a : p ++ [a] ≠ p.
Proof. intros H. apply (f_equal length) in H. rewrite length_app in H. simpl in H. lia. Qed.

(** X14. Where the working directory is there, the timestamp has no
    ["/"], nothing is at the place of the temporary directory and the
    system refuses none of the five, [create_directories] makes
    [DataDelivery_<timestamp>] in the working directory and [files],
    [keys], [meta] and [logs] in it, in this order, changes nothing else
    on the disk and returns [(True, dirs)]. *)
Theorem create_directories_makes_the_five cwd timestamp_ w :
  let temp_dir := temp_dir_of cwd timestamp_ in
  PyStr.contains_char "/" timestamp_ = false ->
  is_dir w (parts cwd) = true ->
  (forall q, parts temp_dir `prefix_of` q -> disk w !! q = None) ->
  (forall d, d ∈ dirs_of temp_dir -> mkdir_refused (parts d) = false) ->
  exists w',
    Create_directories cwd timestamp_ w = (w', Ok (true, dirs_of temp_dir))
    /\ parts temp_dir = parts cwd ++ ["DataDelivery_" +:+ timestamp_]
    /\ map parts (dirs_of temp_dir)
       = parts temp_dir :: map (fun s => parts temp_dir ++ [s]) subfolders
    /\ (forall q, disk w' !! q
                  = if bool_decide (q ∈ map parts (dirs_of temp_dir)) then Some true
                    else disk w !! q)
    /\ log w' = log w ++ map (fun d => EvMkdir (parts d)) (dirs_of temp_dir)
    /\ objects w' = objects w /\ buckets w' = buckets w.
Proof.
  intros temp_dir Hts Hcwd Hfree Hok.
  pose proof (temp_dir_parts cwd timestamp_ Hts) as Htd. fold temp_dir in Htd.
  pose proof (dirs_of_parts temp_dir) as Hdirs.
  set (td := parts temp_dir) in *.
  set (w0 := made td w).
  set (w1 := made (td ++ ["files"]) w0).
  set (w2 := made (td ++ ["keys"]) w1).
  set (w3 := made (td ++ ["meta"]) w2).
  set (w4 := made (td ++ ["logs"]) w3).
  assert (Hsub : forall s, s ∈ subfolders -> mkdir_refused (td ++ [s]) = false).
  { intros s Hs. unfold dirs_of in Hok.
    repeat (apply elem_of_cons in Hs as [->|Hs]);
      [apply (Hok (temp_dir // pathlib.of_string "files/"))
      |apply (Hok (temp_dir // pathlib.of_string "keys/"))
      |apply (Hok (temp_dir // pathlib.of_string "meta/"))
      |apply (Hok (temp_dir // pathlib.of_string "logs/"))
      |by apply not_elem_of_nil in Hs];
      apply list_elem_of_fmap; eexists; (split; [reflexivity|]);
      repeat (first [apply list_elem_of_here|apply list_elem_of_further]). }
  assert (Hroot : mkdir_refused td = false).
  { replace td with (parts (temp_dir // pathlib.of_string ""))
      by (simpl; apply app_nil_r).
    apply Hok. apply list_elem_of_fmap. exists "". split; [done|]. apply list_elem_of_here. }
  assert (Hfresh : forall s, disk w !! (td ++ [s]) = None)
    by (intros s; apply Hfree, prefix_app_r; done).
  assert (E : Create_loop temp_dir (dirs_of temp_dir) w = (w4, Ok ())).
  { unfold dirs_of. cbn [map create_loop].
    change (parts (temp_dir // pathlib.of_string "")) with (td ++ []).
    rewrite app_nil_r.
    change (parts (temp_dir // pathlib.of_string "files/")) with (td ++ ["files"]).
    change (parts (temp_dir // pathlib.of_string "keys/")) with (td ++ ["keys"]).
    change (parts (temp_dir // pathlib.of_string "meta/")) with (td ++ ["meta"]).
    change (parts (temp_dir // pathlib.of_string "logs/")) with (td ++ ["logs"]).
    rewrite (mkdir_made w td); [|done|by apply Hfree|].
    2:{ rewrite Htd, removelast_last. unfold is_dir in Hcwd.
        by apply bool_decide_eq_true in Hcwd. }
    fold w0.
    rewrite (mkdir_made w0 (td ++ ["files"])); first last.
    { rewrite removelast_last. apply lookup_insert_eq. }
    { cbn [w0 made disk set_disk emit]. rewrite lookup_insert_ne by (symmetry; apply snoc_ne_self).
      apply Hfresh. }
    { apply Hsub. repeat constructor. }
    fold w1.
    rewrite (mkdir_made w1 (td ++ ["keys"])); first last.
    { rewrite removelast_last. cbn [w1 w0 made disk set_disk emit].
      rewrite lookup_insert_ne by apply snoc_ne_self. apply lookup_insert_eq. }
    { cbn [w1 w0 made disk set_disk emit].
      rewrite lookup_insert_ne by (by apply snoc_ne).
      rewrite lookup_insert_ne by (symmetry; apply snoc_ne_self). apply Hfresh. }
    { apply Hsub. repeat constructor. }
    fold w2.
    rewrite (mkdir_made w2 (td ++ ["meta"])); first last.
    { rewrite removelast_last. cbn [w2 w1 w0 made disk set_disk emit].
      rewrite !lookup_insert_ne by apply snoc_ne_self. apply lookup_insert_eq. }
    { cbn [w2 w1 w0 made disk set_disk emit].
      rewrite !lookup_insert_ne by (by apply snoc_ne).
      rewrite lookup_insert_ne by (symmetry; apply snoc_ne_self). apply Hfresh. }
    { apply Hsub. repeat constructor. }
    fold w3.
    rewrite (mkdir_made w3 (td ++ ["logs"])); first last.
    { rewrite removelast_last. cbn [w3 w2 w1 w0 made disk set_disk emit].
      rewrite !lookup_insert_ne by apply snoc_ne_self. apply lookup_insert_eq. }
    { cbn [w3 w2 w1 w0 made disk set_disk emit].
      rewrite !lookup_insert_ne by (by apply snoc_ne).
      rewrite lookup_insert_ne by (symmetry; apply snoc_ne_self). apply Hfresh. }
    { apply Hsub. repeat constructor. }
    done. }
  exists w4. unfold create_directories. fold temp_dir. rewrite E.
  split; [done|]. split; [done|]. split; [done|]. split; [|split; [|done]].
  - intros q. rewrite Hdirs. cbn [w4 w3 w2 w1 w0 made disk set_disk emit subfolders map].
    rewrite !lookup_insert.
    repeat (destruct (decide (_ = q)) as [<-|?]);
      try (rewrite bool_decide_eq_true_2;
           [done|repeat (first [apply list_elem_of_here|apply list_elem_of_further])]).
    rewrite bool_decide_eq_false_2; [done|].
    intros Hq. repeat (apply elem_of_cons in Hq as [->|Hq]); try done.
    by apply not_elem_of_nil in Hq.
  - unfold dirs_of. cbn [w4 w3 w2 w1 w0 made log set_disk emit map].
    change (parts (temp_dir // pathlib.of_string "")) with (td ++ []).
    rewrite app_nil_r. by rewrite <- !app_assoc.
Qed.

Lemma mkdir_existing w p :
  is_Some (disk w !! p) -> Mkdir w p = (emit (EvMkdir p) w, false).
Proof.
  intros Hp. unfold mkdir, exists_. cbn [disk emit].
  rewrite (bool_decide_eq_true_2 _ Hp). by rewrite orb_true_r.
Qed.

(** X15. Where the temporary directory of this second is already
    there, [create_directories] does not use it: [mkdir] of it fails, the
    whole directory is removed with what it held and the session leaves
    by [sys.exit]. *)
Theorem existing_temp_dir_is_removed cwd timestamp_ w :
  let temp_dir := temp_dir_of cwd timestamp_ in
  is_dir w (parts temp_dir) = true ->
  rmtree_refused (parts temp_dir) = false ->
  exists w',
    Create_directories cwd timestamp_ w = (w', Raise (SystemExit msg_deleted))
    /\ (forall q, parts temp_dir `prefix_of` q -> disk w' !! q = None)
    /\ (forall q, ¬ parts temp_dir `prefix_of` q -> disk w' !! q = disk w !! q)
    /\ log w' = log w ++ [EvMkdir (parts temp_dir); EvPrint (msg_not_created temp_dir);
                          EvRmtree (parts temp_dir)].
Proof.
  intros temp_dir Hd Hr. unfold create_directories. fold temp_dir.
  unfold dirs_of. cbn [map create_loop].
  assert (E0 : temp_dir // pathlib.of_string "" = temp_dir) by apply join_relative_nil.
  rewrite E0.
  assert (Hsome : is_Some (disk w !! parts temp_dir)).
  { unfold is_dir in Hd. apply bool_decide_eq_true in Hd. by rewrite Hd. }
  rewrite (mkdir_existing w _ Hsome).
  set (w1 := emit (EvPrint (msg_not_created temp_dir)) (emit (EvMkdir (parts temp_dir)) w)).
  assert (He : exists_ w1 (parts temp_dir) = true) by (by apply bool_decide_eq_true).
  rewrite He.
  destruct (rmtree_true rmtree_refused w1 (parts temp_dir) Hr Hd)
    as (w' & -> & Hgone & Hkeep & Hlog).
  exists w'. split; [done|]. split; [done|]. split; [done|].
  rewrite Hlog. subst w1. cbn [log emit]. by rewrite <- !app_assoc.
Qed.

End DirectoryMore.

Lemma sample_temp_dir_free q :
  parts (temp_dir_of Sample.cwd Sample.stamp) `prefix_of` q -> disk Sample.world !! q = None.
Proof.
  intros [k ->].
  change (parts (temp_dir_of Sample.cwd Sample.stamp))
    with ["home"; "u"; "DataDelivery_2021-03-04_05-06-07"].
  unfold Sample.world. cbn [disk app].
  rewrite !lookup_insert_ne by discriminate. by apply lookup_singleton_ne.
Qed.

Lemma create_directories_makes_the_five_witness :
  exists w',
    create_directories Sample.none_refused Sample.none_refused Sample.cwd Sample.stamp
      Sample.world
    = (w', Ok (true, dirs_of Sample.temp_dir))
    /\ disk w' !! (parts Sample.temp_dir ++ ["files"]) = Some true.
Proof.
  destruct (create_directories_makes_the_five Sample.none_refused Sample.none_refused
              Sample.cwd Sample.stamp Sample.world) as (w' & E & _ & _ & Hdisk & _).
  - reflexivity.
  - reflexivity.
  - exact sample_temp_dir_free.
  - intros d _. reflexivity.
  - exists w'. split; [exact E|]. rewrite Hdisk. reflexivity.
Defined.

(** A second session in the second of the first. *)
Lemma existing_temp_dir_is_removed_witness :
  exists w',
    create_directories Sample.none_refused Sample.none_refused Sample.cwd Sample.stamp
      Sample.ready
    = (w', Raise (SystemExit msg_deleted))
    /\ disk w' !! (parts Sample.temp_dir ++ ["files"]) = None.
Proof.
  destruct (existing_temp_dir_is_removed Sample.none_refused Sample.none_refused Sample.cwd
              Sample.stamp Sample.ready) as (w' & E & Hgone & _).
  - reflexivity.
  - reflexivity.
  - exists w'. split; [exact E|]. apply Hgone. by apply prefix_app_r.
Defined.

(** * Keys and folders of an upload *)

Section SplitFacts.










End SplitFacts.

Section PutFacts.

Variable upload_refused : string -> string -> bool.
Variable file_exists_in_bucket : list string -> string -> bool * list string.

#[local] Abbreviation Put := (put upload_refused file_exists_in_bucket).
#[local] Abbreviation Upload_file := (upload_file upload_refused).


(** The key and the folder that [put_key] works out depend on the file
    and on [spec_path] alone. *)
Lemma put_key_again file spec_path w w' key w1 :
  put_key file spec_path w = (w', Ok key) ->
  objects w' ⊆ objects w1 ->
  exists w2, put_key file spec_path w1 = (w2, Ok key)
             /\ objects w2 = objects w1 /\ disk w2 = disk w1 /\ buckets w2 = buckets w1
             /\ log w1 `prefix_of` log w2
             /\ (forall a b, EvUpload a b ∈ log w2 -> EvUpload a b ∈ log w1).
Proof.
  unfold put_key. destruct spec_path as [spec_path|].
  - destruct (PyStr.split spec_path (pathlib.str file)) as [pieces|]; [|discriminate].
    destruct (PyStr.split (pathlib.name file) (spec_path +:+ List.last pieces ""))
      as [pieces'|]; [|discriminate].
    set (folder := List.hd "" pieces'). cbn [objects emit]. intros H Hsub.
    assert (Hin : folder ∈ objects w1).
    { apply Hsub. revert H. case_bool_decide as Hin; cbn [negb]; intros [= <- _]; [done|].
      cbn [objects set_objects emit]. apply elem_of_app. right. apply list_elem_of_here. }
    rewrite (bool_decide_eq_true_2 _ Hin). cbn [negb].
    assert (key = spec_path +:+ List.last pieces "") as ->
      by (revert H; by destruct (negb _); intros [= _ <-]).
    eexists. split; [done|]. cbn [objects disk buckets log emit].
    split; [done|]. split; [done|]. split; [done|]. split; [by apply prefix_app_r|].
    intros a b [Hab|Hab]%elem_of_app; [done|].
    apply list_elem_of_singleton in Hab. discriminate.
  - intros [= <- <-] _. exists w1. repeat split; done.
Qed.

Lemma msg_uploaded_is_not_msg_exists file : msg_uploaded file ≠ msg_exists file.
Proof. unfold msg_uploaded, msg_exists. rewrite !append_cons. discriminate. Qed.

(** X18. A second [put] of a file that a first one has uploaded
    uploads nothing: where the check of the store finds the keys that are
    there, it answers "File exists", the store and the disk are as the
    first call left them and no new upload is in the log. *)
Theorem put_again_uploads_nothing self file spec_path w w1 :
  (forall keys key, key ∈ keys -> (file_exists_in_bucket keys key).1 = true) ->
  Put self file spec_path w = (w1, Ok (Some (msg_uploaded file))) ->
  exists w2,
    Put self file spec_path w1 = (w2, Ok (Some (msg_exists file)))
    /\ objects w2 = objects w1
    /\ disk w2 = disk w1
    /\ (forall a b, EvUpload a b ∈ log w2 -> EvUpload a b ∈ log w1).
Proof.
  intros Hcontract. unfold put, bucket_exists. cbn [buckets emit].
  case_bool_decide as Hb; [|discriminate].
  destruct (put_key file spec_path (emit EvBucketsAll w)) as [wk [key| |]] eqn:Ek;
    try discriminate.
  cbn [objects emit].
  destruct (file_exists_in_bucket (objects wk) key) as [[|] fl] eqn:Ef.
  { intros H. injection H as _ H. by destruct (msg_uploaded_is_not_msg_exists file). }
  unfold upload_file. destruct (upload_refused (pathlib.str file) key); [discriminate|].
  intros [= <-]. cbn [buckets objects set_objects emit].
  assert (Hbk : buckets wk = buckets w).
  { revert Ek. unfold put_key. destruct spec_path as [sp|]; [|by intros [= <- _]].
    destruct (PyStr.split sp _); [|discriminate]. destruct (PyStr.split _ _); [|discriminate].
    by destruct (negb _); intros [= <- _]. }
  rewrite Hbk, (bool_decide_eq_true_2 _ Hb).
  set (w1 := set_objects (objects wk ++ [key])
               (emit (EvUpload (pathlib.str file) key) (emit (EvFileExists key) wk))).
  destruct (put_key_again file spec_path _ wk key (emit EvBucketsAll w1) Ek)
    as (w2 & -> & Ho & Hd & _ & _ & Hup).
  { intros x Hx. cbn [objects emit w1 set_objects]. apply elem_of_app. by left. }
  cbn [objects emit]. rewrite Ho. cbn [objects emit w1 set_objects].
  specialize (Hcontract (objects wk ++ [key]) key).
  destruct (file_exists_in_bucket (objects wk ++ [key]) key) as [b fl'].
  cbn [fst] in Hcontract. rewrite Hcontract.
  2:{ apply elem_of_app. right. apply list_elem_of_here. }
  eexists. split; [done|]. cbn [objects disk log emit]. split; [done|]. split; [done|].
  intros a b0 [Hab|Hab]%elem_of_app.
  - apply Hup in Hab. cbn [log emit] in Hab. apply elem_of_app in Hab as [Hab|Hab]; [done|].
    apply list_elem_of_singleton in Hab. discriminate.
  - apply list_elem_of_singleton in Hab. discriminate.
Qed.

(** X19. With the bucket there, [put] raises [ValueError] (empty
    separator) for an empty [spec_path], and for a file without a name,
    such as the root, under any [spec_path]: nothing has been done but the
    listing of the buckets. *)
Theorem put_without_separator_raises self file spec_path w :
  s3_bucket self ∈ buckets w ->
  spec_path = "" \/ (pathlib.name file = "" /\ spec_path ≠ "") ->
  Put self file (Some spec_path) w = (emit EvBucketsAll w, Raise ValueError).
Proof.
  intros Hb Hcase. unfold put, bucket_exists. cbn [buckets emit].
  rewrite (bool_decide_eq_true_2 _ Hb). unfold put_key, PyStr.split.
  destruct Hcase as [->|[-> Hsp]]; [done|].
  apply String.eqb_neq in Hsp. by rewrite Hsp.
Qed.

(** X20. Whatever its arguments and its outcome, [put] leaves the disk
    and the buckets alone, removes no key and only adds to the log. An
    upload it has attempted is one of the file given: either it went
    through, the key is in the store and the success message is
    returned, or it was refused and [put] returns [None] having raised
    nothing. *)
Theorem put_leaves_the_disk_alone self file spec_path w :
  let r := Put self file spec_path w in
  disk r.1 = disk w
  /\ buckets r.1 = buckets w
  /\ log w `prefix_of` log r.1
  /\ (forall a b, EvUpload a b ∈ log r.1 -> EvUpload a b ∉ log w ->
        r.2 = Ok (Some (msg_uploaded file)) /\ a = pathlib.str file /\ b ∈ objects r.1
      \/ (r.2 = Ok None /\ a = pathlib.str file /\ upload_refused a b = true))
  /\ (forall k, k ∈ objects w -> k ∈ objects r.1).
Proof.
  cbv zeta. unfold put, bucket_exists. cbn [buckets emit].
  case_bool_decide as Hb.
  2:{ cbn [fst snd disk buckets log objects emit]. repeat split; try done.
      - by apply prefix_app_r.
      - intros a b [Hab|Hab]%elem_of_app Hn; [done|].
        apply list_elem_of_singleton in Hab. discriminate. }
  assert (Hk : forall w0 wk r, put_key file spec_path w0 = (wk, r) ->
             disk wk = disk w0 /\ buckets wk = buckets w0 /\ log w0 `prefix_of` log wk
             /\ (forall a b, EvUpload a b ∈ log wk -> EvUpload a b ∈ log w0)
             /\ (forall k, k ∈ objects w0 -> k ∈ objects wk)).
  { intros w0 wk r. unfold put_key. destruct spec_path as [sp|]; [|by intros [= <- _]].
    destruct (PyStr.split sp _); [|by intros [= <- _]].
    destruct (PyStr.split _ _); [|by intros [= <- _]].
    destruct (negb _); intros [= <- _]; cbn [disk buckets log objects set_objects emit].
    - repeat split; try done.
      + rewrite <- app_assoc. by apply prefix_app_r.
      + intros a b [[Hab|Hab]%elem_of_app|Hab]%elem_of_app; [done|..];
          apply list_elem_of_singleton in Hab; discriminate.
      + intros k Hk. apply elem_of_app. by left.
    - repeat split; try done; [by apply prefix_app_r|].
      intros a b [Hab|Hab]%elem_of_app; [done|].
      apply list_elem_of_singleton in Hab. discriminate. }
  destruct (put_key file spec_path (emit EvBucketsAll w)) as [wk r] eqn:Ek.
  destruct (Hk _ _ _ Ek) as (Hd & Hbk & Hl & Hup & Ho). cbn [disk buckets log objects emit] in *.
  assert (Hl0 : log w `prefix_of` log wk) by (etrans; [by apply prefix_app_r|exact Hl]).
  assert (Hup0 : forall a b, EvUpload a b ∈ log wk -> EvUpload a b ∈ log w).
  { intros a b Hab. apply Hup in Hab. apply elem_of_app in Hab as [Hab|Hab]; [done|].
    apply list_elem_of_singleton in Hab. discriminate. }
  destruct r as [key| |]; cbn [fst snd]; [|by repeat split; try done; intros a b Ha Hn;
                                            destruct Hn; apply Hup0..].
  cbn [objects emit].
  destruct (file_exists_in_bucket (objects wk) key) as [[|] fl]; cbn [fst snd].
  - cbn [disk buckets log objects emit]. repeat split; try done.
    + etrans; [exact Hl0|]. by apply prefix_app_r.
    + intros a b [Hab|Hab]%elem_of_app Hn; [by destruct Hn; apply Hup0|].
      apply list_elem_of_singleton in Hab. discriminate.
  - unfold upload_file. destruct (upload_refused (pathlib.str file) key) eqn:Er;
      cbn [fst snd disk buckets log objects set_objects emit].
    + repeat split; try done.
      * etrans; [exact Hl0|]. rewrite <- !app_assoc. by apply prefix_app_r.
      * intros a b [[[Hab|Hab]%elem_of_app|Hab]%elem_of_app|Hab]%elem_of_app Hn;
          [by destruct Hn; apply Hup0|..]; apply list_elem_of_singleton in Hab;
          try discriminate.
        injection Hab as -> ->. by right.
    + repeat split; try done.
      * etrans; [exact Hl0|]. rewrite <- !app_assoc. by apply prefix_app_r.
      * intros a b [[Hab|Hab]%elem_of_app|Hab]%elem_of_app Hn;
          [by destruct Hn; apply Hup0|..]; apply list_elem_of_singleton in Hab;
          try discriminate.
        injection Hab as -> ->. left. repeat split; try done.
        apply elem_of_app. right. apply list_elem_of_here.
      * intros k Hin. apply elem_of_app. left. by apply Ho.
Qed.

End PutFacts.


Lemma prefix_refl (s : string) : String.prefix s s = true.
Proof. induction s as [|a s IH]; [done|]. simpl. by destruct (ascii_dec a a). Qed.

(** The check of the sample finds a key that is in the store. *)
Lemma sample_check_finds keys key :
  key ∈ keys -> (Sample.file_exists_in_bucket keys key).1 = true.
Proof.
  intros Hin. unfold Sample.file_exists_in_bucket. cbn [fst].
  destruct (List.filter (String.prefix key) keys) as [|x l] eqn:E; [|done].
  apply list_elem_of_In in Hin.
  assert (In key (List.filter (String.prefix key) keys))
    by (apply filter_In; split; [done|apply prefix_refl]).
  rewrite E in H. done.
Qed.

(** The same file put twice. *)
Lemma put_again_uploads_nothing_witness :
  let put1 := put (fun _ _ => false) Sample.file_exists_in_bucket Sample.deliverer
                (pathlib.of_string "/data/run2/reads.fastq.gz") (Some "run2/") in
  exists w2,
    put1 (put1 Sample.world).1
    = (w2, Ok (Some (msg_exists (pathlib.of_string "/data/run2/reads.fastq.gz"))))
    /\ objects w2 = objects (put1 Sample.world).1.
Proof.
  intros put1.
  destruct (put_again_uploads_nothing (fun _ _ => false) Sample.file_exists_in_bucket
              Sample.deliverer (pathlib.of_string "/data/run2/reads.fastq.gz")
              (Some "run2/") Sample.world (put1 Sample.world).1 sample_check_finds)
    as (w2 & E & Ho & _).
  - vm_compute. reflexivity.
  - exists w2. split; [exact E|exact Ho].
Defined.

(** An empty [spec_path]. *)
Lemma put_without_separator_raises_witness :
  put (fun _ _ => false) Sample.file_exists_in_bucket Sample.deliverer
    (pathlib.of_string "/data/a.txt") (Some "") Sample.world
  = (emit EvBucketsAll Sample.world, Raise ValueError).
Proof.
  apply put_without_separator_raises.
  - apply list_elem_of_here.
  - by left.
Defined.

(** * Downloads, one key at a time *)

Section GetFacts.

Variable mkdir_refused : list string -> bool.
Variable download_refused : string -> bool.
Variable file_exists_in_bucket : list string -> string -> bool * list string.

#[local] Abbreviation Get := (get mkdir_refused download_refused file_exists_in_bucket).
#[local] Abbreviation Get_loop := (get_loop mkdir_refused download_refused).
#[local] Abbreviation Mkdir_parents := (mkdir_parents mkdir_refused).
#[local] Abbreviation Download_file := (download_file download_refused).
#[local] Abbreviation Ensure_parent := (ensure_parent mkdir_refused).
#[local] Abbreviation Get_one := (get_one mkdir_refused download_refused).

Lemma keeps_refl w : keeps w w.
Proof. by split; [|split; [|split]]. Qed.

Lemma keeps_trans w1 w2 w3 : keeps w1 w2 -> keeps w2 w3 -> keeps w1 w3.
Proof.
  intros (H1 & H2 & H3 & H4) (G1 & G2 & G3 & G4).
  split; [by etrans|]. split; [congruence|]. split; [congruence|by etrans].
Qed.

Lemma keeps_emit e w : keeps w (emit e w).
Proof. split; [done|]. split; [done|]. split; [done|by apply prefix_app_r]. Qed.

Lemma made_ancestors_keep (m : gmap (list string) bool) l :
  (forall a, a ∈ l -> m !! a ≠ Some false) ->
  m ⊆ foldr (fun a d => <[a := true]> d) m l.
Proof.
  induction l as [|a l IH]; intros Hl; [done|]. simpl.
  etrans; [apply IH; intros b Hb; apply Hl; by right|].
  apply map_subseteq_spec. intros q b Hq.
  destruct (decide (a = q)) as [<-|Hne]; [|by rewrite lookup_insert_ne].
  rewrite lookup_insert_eq. destruct b; [done|].
  exfalso. clear IH. revert Hq. generalize (Hl a (list_elem_of_here _ _)).
  assert (Hin : forall b, b ∈ l -> m !! b ≠ Some false) by (intros b Hb; apply Hl; by right).
  clear Hl. induction l as [|c l IHl]; simpl; [done|].
  intros Ha. destruct (decide (c = a)) as [->|Hne].
  - rewrite lookup_insert_eq. discriminate.
  - rewrite lookup_insert_ne by done. apply IHl; [|done]. intros b Hb. apply Hin. by right.
Qed.

Lemma mkdir_parents_keeps w p w' b : Mkdir_parents w p = (w', b) -> keeps w w'.
Proof.
  unfold mkdir_parents. destruct (_ || _ || _) eqn:E; intros [= <- <-].
  - apply keeps_emit.
  - split; [|split; [done|split; [done|by apply prefix_app_r]]].
    change (disk w ⊆ foldr (fun a d => <[a := true]> d) (disk w) (ancestors p)).
    apply made_ancestors_keep. intros a Ha Hfalse.
    apply orb_false_iff in E as [_ E]. cbn [disk emit] in E.
    assert (existsb (fun a => bool_decide (disk w !! a = Some false)) (ancestors p) = true);
      [|congruence].
    apply existsb_exists. exists a. split; [by apply list_elem_of_In|].
    by apply bool_decide_eq_true.
Qed.

Lemma download_file_keeps w key dest w' b : Download_file w key dest = (w', b) -> keeps w w'.
Proof.
  unfold download_file. destruct (_ || _ || _) eqn:E; intros [= <- <-].
  - apply keeps_emit.
  - split; [|split; [done|split; [done|by apply prefix_app_r]]].
    change (disk w ⊆ <[parts dest := false]> (disk w)).
    apply map_subseteq_spec. intros q b Hq.
    destruct (decide (parts dest = q)) as [<-|Hne]; [|by rewrite lookup_insert_ne].
    rewrite lookup_insert_eq. destruct b; [|done].
    apply orb_false_iff in E as [_ E]. unfold is_dir in E. cbn [disk emit] in E.
    apply bool_decide_eq_false in E. done.
Qed.

Lemma get_one_keeps path f new_path w w' b :
  Get_one path f new_path w = (w', b) -> keeps w w'.
Proof.
  unfold get_one, ensure_parent.
  destruct (negb (exists_ w _)).
  - destruct (Mkdir_parents w _) as [w1 [|]] eqn:E1; [|intros [= <- <-]];
      apply mkdir_parents_keeps in E1; [|done].
    destruct (negb (exists_ w1 _)).
    + destruct (Download_file w1 f new_path) as [w2 [|]] eqn:E2; intros [= <- <-];
        apply download_file_keeps in E2;
        (eapply keeps_trans; [exact E1|]); (eapply keeps_trans; [exact E2|]);
        apply keeps_emit.
    + intros [= <- <-]. eapply keeps_trans; [exact E1|]. apply keeps_emit.
  - destruct (negb (exists_ w _)).
    + destruct (Download_file w f new_path) as [w2 [|]] eqn:E2; intros [= <- <-];
        apply download_file_keeps in E2; (eapply keeps_trans; [exact E2|]);
        apply keeps_emit.
    + intros [= <- <-]. apply keeps_emit.
Qed.

Lemma get_loop_keeps self path filelist :
  forall w w' r, Get_loop self path filelist w = (w', r) -> keeps w w'.
Proof.
  induction filelist as [|f rest IH]; intros w w' r.
  - intros [= <- _]. apply keeps_refl.
  - rewrite get_loop_cons. destruct (tempdir self !! 1) as [files_dir|].
    + cbv zeta. destruct (Get_one path f _ w) as [w1 [|]] eqn:E1.
      * intros H. apply IH in H. apply get_one_keeps in E1. by eapply keeps_trans.
      * intros [= <- _]. by apply get_one_keeps in E1.
    + intros [= <- _]. apply keeps_refl.
Qed.

(** X21. Whatever its arguments and its outcome, [get] removes and
    overwrites nothing: every file and directory of the disk is there
    afterwards with its kind, the store and the buckets are untouched and
    the log is only added to. *)
Theorem get_only_adds_to_the_disk self path w :
  let r := get mkdir_refused download_refused file_exists_in_bucket self path w in
  (forall p b, disk w !! p = Some b -> disk r.1 !! p = Some b)
  /\ objects r.1 = objects w
  /\ buckets r.1 = buckets w
  /\ log w `prefix_of` log r.1.
Proof.
  cbv zeta. assert (H : keeps w (Get self path w).1).
  { unfold get, bucket_exists. cbn [buckets emit]. case_bool_decide.
    - cbn [objects emit].
      destruct (file_exists_in_bucket (objects w) path) as [[|] filelist]; cbn [negb].
      + destruct (Get_loop self path filelist _) as [w' r] eqn:E.
        apply get_loop_keeps in E.
        assert (keeps w w').
        { eapply keeps_trans; [|exact E]. eapply keeps_trans; apply keeps_emit. }
        by destruct r.
      + cbn [fst]. eapply keeps_trans; apply keeps_emit.
    - apply keeps_emit. }
  destruct H as (H1 & H2 & H3 & H4). split; [|done].
  intros p b Hp. by eapply lookup_weaken.
Qed.


Lemma lookup_made_true (m : gmap (list string) bool) l a :
  a ∈ l -> foldr (fun a d => <[a := true]> d) m l !! a = Some true.
Proof.
  induction l as [|b l IH]; intros Ha; [by apply not_elem_of_nil in Ha|]. simpl.
  destruct (decide (b = a)) as [->|Hne]; [by rewrite lookup_insert_eq|].
  rewrite lookup_insert_ne by done. apply IH.
  apply elem_of_cons in Ha as [->|Ha]; done.
Qed.

Lemma lookup_made_other (m : gmap (list string) bool) l q :
  q ∉ l -> foldr (fun a d => <[a := true]> d) m l !! q = m !! q.
Proof.
  induction l as [|b l IH]; intros Hq; [done|]. simpl.
  apply not_elem_of_cons in Hq as [Hne Hq]. rewrite lookup_insert_ne by done. by apply IH.
Qed.

Lemma ancestors_length p a : a ∈ ancestors p -> length a <= length p.
Proof.
  unfold ancestors. intros (n & -> & Hn)%list_elem_of_fmap. rewrite length_take. lia.
Qed.

Lemma removelast_shorter (p : list string) : p ≠ [] -> length (removelast p) < length p.
Proof.
  intros Hp. destruct (exists_last Hp) as (q & x & ->).
  rewrite removelast_last, length_app. simpl. lia.
Qed.

(** The body of the loop for a key whose target is not there, where no
    folder on the way is a file and nothing is refused: the folders are
    made where they are missing and the file is written. *)
Lemma get_one_downloads path f new_path w :
  let parent := parts (pathlib.parent new_path) in
  parts new_path ≠ [] ->
  (forall a, a ∈ ancestors parent -> disk w !! a ≠ Some false) ->
  disk w !! parts new_path = None ->
  mkdir_refused parent = false ->
  download_refused f = false ->
  exists w',
    Get_one path f new_path w = (w', true)
    /\ disk w' !! parts new_path = Some false
    /\ is_dir w' parent = true
    /\ EvDownload f (pathlib.str new_path) ∈ log w'
    /\ EvPrint (msg_downloaded new_path path) ∈ log w'.
Proof.
  intros parent Hne Hfiles Hnew Hmk Hdl.
  assert (Hlen : length parent < length (parts new_path)) by (by apply removelast_shorter).
  assert (Hmid : exists w1,
            Ensure_parent w parent = (w1, true)
            /\ disk w1 !! parent = Some true
            /\ disk w1 !! parts new_path = None).
  { unfold ensure_parent, exists_. case_bool_decide as He; cbn [negb].
    - exists w. split; [done|]. split; [|done]. destruct He as [[|] He]; [done|].
      destruct (Hfiles parent (self_in_ancestors _) He).
    - unfold mkdir_parents, exists_. rewrite Hmk. cbn [disk emit orb].
      rewrite (bool_decide_eq_false_2 _ He). cbn [orb].
      assert (existsb (fun a => bool_decide (disk w !! a = Some false)) (ancestors parent)
              = false) as ->.
      { apply not_true_is_false. intros (a & Ha & Hf)%existsb_exists.
        apply bool_decide_eq_true in Hf. apply list_elem_of_In in Ha.
        by destruct (Hfiles a Ha). }
      eexists. split; [done|].
      change (disk (set_disk ?d _)) with d. split.
      + apply lookup_made_true, self_in_ancestors.
      + rewrite lookup_made_other; [done|]. intros Hin%ancestors_length. lia. }
  destruct Hmid as (w1 & E1 & Hp1 & Hn1).
  unfold get_one. fold parent. rewrite E1. unfold exists_.
  rewrite bool_decide_eq_false_2 by (rewrite Hn1; by intros [? ?]). cbn [negb].
  unfold download_file, is_dir. rewrite Hdl. cbn [disk emit orb].
  fold parent. rewrite Hp1, Hn1.
  rewrite bool_decide_eq_true_2 by done. rewrite bool_decide_eq_false_2 by done.
  cbn [negb orb]. eexists. split; [done|].
  cbn [disk log set_disk emit]. split; [apply lookup_insert_eq|]. split.
  - apply bool_decide_eq_true. rewrite lookup_insert_ne; [done|].
    intros H. rewrite H in Hlen. lia.
  - split.
    + apply elem_of_app. left. apply elem_of_app. right. apply list_elem_of_here.
    + apply elem_of_app. right. apply list_elem_of_here.
Qed.

Lemma get_one_key self path f files_dir w :
  tempdir self !! 1 = Some files_dir ->
  s3_bucket self ∈ buckets w ->
  file_exists_in_bucket (objects w) path = (true, [f]) ->
  Get self path w
  = match Get_one path f (files_dir // pathlib.of_string f)
            (emit (EvFileExists path) (emit EvBucketsAll w)) with
    | (w', true) => (w', Ok None)
    | (w', false) =>
        (w', Raise (SystemExit
                      (msg_no_folder (pathlib.parent (files_dir // pathlib.of_string f)))))
    end.
Proof.
  intros Ht Hb Hf. rewrite (get_with_bucket mkdir_refused download_refused file_exists_in_bucket
             self path w [f] Hb Hf).
  rewrite get_loop_cons, Ht. cbv zeta.
  by destruct (Get_one path f _ _) as [w' [|]].
Qed.


(** X23. A key that starts with ["/"] is not kept below the temporary
    directory: [self.tempdir[1] / Path(f)] is [Path(f)] itself, and under
    the same conditions [get] writes the file at that absolute path. *)
Theorem get_follows_an_absolute_key self path f files_dir w :
  let target := pathlib.of_string f in
  let parent := parts (pathlib.parent target) in
  tempdir self !! 1 = Some files_dir ->
  s3_bucket self ∈ buckets w ->
  file_exists_in_bucket (objects w) path = (true, [f]) ->
  PyStr.startswith "/" f = true ->
  parts target ≠ [] ->
  (forall a, a ∈ ancestors parent -> disk w !! a ≠ Some false) ->
  disk w !! parts target = None ->
  mkdir_refused parent = false ->
  download_refused f = false ->
  exists w',
    Get self path w = (w', Ok None)
    /\ files_dir // pathlib.of_string f = target
    /\ disk w' !! parts target = Some false
    /\ EvDownload f (pathlib.str target) ∈ log w'.
Proof.
  intros target parent Ht Hb Hf Habs Hq Hfiles Hnew Hmk Hdl.
  assert (Hjoin : files_dir // pathlib.of_string f = target).
  { unfold pathlib.join. unfold pathlib.of_string at 1. cbn [is_abs].
    by rewrite Habs. }
  rewrite (get_one_key self path f files_dir w Ht Hb Hf), Hjoin.
  destruct (get_one_downloads path f target
              (emit (EvFileExists path) (emit EvBucketsAll w)))
    as (w' & -> & H1 & H2 & H3 & H4); try done.
  by exists w'.
Qed.


Lemma emits_emits a b w : emits b (emits a w) = emits (a ++ b) w.
Proof. unfold emits. cbn [disk buckets objects log]. by rewrite app_assoc. Qed.

Lemma emits_nil w : emits [] w = w.
Proof. destruct w as [d b o l]. unfold emits. cbn [disk buckets objects log]. by rewrite app_nil_r. Qed.

Lemma get_one_refused path f new_path w :
  exists_ w (parts (pathlib.parent new_path)) = true ->
  exists_ w (parts new_path) = false ->
  download_refused f = true ->
  Get_one path f new_path w
  = (emits [EvDownload f (pathlib.str new_path); EvPrint msg_wrong] w, true).
Proof.
  intros Hp Hn Hr. unfold get_one, ensure_parent. rewrite Hp. cbn [negb].
  rewrite Hn. cbn [negb]. unfold download_file. rewrite Hr. cbn [orb].
  unfold emit, emits. cbn [log disk buckets objects]. by rewrite <- app_assoc.
Qed.

Lemma get_loop_all_refused self path files_dir filelist :
  tempdir self !! 1 = Some files_dir ->
  forall w,
    (forall f, f ∈ filelist ->
       exists_ w (parts (pathlib.parent (files_dir // pathlib.of_string f))) = true
       /\ exists_ w (parts (files_dir // pathlib.of_string f)) = false
       /\ download_refused f = true) ->
    Get_loop self path filelist w
    = (emits (flat_map (fun f => [EvDownload f (pathlib.str (files_dir // pathlib.of_string f));
                                  EvPrint msg_wrong]) filelist) w,
       Ok ()).
Proof.
  intros Ht. induction filelist as [|f rest IH]; intros w Hall.
  - simpl. by rewrite emits_nil.
  - rewrite get_loop_cons, Ht. cbv zeta.
    destruct (Hall f (list_elem_of_here _ _)) as (Hp & Hn & Hr).
    rewrite (get_one_refused path f _ w Hp Hn Hr).
    rewrite IH; [by rewrite emits_emits|].
    intros g Hg. apply Hall. by right.
Qed.

(** X24. A download that fails is not reported to the caller: where the
    folders are there, the targets are not and every download is refused,
    [get] tries each key in turn, prints "Something wrong: " after each,
    leaves the disk as it was and returns [None] as after a complete
    download. *)
Theorem get_hides_failed_downloads self path files_dir filelist w :
  let target := fun f => files_dir // pathlib.of_string f in
  tempdir self !! 1 = Some files_dir ->
  s3_bucket self ∈ buckets w ->
  file_exists_in_bucket (objects w) path = (true, filelist) ->
  (forall f, f ∈ filelist ->
     exists_ w (parts (pathlib.parent (target f))) = true
     /\ exists_ w (parts (target f)) = false
     /\ download_refused f = true) ->
  Get self path w
  = (emits ([EvBucketsAll; EvFileExists path]
            ++ flat_map (fun f => [EvDownload f (pathlib.str (target f)); EvPrint msg_wrong])
                 filelist) w,
     Ok None).
Proof.
  intros target Ht Hb Hf Hall.
  rewrite (get_with_bucket mkdir_refused download_refused file_exists_in_bucket
             self path w filelist Hb Hf).
  rewrite (get_loop_all_refused self path files_dir filelist Ht).
  2:{ intros f Hin. rewrite !exists_emit. by apply Hall. }
  unfold emit, emits. cbn [log disk buckets objects]. by rewrite <- !app_assoc.
Qed.

(** X25. Where the folder of the first key is missing and cannot be
    made, [get] leaves by [sys.exit] with the message naming the folder:
    no key has been downloaded, the later ones have not been looked at
    and the disk is as it was. *)
Theorem get_stops_where_a_folder_cannot_be_made self path files_dir f rest w :
  let parent := pathlib.parent (files_dir // pathlib.of_string f) in
  tempdir self !! 1 = Some files_dir ->
  s3_bucket self ∈ buckets w ->
  file_exists_in_bucket (objects w) path = (true, f :: rest) ->
  exists_ w (parts parent) = false ->
  mkdir_refused (parts parent) = true ->
  Get self path w
  = (emits [EvBucketsAll; EvFileExists path; EvMkdir (parts parent)] w,
     Raise (SystemExit (msg_no_folder parent))).
Proof.
  intros parent Ht Hb Hf Hn Hr.
  rewrite (get_with_bucket mkdir_refused download_refused file_exists_in_bucket
             self path w (f :: rest) Hb Hf).
  rewrite get_loop_cons, Ht. cbv zeta. unfold get_one, ensure_parent. fold parent.
  rewrite !exists_emit, Hn. cbn [negb]. unfold mkdir_parents. rewrite Hr. cbn [orb].
  unfold emit, emits. cbn [log disk buckets objects]. by rewrite <- !app_assoc.
Qed.

End GetFacts.

(** Every entry of the disk of [Sample.ready] is a directory. *)
Lemma sample_ready_dirs a : disk Sample.ready !! a ≠ Some false.
Proof.
  unfold Sample.ready, made, Sample.world. cbn [disk set_disk emit].
  rewrite !lookup_insert.
  repeat (destruct (decide (_ = a)) as [_|_]; [discriminate|]).
  rewrite lookup_singleton. by destruct (decide _).
Qed.


(** A key that names a file of the home directory. *)
Lemma get_follows_an_absolute_key_witness :
  exists w',
    get Sample.none_refused Sample.none_refused Sample.file_exists_in_bucket
      Sample.deliverer "/home" Sample.rooted
    = (w', Ok None)
    /\ disk w' !! ["home"; "u"; "notes.txt"] = Some false.
Proof.
  destruct (get_follows_an_absolute_key Sample.none_refused Sample.none_refused
              Sample.file_exists_in_bucket Sample.deliverer "/home" "/home/u/notes.txt"
              (Sample.temp_dir // pathlib.of_string "files/") Sample.rooted)
    as (w' & E & _ & Hd & _).
  - reflexivity.
  - apply list_elem_of_here.
  - reflexivity.
  - reflexivity.
  - discriminate.
  - intros a _. apply sample_ready_dirs.
  - vm_compute. reflexivity.
  - reflexivity.
  - reflexivity.
  - exists w'. split; [exact E|exact Hd].
Defined.

(** Two keys, no download let through. *)
Lemma get_hides_failed_downloads_witness :
  (get Sample.none_refused (fun _ => true) Sample.file_exists_in_bucket
     Sample.deliverer "x" Sample.flat).2
  = Ok None
  /\ disk (get Sample.none_refused (fun _ => true) Sample.file_exists_in_bucket
             Sample.deliverer "x" Sample.flat).1
     = disk Sample.flat.
Proof.
  rewrite (get_hides_failed_downloads Sample.none_refused (fun _ => true)
             Sample.file_exists_in_bucket Sample.deliverer "x"
             (Sample.temp_dir // pathlib.of_string "files/") ["x1.bin"; "x2.bin"]
             Sample.flat).
  - split; reflexivity.
  - reflexivity.
  - apply list_elem_of_here.
  - reflexivity.
  - intros f Hf. repeat (apply elem_of_cons in Hf as [->|Hf]);
      [by vm_compute..|by apply not_elem_of_nil in Hf].
Defined.

(** The folder [run1] cannot be made. *)
Lemma get_stops_where_a_folder_cannot_be_made_witness :
  (get Sample.all_refused Sample.none_refused Sample.file_exists_in_bucket
     Sample.deliverer "run1/" Sample.ready).2
  = Raise (SystemExit
             (msg_no_folder
                (pathlib.parent (Sample.temp_dir // pathlib.of_string "files/"
                                 // pathlib.of_string "run1/abcdef_reads.fastq.gz.ccp")))).
Proof.
  rewrite (get_stops_where_a_folder_cannot_be_made Sample.all_refused Sample.none_refused
             Sample.file_exists_in_bucket Sample.deliverer "run1/"
             (Sample.temp_dir // pathlib.of_string "files/")
             "run1/abcdef_reads.fastq.gz.ccp" ["run1/012345_notes.txt.zst.ccp"]
             Sample.ready); reflexivity || apply list_elem_of_here.
Defined.
